(** * Inline supplementary video player: transport and dispatch layer

  A shallow embedding of the message-transport code of the extension:
  the background service worker (job dispatcher, upload staging, stored
  results), the offscreen document (result sender, archive extraction,
  chunked-input receiver) and the content script (upload decision,
  result decoding).

  Conventions.
  - A JavaScript string is a [string]; an index or a length is a [nat].
  - The 32 MiB constant that the source binds at every call site
    ([MAX_MESSAGE_SIZE], [MAX_CHUNK_SIZE], [MAX_RESPONSE_SIZE], all
    [32 * 1024 * 1024]) is a parameter of the functions that use it; the
    deployed value is [deployed_ceiling].
  - An [async] function is cut at its [await]s: every piece between two
    suspension points runs to completion and is one state transformer.
  - Platform services ([localeCompare], [toLowerCase], [JSON.stringify],
    the archive reader, the conversion engine) are section variables. *)

From Stdlib Require Import ZArith Lia ZifyNat Ascii String.
From Stdlib Require Import Init.Byte.
From stdpp Require Import gmap strings list pretty sorting.

Local Open Scope nat_scope.

(** ** JavaScript primitives *)

Module JS.

(** The code units of a string. *)
Definition chars (s : string) : list ascii := list_ascii_of_string s.
Definition of_chars (l : list ascii) : string := string_of_list_ascii l.

(** [Math.ceil(a / b)] for non-negative integers and [b > 0]. Below 2^53
    the floating-point quotient rounds to an integer only when it is
    one, so the integer formula is exact for every string length. *)
Definition ceil_div (a b : nat) : nat :=
  a / b + (if a mod b =? 0 then 0 else 1).

(** [s.substring(start, end)]: both arguments are clamped to the length
    and swapped when out of order. *)
Definition substring (start end_ : nat) (s : string) : string :=
  let len := String.length s in
  let a := start `min` len in
  let b := end_ `min` len in
  String.substring (a `min` b) ((a `max` b) - (a `min` b)) s.

(** A string is truthy when it is not empty. *)
Definition truthy (s : string) : bool :=
  match s with EmptyString => false | String _ _ => true end.

(** Arrays with holes: [new Array(n)], [a[i] = v] (which extends the
    array when [i] is past its end) and [a.join('')] (a hole joins as
    the empty string). *)
Abbreviation array A := (list (option A)).

Definition new_Array {A} (n : nat) : array A := replicate n None.

Definition array_set {A} (i : nat) (v : A) (a : array A) : array A :=
  if decide (i < length a) then <[i := Some v]> a
  else a ++ replicate (i - length a) None ++ [Some v].

Definition join (a : list string) : string := String.concat "" a.

Definition array_join (a : array string) : string :=
  join (default "" <$> a).

(** [u.subarray(start, end)] on a typed array, for [start <= end]. *)
Definition subarray {A} (start end_ : nat) (u : list A) : list A :=
  take (end_ `min` length u - start) (drop start u).

(** [s.startsWith(p)] and [s.endsWith(p)]. *)
Definition startsWith (p s : string) : bool := String.prefix p s.

Definition endsWith (p s : string) : bool :=
  bool_decide (drop (String.length s - String.length p) (chars s) = chars p)
  && bool_decide (String.length p <= String.length s).

(** [s.split('.').pop()]: what follows the last dot, or the whole string
    when it has none. *)
Fixpoint after_last_dot (acc : string) (s : string) : string :=
  match s with
  | EmptyString => acc
  | String c s' =>
      if Ascii.eqb c "." then after_last_dot s' s' else after_last_dot acc s'
  end.

Definition split_dot_pop (s : string) : string := after_last_dot s s.

End JS.


(** ** Results of fallible code

    A JavaScript function either returns a value or throws; what callers
    see of a thrown value is its [message]. *)

Inductive outcome (A : Type) : Type :=
  | Returned (a : A)
  | Thrown (message : string).
Arguments Returned {A} a.
Arguments Thrown {A} message.

#[global] Instance outcome_ret : MRet outcome := fun A a => Returned a.
#[global] Instance outcome_bind : MBind outcome := fun A B f m =>
  match m with
  | Returned a => f a
  | Thrown e => Thrown e
  end.
#[global] Instance outcome_fmap : FMap outcome := fun A B f m =>
  match m with
  | Returned a => Returned (f a)
  | Thrown e => Thrown e
  end.

(** ** The platform's base64 codec

    [btoa] and [atob] are browser built-ins; they follow the HTML
    standard (forgiving-base64 encode and decode, RFC 4648 alphabet). A
    [string] holds 8-bit code units, so the argument of [btoa] is always
    in its domain. *)

Module Base64.

Definition alphabet : string :=
  "ABCDEFGHIJKLMNOPQRSTUVWXYZabcdefghijklmnopqrstuvwxyz0123456789+/".

Definition enc (n : nat) : ascii :=
  default "A"%char (JS.chars alphabet !! n).

Definition dec (c : ascii) : option nat :=
  fst <$> list_find (eq c) (JS.chars alphabet).

(** Three octets become four sextets; a tail of one or two octets becomes
    two or three. *)
Fixpoint sextets (bs : list nat) : list nat :=
  match bs with
  | a :: b :: c :: rest =>
      a / 4 :: (a mod 4) * 16 + b / 16 :: (b mod 16) * 4 + c / 64 ::
      c mod 64 :: sextets rest
  | [a; b] => [a / 4; (a mod 4) * 16 + b / 16; (b mod 16) * 4]
  | [a] => [a / 4; (a mod 4) * 16]
  | [] => []
  end.

Definition padding (n : nat) : list ascii :=
  replicate ((3 - n mod 3) mod 3) "="%char.

Definition btoa (binary : string) : string :=
  let bs := nat_of_ascii <$> JS.chars binary in
  JS.of_chars ((enc <$> sextets bs) ++ padding (length bs)).

Definition is_whitespace (c : ascii) : bool :=
  match c with
  | "009" | "010" | "012" | "013" | " " => true
  | _ => false
  end%char.

(** When the length is a multiple of four, up to two trailing [=] go. *)
Definition without_last_eq (cs : list ascii) : option (list ascii) :=
  match reverse cs with
  | c :: r => if Ascii.eqb c "=" then Some (reverse r) else None
  | [] => None
  end.

Definition strip_padding (cs : list ascii) : list ascii :=
  if length cs mod 4 =? 0 then
    match without_last_eq cs with
    | Some cs1 => default cs1 (without_last_eq cs1)
    | None => cs
    end
  else cs.

(** Four sextets become three octets; a tail of two or three sextets
    becomes one or two, the spare bits being discarded. *)
Fixpoint octets (ss : list nat) : list nat :=
  match ss with
  | a :: b :: c :: d :: rest =>
      a * 4 + b / 16 :: (b mod 16) * 16 + c / 4 :: (c mod 4) * 64 + d ::
      octets rest
  | [a; b; c] => [a * 4 + b / 16; (b mod 16) * 16 + c / 4]
  | [a; b] => [a * 4 + b / 16]
  | _ => []
  end.

(** [None] stands for the [InvalidCharacterError] exception. *)
Definition atob (data : string) : option string :=
  let cs := List.filter (fun c => negb (is_whitespace c)) (JS.chars data) in
  let cs := strip_padding cs in
  if length cs mod 4 =? 1 then None
  else ss ← mapM dec cs; Some (JS.of_chars (ascii_of_nat <$> octets ss)).

End Base64.

(** ** Message shapes *)

Module Wire.

(** One item of a multi-video result. *)
Record Video := mkVideo {
  name : string;
  base64 : string;
  mimeType : string
}.

(** What a job produces: [{ base64, mimeType, needsTranscode? }] or
    [{ videos, multiple: true }]. *)
Inductive Result :=
  | Single (base64 mimeType : string) (needsTranscode : option bool)
  | Multiple (videos : list Video).

(** The two forms of [RESULT_CHUNKED_START]: with [mimeType], or with
    [isMultipleVideos: true]. *)
Inductive Shape :=
  | SingleShape (mimeType : string)
  | MultiShape.

(** Offscreen document to background, over the port. [RESULT_ERROR e] is
    [{ type: 'RESULT', error: e }]. *)
Inductive WorkerMsg :=
  | READY
  | PROGRESS (tabId : nat) (status : string) (progress : nat)
  | RESULT (result : Result)
  | RESULT_ERROR (error : string)
  | RESULT_CHUNKED_START (shape : Shape) (totalChunks totalLength : nat)
  | RESULT_CHUNK (chunkIndex : nat) (chunk : string)
  | RESULT_CHUNKED_END.

(** Background to offscreen document, over the port. *)
Inductive DispatchMsg :=
  | TRANSCODE (videoUrl : string) (tabId : nat)
  | EXTRACT_ZIP (zipUrl : string) (tabId : nat)
  | EXTRACT_ZIP_DATA (zipBase64 : string) (tabId : nat)
  | EXTRACT_ZIP_DATA_START (totalChunks totalLength tabId : nat)
  | EXTRACT_ZIP_DATA_CHUNK (chunkIndex : nat) (chunk : string)
  | EXTRACT_ZIP_DATA_END (tabId : nat).

(** Content script to background ([chrome.runtime.sendMessage]). *)
Inductive Request :=
  | TRANSCODE_VIDEO (videoUrl : string)
  | EXTRACT_ZIP_URL (zipUrl : string)
  | EXTRACT_ZIP_DATA_WHOLE (zipBase64 : string)
  | EXTRACT_ZIP_CHUNK (transferId : string) (chunkIndex totalChunks : nat)
      (chunk : string)
  | EXTRACT_ZIP_PROCESS (transferId : string)
  | GET_RESULT_CHUNK (resultId : string) (chunkIndex : nat).

(** What the background answers to a job request: the result itself, or
    [{ chunked: true, resultId, totalChunks, totalLength, ... }]. *)
Inductive Response :=
  | Inline (result : Result)
  | Chunked (resultId : string) (totalChunks totalLength : nat) (shape : Shape).

End Wire.

Import Wire.

(** ** The chunking loop

    The same loop body is written out at every place that splits a
    string: [start = i * MAX], [end = Math.min(start + MAX, length)],
    [chunk = data.substring(start, end)], for [i] below
    [Math.ceil(length / MAX)]. *)

Module Chunking.

(** [l[a : b]]: the part of a sequence from position [a] up to, not
    including, [b]. *)
Definition slice {A} (a b : nat) (l : list A) : list A :=
  take (b - a) (drop a l).

Definition chunkAt (MAX : nat) (data : string) (i : nat) : string :=
  let start := i * MAX in
  let end_ := (start + MAX) `min` String.length data in
  JS.substring start end_ data.

Definition totalChunks (MAX : nat) (data : string) : nat :=
  JS.ceil_div (String.length data) MAX.

Definition chunksOf (MAX : nat) (data : string) : list string :=
  chunkAt MAX data <$> seq 0 (totalChunks MAX data).

End Chunking.

(** ** The offscreen document (offscreen.js) *)

Module Offscreen.

Definition NATIVE_FORMATS : list string := ["mp4"; "webm"; "ogg"; "m4v"].
Definition TRANSCODE_FORMATS : list string :=
  ["avi"; "mkv"; "flv"; "wmv"; "mov"].

(** An entry of [zip.files]: its key, its [dir] flag and what
    [async('uint8array')] yields. *)
Record ZipEntry := mkEntry {
  entry_name : string;
  dir : bool;
  async_uint8array : outcome (list byte)
}.

(** [String.fromCharCode.apply(null, chunk)]. *)
Definition fromCharCode (chunk : list byte) : string :=
  string_of_list_byte chunk.

(** [uint8ToBase64]: the binary string is built 32768 bytes at a time,
    then handed to [btoa]. *)
Definition uint8ToBase64 (data : list byte) : string :=
  let chunkSize := 32 * 1024 in
  let starts :=
    (fun k => k * chunkSize) <$> seq 0 (JS.ceil_div (length data) chunkSize) in
  let base64 :=
    foldl (fun base64 i =>
             base64 +:+
             fromCharCode (JS.subarray i ((i + chunkSize) `min` length data) data))
          "" starts in
  Base64.btoa base64.

(** [Array.prototype.sort] with a comparator is a stable sort; insertion
    from the right computes the stable arrangement. *)
Fixpoint insert_by {A} (cmp : A -> A -> Z) (x : A) (l : list A) : list A :=
  match l with
  | [] => [x]
  | y :: l' =>
      if (cmp x y <=? 0)%Z then x :: y :: l' else y :: insert_by cmp x l'
  end.

Fixpoint sort_by {A} (cmp : A -> A -> Z) (l : list A) : list A :=
  match l with
  | [] => []
  | x :: l' => insert_by cmp x (sort_by cmp l')
  end.

Section platform.

(** The transport ceiling, [32 * 1024 * 1024] in the source. *)
Variable MAX_MESSAGE_SIZE : nat.

Variable toLowerCase : string -> string.
Variable localeCompare : string -> string -> Z.
Variable JSON_stringify : Result -> string.

(** [JSZip.loadAsync]: the entries of [zip.files] in key order. *)
Variable JSZip_loadAsync : list byte -> outcome (list ZipEntry).

(** The engine run of one entry: [loadFFmpeg], [writeFile], [exec],
    [readFile] and the two [deleteFile]s. *)
Variable ffmpeg_transcode : string -> string -> list byte -> outcome (list byte).

(** [sendResult]: the messages posted on the port, in order. *)
Definition totalSize (result : Result) : nat :=
  match result with
  | Single base64 _ _ =>
      if JS.truthy base64 then String.length base64 else 0
  | Multiple videos =>
      foldl (fun sum v => sum + String.length (base64 v)) 0 videos
  end.

Definition chunkedMessages (shape : Shape) (data : string) : list WorkerMsg :=
  let totalChunks := JS.ceil_div (String.length data) MAX_MESSAGE_SIZE in
  RESULT_CHUNKED_START shape totalChunks (String.length data) ::
  ((fun i => RESULT_CHUNK i (Chunking.chunkAt MAX_MESSAGE_SIZE data i))
     <$> seq 0 totalChunks) ++
  [RESULT_CHUNKED_END].

Definition sendResult (result : Result) : list WorkerMsg :=
  if totalSize result <=? MAX_MESSAGE_SIZE then [RESULT result]
  else
    match result with
    | Multiple _ => chunkedMessages MultiShape (JSON_stringify result)
    | Single base64 mimeType _ => chunkedMessages (SingleShape mimeType) base64
    end.

(** [extractZipFromData]. Progress reports are left out: they are posted
    and forgotten, and nothing below reads them. *)
Definition allFormats : list string := NATIVE_FORMATS ++ TRANSCODE_FORMATS.

Definition isVideoFile (e : ZipEntry) : bool :=
  let lowerName := toLowerCase (entry_name e) in
  if dir e || JS.startsWith "__macosx" lowerName || JS.startsWith "." lowerName
  then false
  else existsb (fun ext => JS.endsWith ("." +:+ ext) lowerName) allFormats.

Definition mimeTypes (ext : string) : string :=
  if String.eqb ext "mp4" then "video/mp4"
  else if String.eqb ext "webm" then "video/webm"
  else if String.eqb ext "ogg" then "video/ogg"
  else if String.eqb ext "m4v" then "video/mp4"
  else "video/mp4".

Definition extractOne (i : nat) (videoFile : ZipEntry) : outcome Video :=
  let videoFileName := entry_name videoFile in
  videoData ← async_uint8array videoFile;
  let ext := toLowerCase (JS.split_dot_pop videoFileName) in
  if bool_decide (ext ∈ NATIVE_FORMATS) then
    mret (mkVideo videoFileName (uint8ToBase64 videoData) (mimeTypes ext))
  else
    let inputName := "input_" +:+ pretty i +:+ "." +:+ ext in
    let outputName := "output_" +:+ pretty i +:+ ".mp4" in
    data ← ffmpeg_transcode inputName outputName videoData;
    mret (mkVideo videoFileName (uint8ToBase64 data) "video/mp4").

Fixpoint extractFrom (i : nat) (videoFiles : list ZipEntry)
  : outcome (list Video) :=
  match videoFiles with
  | [] => mret []
  | videoFile :: rest =>
      v ← extractOne i videoFile;
      vs ← extractFrom (S i) rest;
      mret (v :: vs)
  end.

Definition extractZipFromData (zipBase64 : string) : outcome Result :=
  match Base64.atob zipBase64 with
  | None => Thrown "InvalidCharacterError"
  | Some binaryString =>
      let zipData := byte_of_ascii <$> JS.chars binaryString in
      files ← JSZip_loadAsync zipData;
      let videoFiles := List.filter isVideoFile files in
      if length videoFiles =? 0 then Thrown "No video file found in ZIP"
      else
        let videoFiles :=
          sort_by (fun a b => localeCompare (entry_name a) (entry_name b))
                  videoFiles in
        results ← extractFrom 0 videoFiles;
        match results with
        | [r] => mret (Single (base64 r) (mimeType r) (Some false))
        | _ => mret (Multiple results)
        end
  end.

(** What the worker does once [extractZipFromData] has settled. *)
Definition reply (r : outcome Result) : list WorkerMsg :=
  match r with
  | Returned result => sendResult result
  | Thrown message => [RESULT_ERROR message]
  end.

End platform.

(** The port listener: the staging of a chunked input, and the job each
    message starts. *)
Record ChunkedInput := mkInput {
  totalChunks : nat;
  chunks : JS.array string;
  received : nat;
  tabId : nat
}.

Inductive Job :=
  | transcodeVideo (videoUrl : string) (tabId : nat)
  | extractZipVideo (zipUrl : string) (tabId : nat)
  | extractZipData (zipBase64 : string) (tabId : nat).

Definition onMessage (message : DispatchMsg) (chunkedInput : option ChunkedInput)
  : option ChunkedInput * list Job :=
  match message with
  | TRANSCODE videoUrl tabId => (chunkedInput, [transcodeVideo videoUrl tabId])
  | EXTRACT_ZIP zipUrl tabId => (chunkedInput, [extractZipVideo zipUrl tabId])
  | EXTRACT_ZIP_DATA zipBase64 tabId =>
      (chunkedInput, [extractZipData zipBase64 tabId])
  | EXTRACT_ZIP_DATA_START totalChunks _ tabId =>
      (Some (mkInput totalChunks [] 0 tabId), [])
  | EXTRACT_ZIP_DATA_CHUNK chunkIndex chunk =>
      match chunkedInput with
      | Some ci =>
          (Some (mkInput (totalChunks ci)
                         (JS.array_set chunkIndex chunk (chunks ci))
                         (S (received ci)) (tabId ci)), [])
      | None => (None, [])
      end
  | EXTRACT_ZIP_DATA_END _ =>
      match chunkedInput with
      | Some ci => (None, [extractZipData (JS.array_join (chunks ci)) (tabId ci)])
      | None => (None, [])
      end
  end.

(** A run of the listener over a sequence of messages. *)
Fixpoint onMessages (messages : list DispatchMsg)
    (chunkedInput : option ChunkedInput) : option ChunkedInput * list Job :=
  match messages with
  | [] => (chunkedInput, [])
  | m :: rest =>
      let '(ci, started) := onMessage m chunkedInput in
      let '(ci', later) := onMessages rest ci in
      (ci', started ++ later)
  end.

End Offscreen.

(** ** The background service worker (background script) *)

Module Background.

(** A [chunkStorage] entry. *)
Record Transfer := mkTransfer {
  chunks : JS.array string;
  totalChunks : nat;
  received : nat
}.

(** A [resultStorage] entry: a result object, or
    [{ json, isMultipleVideos: true }]. *)
Inductive Stored :=
  | StoredResult (result : Result)
  | StoredJson (json : string).

(** The staging of a chunked result coming from the offscreen document. *)
Record ChunkedResult := mkChunked {
  shape : Shape;
  cr_totalChunks : nat;
  cr_chunks : JS.array string;
  cr_received : nat
}.

(** How a promise ended. A resolution with [None] is a resolution with
    [undefined]. *)
Inductive settlement :=
  | Resolved (value : option Result)
  | Rejected (message : string).

(** A [setTimeout] that was armed: its delay in milliseconds and the
    message its callback rejects with. *)
Record Timer := mkTimer {
  delay : N;
  timeoutMessage : string
}.

(** The script's variables. [promises] is the heap of result promises, one
    cell per [new Promise], [None] while pending; [pendingTranscode] holds
    the index of the promise whose [{ resolve, reject }] pair sits in the
    slot. [posted] and [relayed] log [offscreenPort.postMessage] and
    [chrome.tabs.sendMessage]. *)
Record State := mkState {
  offscreenReady : bool;
  pendingTranscode : option nat;
  chunkedResult : option ChunkedResult;
  chunkStorage : gmap string Transfer;
  resultStorage : gmap string Stored;
  promises : list (option settlement);
  timers : list Timer;
  posted : list DispatchMsg;
  relayed : list (nat * string * nat)
}.

Definition initial : State :=
  mkState false None None ∅ ∅ [] [] [] [].

Definition set_offscreenReady (b : bool) (σ : State) : State :=
  mkState b (pendingTranscode σ) (chunkedResult σ) (chunkStorage σ)
          (resultStorage σ) (promises σ) (timers σ) (posted σ) (relayed σ).

Definition set_pendingTranscode (p : option nat) (σ : State) : State :=
  mkState (offscreenReady σ) p (chunkedResult σ) (chunkStorage σ)
          (resultStorage σ) (promises σ) (timers σ) (posted σ) (relayed σ).

Definition set_chunkedResult (c : option ChunkedResult) (σ : State) : State :=
  mkState (offscreenReady σ) (pendingTranscode σ) c (chunkStorage σ)
          (resultStorage σ) (promises σ) (timers σ) (posted σ) (relayed σ).

Definition set_chunkStorage (m : gmap string Transfer) (σ : State) : State :=
  mkState (offscreenReady σ) (pendingTranscode σ) (chunkedResult σ) m
          (resultStorage σ) (promises σ) (timers σ) (posted σ) (relayed σ).

Definition set_resultStorage (m : gmap string Stored) (σ : State) : State :=
  mkState (offscreenReady σ) (pendingTranscode σ) (chunkedResult σ)
          (chunkStorage σ) m (promises σ) (timers σ) (posted σ) (relayed σ).

Definition set_promises (ps : list (option settlement)) (σ : State) : State :=
  mkState (offscreenReady σ) (pendingTranscode σ) (chunkedResult σ)
          (chunkStorage σ) (resultStorage σ) ps (timers σ) (posted σ)
          (relayed σ).

Definition set_timers (ts : list Timer) (σ : State) : State :=
  mkState (offscreenReady σ) (pendingTranscode σ) (chunkedResult σ)
          (chunkStorage σ) (resultStorage σ) (promises σ) ts (posted σ)
          (relayed σ).

Definition postMessage (ms : list DispatchMsg) (σ : State) : State :=
  mkState (offscreenReady σ) (pendingTranscode σ) (chunkedResult σ)
          (chunkStorage σ) (resultStorage σ) (promises σ) (timers σ)
          (posted σ ++ ms) (relayed σ).

Definition tabs_sendMessage (m : nat * string * nat) (σ : State) : State :=
  mkState (offscreenReady σ) (pendingTranscode σ) (chunkedResult σ)
          (chunkStorage σ) (resultStorage σ) (promises σ) (timers σ)
          (posted σ) (relayed σ ++ [m]).

(** Calling [resolve] or [reject] of promise [p]: only a pending promise
    changes. *)
Definition settle (p : nat) (s : settlement) (σ : State) : State :=
  match promises σ !! p with
  | Some None => set_promises (<[p := Some s]> (promises σ)) σ
  | _ => σ
  end.

(** The executor every job handler passes to [new Promise]: it puts the
    new pair in the slot and arms the timer. Returns the new promise. *)
Definition newResultPromise (ms : N) (message : string) (σ : State)
  : nat * State :=
  let p := length (promises σ) in
  (p, set_timers (timers σ ++ [mkTimer ms message])
        (set_pendingTranscode (Some p)
           (set_promises (promises σ ++ [None]) σ))).

(** The timer callback: [if (pendingTranscode) { pendingTranscode.reject(
    new Error(message)); pendingTranscode = null; }]. *)
Definition onTimeout (message : string) (σ : State) : State :=
  match pendingTranscode σ with
  | Some p => set_pendingTranscode None (settle p (Rejected message) σ)
  | None => σ
  end.

Section handlers.

(** The transport ceiling: [MAX_CHUNK_SIZE] and [MAX_RESPONSE_SIZE] of the
    source, both [32 * 1024 * 1024]. *)
Variable MAX_CHUNK_SIZE : nat.
Local Abbreviation MAX_RESPONSE_SIZE := MAX_CHUNK_SIZE (only parsing).

Variable JSON_stringify : Result -> string.
(** [None] stands for the [SyntaxError] exception. *)
Variable JSON_parse : string -> option Result.

(** The port listener ([port.onMessage]). On [READY] it also wakes the
    readiness wait of [ensureOffscreenDocument], which is outside this
    model. A [SyntaxError] of [JSON.parse] escapes the listener before it
    has changed anything. *)
Definition onPortMessage (message : WorkerMsg) (σ : State) : State :=
  match message with
  | READY => set_offscreenReady true σ
  | PROGRESS tabId status progress =>
      if tabId =? 0 then σ else tabs_sendMessage (tabId, status, progress) σ
  | RESULT result =>
      match pendingTranscode σ with
      | Some p =>
          set_pendingTranscode None (settle p (Resolved (Some result)) σ)
      | None => σ
      end
  | RESULT_ERROR error =>
      match pendingTranscode σ with
      | Some p =>
          set_pendingTranscode None
            (settle p (if JS.truthy error then Rejected error
                       else Resolved None) σ)
      | None => σ
      end
  | RESULT_CHUNKED_START shape totalChunks _ =>
      set_chunkedResult (Some (mkChunked shape totalChunks [] 0)) σ
  | RESULT_CHUNK chunkIndex chunk =>
      match chunkedResult σ with
      | Some cr =>
          set_chunkedResult
            (Some (mkChunked (shape cr) (cr_totalChunks cr)
                     (JS.array_set chunkIndex chunk (cr_chunks cr))
                     (S (cr_received cr)))) σ
      | None => σ
      end
  | RESULT_CHUNKED_END =>
      match chunkedResult σ, pendingTranscode σ with
      | Some cr, Some p =>
          let combined := JS.array_join (cr_chunks cr) in
          match shape cr with
          | MultiShape =>
              match JSON_parse combined with
              | Some result =>
                  set_pendingTranscode None
                    (settle p (Resolved (Some result))
                       (set_chunkedResult None σ))
              | None => σ
              end
          | SingleShape mimeType =>
              set_pendingTranscode None
                (settle p (Resolved (Some (Single combined mimeType None)))
                   (set_chunkedResult None σ))
          end
      | _, _ => σ
      end
  end.

(** The job handlers, from the end of [await ensureOffscreenDocument()]
    to [await resultPromise]. Each returns the promise it awaits. *)
Definition handleTranscode (videoUrl : string) (tabId : nat) (σ : State)
  : nat * State :=
  let '(p, σ) := newResultPromise (5 * 60 * 1000) "Transcoding timed out" σ in
  (p, postMessage [TRANSCODE videoUrl tabId] σ).

Definition handleExtractZip (zipUrl : string) (tabId : nat) (σ : State)
  : nat * State :=
  let '(p, σ) := newResultPromise (5 * 60 * 1000) "ZIP extraction timed out" σ in
  (p, postMessage [EXTRACT_ZIP zipUrl tabId] σ).

Definition handleExtractZipData (zipBase64 : string) (tabId : nat) (σ : State)
  : nat * State :=
  let '(p, σ) := newResultPromise (5 * 60 * 1000) "ZIP extraction timed out" σ in
  (p, postMessage [EXTRACT_ZIP_DATA zipBase64 tabId] σ).

(** [handleExtractZipData] after [await resultPromise]; [now] is
    [Date.now().toString()]. *)
Definition handleExtractZipData_response (now : string) (result : Result)
    (σ : State) : Response * State :=
  match result with
  | Single base64 mimeType _ =>
      if JS.truthy base64 && (MAX_RESPONSE_SIZE <? String.length base64) then
        let resultId := now +:+ "_result" in
        (Chunked resultId (JS.ceil_div (String.length base64) MAX_RESPONSE_SIZE)
                 (String.length base64) (SingleShape mimeType),
         set_resultStorage (<[resultId := StoredResult result]> (resultStorage σ)) σ)
      else (Inline result, σ)
  | Multiple _ => (Inline result, σ)
  end.

(** [handleExtractZipChunk]. The acknowledgement is
    [{ success: true, received, total }]. *)
Definition handleExtractZipChunk (transferId : string)
    (chunkIndex totalChunks : nat) (chunk : string) (σ : State)
  : (nat * nat) * State :=
  let storage :=
    match chunkStorage σ !! transferId with
    | Some storage => storage
    | None => mkTransfer (JS.new_Array totalChunks) totalChunks 0
    end in
  let storage :=
    mkTransfer (JS.array_set chunkIndex chunk (chunks storage))
               (Background.totalChunks storage) (S (received storage)) in
  ((received storage, totalChunks),
   set_chunkStorage (<[transferId := storage]> (chunkStorage σ)) σ).

(** [handleExtractZipProcess], up to [await ensureOffscreenDocument()]:
    the completeness gate and the reassembly. *)
Definition handleExtractZipProcess_collect (transferId : string) (σ : State)
  : outcome string * State :=
  match chunkStorage σ !! transferId with
  | None => (Thrown ("Transfer not found: " +:+ transferId), σ)
  | Some storage =>
      if negb (received storage =? totalChunks storage) then
        (Thrown ("Incomplete transfer: received " +:+ pretty (received storage)
                 +:+ "/" +:+ pretty (totalChunks storage) +:+ " chunks"), σ)
      else
        (Returned (JS.array_join (chunks storage)),
         set_chunkStorage (delete transferId (chunkStorage σ)) σ)
  end.

(** What [handleExtractZipProcess] posts to the offscreen document. *)
Definition toOffscreen (zipBase64 : string) (tabId : nat) : list DispatchMsg :=
  if MAX_CHUNK_SIZE <? String.length zipBase64 then
    let totalChunks := JS.ceil_div (String.length zipBase64) MAX_CHUNK_SIZE in
    EXTRACT_ZIP_DATA_START totalChunks (String.length zipBase64) tabId ::
    ((fun i => EXTRACT_ZIP_DATA_CHUNK i (Chunking.chunkAt MAX_CHUNK_SIZE zipBase64 i))
       <$> seq 0 totalChunks) ++
    [EXTRACT_ZIP_DATA_END tabId]
  else [EXTRACT_ZIP_DATA zipBase64 tabId].

(** [handleExtractZipProcess], from there to [await resultPromise]. *)
Definition handleExtractZipProcess_dispatch (zipBase64 : string) (tabId : nat)
    (σ : State) : nat * State :=
  let '(p, σ) := newResultPromise (10 * 60 * 1000) "ZIP extraction timed out" σ in
  (p, postMessage (toOffscreen zipBase64 tabId) σ).

(** [handleExtractZipProcess] after [await resultPromise]. *)
Definition totalSize (result : Result) : nat :=
  match result with
  | Single base64 _ _ =>
      if JS.truthy base64 then String.length base64 else 0
  | Multiple videos =>
      foldl (fun sum v => sum + String.length (base64 v)) 0 videos
  end.

Definition handleExtractZipProcess_response (transferId : string)
    (result : Result) (σ : State) : Response * State :=
  if MAX_RESPONSE_SIZE <? totalSize result then
    let resultId := transferId +:+ "_result" in
    match result with
    | Multiple _ =>
        let jsonStr := JSON_stringify result in
        (Chunked resultId (JS.ceil_div (String.length jsonStr) MAX_RESPONSE_SIZE)
                 (String.length jsonStr) MultiShape,
         set_resultStorage (<[resultId := StoredJson jsonStr]> (resultStorage σ)) σ)
    | Single base64 mimeType _ =>
        (Chunked resultId (JS.ceil_div (String.length base64) MAX_RESPONSE_SIZE)
                 (String.length base64) (SingleShape mimeType),
         set_resultStorage (<[resultId := StoredResult result]> (resultStorage σ)) σ)
    end
  else (Inline result, σ).

(** [handleGetResultChunk]. A stored multi-video object has no [base64],
    and reading its [length] throws. *)
Definition storedData (stored : Stored) : outcome string :=
  match stored with
  | StoredJson json => Returned json
  | StoredResult (Single base64 _ _) => Returned base64
  | StoredResult (Multiple _) =>
      Thrown "Cannot read properties of undefined (reading 'length')"
  end.

Definition handleGetResultChunk (resultId : string) (chunkIndex : nat)
    (σ : State) : outcome (string * bool) * State :=
  match resultStorage σ !! resultId with
  | None => (Thrown ("Result not found: " +:+ resultId), σ)
  | Some stored =>
      match storedData stored with
      | Thrown e => (Thrown e, σ)
      | Returned data =>
          let start := chunkIndex * MAX_CHUNK_SIZE in
          let end_ := (start + MAX_CHUNK_SIZE) `min` String.length data in
          let chunk := JS.substring start end_ data in
          let isLast := String.length data <=? end_ in
          (Returned (chunk, isLast),
           if isLast
           then set_resultStorage (delete resultId (resultStorage σ)) σ
           else σ)
      end
  end.

(** The four kinds of job request, each with the handler that dispatches
    it. *)
Inductive Job :=
  | Transcode (videoUrl : string) (tabId : nat)
  | ExtractZip (zipUrl : string) (tabId : nat)
  | ExtractZipData (zipBase64 : string) (tabId : nat)
  | ExtractZipProcess (zipBase64 : string) (tabId : nat).

Definition submit (job : Job) (σ : State) : nat * State :=
  match job with
  | Transcode videoUrl tabId => handleTranscode videoUrl tabId σ
  | ExtractZip zipUrl tabId => handleExtractZip zipUrl tabId σ
  | ExtractZipData zipBase64 tabId => handleExtractZipData zipBase64 tabId σ
  | ExtractZipProcess zipBase64 tabId =>
      handleExtractZipProcess_dispatch zipBase64 tabId σ
  end.

(** What can happen to the dispatcher between two suspension points: a
    handler dispatches a job, the port delivers a message, a timer
    fires. *)
Inductive event :=
  | Submit (job : Job)
  | FromOffscreen (message : WorkerMsg)
  | TimerFires (message : string).

Definition step (σ : State) (e : event) : State :=
  match e with
  | Submit job => snd (submit job σ)
  | FromOffscreen message => onPortMessage message σ
  | TimerFires message => onTimeout message σ
  end.

Definition run (σ : State) (es : list event) : State := foldl step σ es.

End handlers.

End Background.

(** ** The content script (content.js) *)

Module Content.

(** The body of a [Blob]: its bytes and its type. *)
Record Blob := mkBlob {
  bytes : list byte;
  type : string
}.

(** [base64ToBlobUrl]: [atob], then one byte per code unit. The URL names
    the blob it was created from. *)
Definition base64ToBlobUrl (base64 mimeType : string) : outcome Blob :=
  match Base64.atob base64 with
  | None => Thrown "InvalidCharacterError"
  | Some binaryString =>
      Returned (mkBlob (byte_of_ascii <$> JS.chars binaryString) mimeType)
  end.

(** [extractZipVideo]: the fetched bytes as base64, the binary string
    being built 8192 bytes at a time. *)
Definition toBase64 (uint8Array : list byte) : string :=
  let convChunkSize := 8 * 1024 in
  let starts :=
    (fun k => k * convChunkSize)
      <$> seq 0 (JS.ceil_div (length uint8Array) convChunkSize) in
  let binary :=
    foldl (fun binary i =>
             binary +:+
             Offscreen.fromCharCode (JS.subarray i (i + convChunkSize) uint8Array))
          "" starts in
  Base64.btoa binary.

Section upload.

Variable MAX_CHUNK_SIZE : nat.

(** [extractZipVideo]: the requests that carry the archive to the
    background, in the order they are sent. *)
Definition upload (transferId zipBase64 : string) : list Request :=
  if MAX_CHUNK_SIZE <? String.length zipBase64 then
    let totalChunks := JS.ceil_div (String.length zipBase64) MAX_CHUNK_SIZE in
    ((fun i => EXTRACT_ZIP_CHUNK transferId i totalChunks
                 (Chunking.chunkAt MAX_CHUNK_SIZE zipBase64 i))
       <$> seq 0 totalChunks) ++
    [EXTRACT_ZIP_PROCESS transferId]
  else [EXTRACT_ZIP_DATA_WHOLE zipBase64].

(** [extractZipVideo]: the pull loop over a chunked response. Every
    request is answered by [handleGetResultChunk]; an error answer is
    rethrown. *)
Fixpoint pull (resultId : string) (indices : list nat) (σ : Background.State)
  : outcome (list string) * Background.State :=
  match indices with
  | [] => (Returned [], σ)
  | i :: rest =>
      match Background.handleGetResultChunk MAX_CHUNK_SIZE resultId i σ with
      | (Thrown e, σ') => (Thrown e, σ')
      | (Returned (chunk, _), σ') =>
          match pull resultId rest σ' with
          | (Returned chunks, σ'') => (Returned (chunk :: chunks), σ'')
          | (Thrown e, σ'') => (Thrown e, σ'')
          end
      end
  end.

Definition receive (resultId : string) (totalChunks : nat)
    (σ : Background.State) : outcome string * Background.State :=
  match pull resultId (seq 0 totalChunks) σ with
  | (Returned chunks, σ') => (Returned (JS.join chunks), σ')
  | (Thrown e, σ') => (Thrown e, σ')
  end.

End upload.

End Content.

(** The value every call site gives the ceiling. *)
Definition deployed_ceiling : nat := 32 * 1024 * 1024.

(** ** Runs

    Sequences of requests and messages, as the properties below use
    them. *)

Module Run.

(** [a[i] = c] for every [(i, c)] of a sequence, in order. *)
Definition fill {A} (msgs : list (nat * A)) (a : JS.array A) : JS.array A :=
  foldl (fun a m => JS.array_set m.1 m.2 a) a msgs.

(** The chunk requests [(chunkIndex, chunk)] of one transfer, every one
    declaring [totalChunks], handled in the order of the list. *)
Definition upload_chunks (transferId : string) (totalChunks : nat)
    (msgs : list (nat * string)) (σ : Background.State) : Background.State :=
  foldl (fun σ m =>
           snd (Background.handleExtractZipChunk transferId m.1 totalChunks m.2 σ))
        σ msgs.

(** What travels when a result is chunked, and the form its start message
    takes: the base64 text of a single video, the serialized object of a
    multi-video result. *)
Definition payload (JSON_stringify : Result -> string) (result : Result)
  : string :=
  match result with
  | Single base64 _ _ => base64
  | Multiple _ => JSON_stringify result
  end.

Definition shapeOf (result : Result) : Shape :=
  match result with
  | Single _ mimeType _ => SingleShape mimeType
  | Multiple _ => MultiShape
  end.

Definition stored (JSON_stringify : Result -> string) (result : Result)
  : Background.Stored :=
  match result with
  | Single _ _ _ => Background.StoredResult result
  | Multiple _ => Background.StoredJson (JSON_stringify result)
  end.

(** The deadline of a job and the text of its timeout error. *)
Definition minutes (n : N) : N := n * 60 * 1000.

Definition deadline (job : Background.Job) : N :=
  match job with
  | Background.ExtractZipProcess _ _ => minutes 10
  | _ => minutes 5
  end.

Definition timeoutText (job : Background.Job) : string :=
  match job with
  | Background.Transcode _ _ => "Transcoding timed out"
  | _ => "ZIP extraction timed out"
  end.

(** A promise that is pending while its pair is not in the slot. *)
Definition orphaned (p : nat) (σ : Background.State) : Prop :=
  Background.promises σ !! p = Some None /\
  Background.pendingTranscode σ <> Some p.

(** A stand-in for the platform's [toLowerCase] and [localeCompare] on
    ASCII names: letters [A]-[Z] to lower case, and the order of the code
    units. *)
Definition lower_char (c : ascii) : ascii :=
  let n := nat_of_ascii c in
  if (65 <=? n) && (n <=? 90) then ascii_of_nat (n + 32) else c.

Definition lower (s : string) : string :=
  JS.of_chars (lower_char <$> JS.chars s).

Definition code_unit_order (a b : string) : Z :=
  match String.compare a b with
  | Lt => -1
  | Eq => 0
  | Gt => 1
  end%Z.

(** A sample archive: a directory, a hidden copy, a text file and three
    videos, stored out of name order; and an engine that hands back what
    it is given. *)
Definition sample_files : list Offscreen.ZipEntry :=
  [Offscreen.mkEntry "clips/" true (Returned []);
   Offscreen.mkEntry "clips/b.mp4" false (Returned [x00; x01; xff]);
   Offscreen.mkEntry "__MACOSX/._b.mp4" false (Returned [x00]);
   Offscreen.mkEntry "clips/c.webm" false (Returned [x80]);
   Offscreen.mkEntry "clips/notes.txt" false (Returned [x41]);
   Offscreen.mkEntry "clips/a.AVI" false (Returned [x02; x03])].

Definition sample_loader (zipData : list byte)
  : outcome (list Offscreen.ZipEntry) :=
  Returned sample_files.

Definition single_loader (zipData : list byte)
  : outcome (list Offscreen.ZipEntry) :=
  Returned [Offscreen.mkEntry "readme.md" false (Returned [x41]);
            Offscreen.mkEntry "movie.M4V" false (Returned [x00; x01; xff])].

Definition identity_engine (inputName outputName : string)
    (data : list byte) : outcome (list byte) :=
  Returned data.


End Run.

(** * Further code

    The rest of the three scripts, as far as it does not touch the page:
    what several transfers do to the staging map, what reaches a waiting
    caller, the other two jobs of the offscreen document, the link tests
    of the content script, the wait for the port, and whole runs of the
    protocol. *)

(** ** Chunk requests of several transfers *)

Module Requests.

(** An [EXTRACT_ZIP_CHUNK] request. *)
Record ChunkRequest := mkChunkRequest {
  transferId : string;
  chunkIndex : nat;
  totalChunks : nat;
  chunk : string
}.

Definition handle (r : ChunkRequest) (σ : Background.State)
  : Background.State :=
  snd (Background.handleExtractZipChunk (transferId r) (chunkIndex r)
         (totalChunks r) (chunk r) σ).

Definition handle_all (rs : list ChunkRequest) (σ : Background.State)
  : Background.State :=
  foldl (fun σ r => handle r σ) σ rs.

(** The requests of one transfer among those of many. *)
Definition of_transfer (tid : string) (rs : list ChunkRequest)
  : list ChunkRequest :=
  List.filter (fun r => bool_decide (transferId r = tid)) rs.

(** What one request makes of the entry of its transfer. *)
Definition advance (entry : option Background.Transfer) (r : ChunkRequest)
  : Background.Transfer :=
  let storage :=
    match entry with
    | Some storage => storage
    | None =>
        Background.mkTransfer (JS.new_Array (totalChunks r)) (totalChunks r) 0
    end in
  Background.mkTransfer
    (JS.array_set (chunkIndex r) (chunk r) (Background.chunks storage))
    (Background.totalChunks storage) (S (Background.received storage)).

Definition advance_all (entry : option Background.Transfer)
    (rs : list ChunkRequest) : option Background.Transfer :=
  foldl (fun entry r => Some (advance entry r)) entry rs.

End Requests.

(** ** What reaches a waiting caller *)

Module Delivery.

(** The slot never holds the pair of a promise that is already settled. *)
Definition slot_pending (σ : Background.State) : Prop :=
  match Background.pendingTranscode σ with
  | Some p => Background.promises σ !! p = Some None
  | None => True
  end.

(** A result as the dispatcher rebuilds it: sent whole it is itself; sent
    in chunks, a single video comes back as [{ base64, mimeType }]. *)
Definition arrived (MAX : nat) (result : Result) : Result :=
  if Offscreen.totalSize result <=? MAX then result
  else
    match result with
    | Single base64 mimeType _ => Single base64 mimeType None
    | Multiple _ => result
    end.

(** The port messages of a list, delivered in order. *)
Definition deliver (JSON_parse : string -> option Result)
    (σ : Background.State) (ms : list WorkerMsg) : Background.State :=
  foldl (fun σ m => Background.onPortMessage JSON_parse m σ) σ ms.

End Delivery.

(** ** Downloads of the offscreen document (offscreen.js) *)

Module Fetch.

(** A [Response] as the code reads it: [ok], [status], and what the
    reader of its body yields up to [done], unless a read throws. *)
Record Response := mkResponse {
  ok : bool;
  status : nat;
  body : outcome (list (list byte))
}.

(** [u.set(chunk, position)] on a typed array. *)
Definition typed_set (chunk : list byte) (position : nat) (u : list byte)
  : outcome (list byte) :=
  if position + length chunk <=? length u then
    Returned (take position u ++ chunk ++ drop (position + length chunk) u)
  else Thrown "offset is out of bounds".

(** The read loop and the copy loop: [loaded] is summed while the chunks
    are collected, then every chunk is written at the running
    [position] of a zeroed array of [loaded] bytes. *)
Definition assemble (chunks : list (list byte)) : outcome (list byte) :=
  let loaded := foldl (fun loaded value => loaded + length value) 0 chunks in
  let videoData := replicate loaded x00 in
  fst <$>
    foldl (fun acc chunk =>
             '(u, position) ← acc;
             u' ← typed_set chunk position u;
             mret (u', position + length chunk))
          (mret (videoData, 0)) chunks.

(** From the answer of [fetch] to the bytes. *)
Definition download (fetched : outcome Response) : outcome (list byte) :=
  response ← fetched;
  if negb (ok response) then
    Thrown ("Fetch failed: " +:+ pretty (status response))
  else
    chunks ← body response;
    assemble chunks.

End Fetch.

(** ** The other two jobs of the offscreen document (offscreen.js) *)

Module Worker.

(** The alternatives of [/\.(avi|mkv|flv|wmv|mov|mp4|webm)/], and the
    capture of its leftmost match. *)
Definition alternatives : list string :=
  ["avi"; "mkv"; "flv"; "wmv"; "mov"; "mp4"; "webm"].

Fixpoint extension_regexp (s : string) : option string :=
  match s with
  | EmptyString => None
  | String c rest =>
      match (if Ascii.eqb c "."
             then List.find (fun ext => JS.startsWith ext rest) alternatives
             else None) with
      | Some ext => Some ext
      | None => extension_regexp rest
      end
  end.

Section jobs.

Variable toLowerCase : string -> string.

(** [fetch]: the answer to the [n]-th request a job makes for a URL. *)
Variable fetch : nat -> string -> outcome Fetch.Response.

Variable JSZip_loadAsync : list byte -> outcome (list Offscreen.ZipEntry).

(** [loadFFmpeg], and a run of the loaded engine: [writeFile], [exec],
    [readFile] and the two [deleteFile]s. *)
Variable loadFFmpeg : outcome unit.
Variable ffmpeg_run : string -> string -> list byte -> outcome (list byte).

Definition getExtension (url : string) : string :=
  match extension_regexp (toLowerCase url) with
  | Some ext => ext
  | None => "avi"
  end.

(** [transcodeVideo]. The engine is loaded before the download starts. *)
Definition transcodeVideo (videoUrl : string) : outcome Result :=
  _ ← loadFFmpeg;
  let ext := getExtension videoUrl in
  let inputName := "input." +:+ ext in
  let outputName := "output.mp4" in
  videoData ← Fetch.download (fetch 0 videoUrl);
  data ← ffmpeg_run inputName outputName videoData;
  mret (Single (Offscreen.uint8ToBase64 data) "video/mp4" None).

(** [extractZipVideo]: the archive is requested twice, the first answer
    being looked at for its [ok] only; the first entry in key order that
    is a video is the one extracted. *)
Definition extractZipVideo (zipUrl : string) : outcome Result :=
  response ← fetch 0 zipUrl;
  if negb (Fetch.ok response) then
    Thrown ("Fetch failed: " +:+ pretty (Fetch.status response))
  else
    zipData ← Fetch.download (fetch 1 zipUrl);
    files ← JSZip_loadAsync zipData;
    match List.find (Offscreen.isVideoFile toLowerCase) files with
    | None => Thrown "No video file found in ZIP"
    | Some videoFile =>
        let videoFileName := Offscreen.entry_name videoFile in
        videoData ← Offscreen.async_uint8array videoFile;
        let ext := toLowerCase (JS.split_dot_pop videoFileName) in
        if bool_decide (ext ∈ Offscreen.NATIVE_FORMATS) then
          mret (Single (Offscreen.uint8ToBase64 videoData)
                       (Offscreen.mimeTypes ext) (Some false))
        else
          let inputName := "input." +:+ ext in
          let outputName := "output.mp4" in
          _ ← loadFFmpeg;
          data ← ffmpeg_run inputName outputName videoData;
          mret (Single (Offscreen.uint8ToBase64 data) "video/mp4" (Some false))
    end.

(** The engine as [extractZipFromData] uses it. *)
Definition ffmpeg_transcode (inputName outputName : string)
    (videoData : list byte) : outcome (list byte) :=
  _ ← loadFFmpeg;
  ffmpeg_run inputName outputName videoData.

End jobs.

End Worker.

(** ** The link tests of the content script (content.js) *)

Module Links.

Definition NATIVE_FORMATS : list string := [".mp4"; ".webm"; ".ogg"; ".m4v"].
Definition TRANSCODE_FORMATS : list string :=
  [".avi"; ".mkv"; ".flv"; ".wmv"; ".mov"].

(** [s.includes(p)]. *)
Fixpoint includes (p s : string) : bool :=
  JS.startsWith p s ||
  match s with
  | EmptyString => false
  | String _ rest => includes p rest
  end.

Section tests.

Variable toLowerCase : string -> string.

(** An [href] is [None] when the attribute is [null] or [undefined]. *)
Definition isVideoLink (href : option string) : bool :=
  match href with
  | None => false
  | Some href =>
      if negb (JS.truthy href) then false
      else
        let videoExtensions := NATIVE_FORMATS ++ TRANSCODE_FORMATS in
        let lowerHref := toLowerCase href in
        existsb (fun ext => includes ext lowerHref) videoExtensions
  end.

Definition isZippedVideo (href description : option string) : bool :=
  match href with
  | None => false
  | Some href =>
      if negb (JS.truthy href) then false
      else
        let lowerHref := toLowerCase href in
        let lowerDesc := toLowerCase (default "" description) in
        includes ".zip" lowerHref &&
        (includes "movie" lowerHref || includes "video" lowerHref ||
         includes "movie" lowerDesc || includes "video" lowerDesc)
  end.

Definition needsTranscoding (href : option string) : bool :=
  match href with
  | None => false
  | Some href =>
      if negb (JS.truthy href) then false
      else
        let lowerHref := toLowerCase href in
        existsb (fun ext => includes ext lowerHref) TRANSCODE_FORMATS
  end.

End tests.

End Links.

(** ** The wait for the port (background script) *)

Module Port.

(** [ensureOffscreenDocument], from the polling loop to the check after
    it. [connected k] tells whether [offscreenPort] is set once [k]
    sleeps of 100 ms are over; the loop condition and the check after
    the loop run without a suspension between them. *)
Fixpoint poll (connected : nat -> bool) (attempts fuel : nat) : option nat :=
  match fuel with
  | 0 => None
  | S fuel =>
      if negb (connected attempts) && (attempts <? 50)
      then poll connected (S attempts) fuel
      else Some attempts
  end.

Definition awaitPort (connected : nat -> bool) (fuel : nat)
  : option (outcome nat) :=
  attempts ← poll connected 0 fuel;
  if negb (connected attempts)
  then Some (Thrown "Offscreen document did not connect")
  else Some (Returned attempts).

End Port.

(** ** Whole runs of the protocol

    The three scripts put together, for one page and one job at a time,
    on this schedule: the offscreen document is connected and ready, it
    runs a job to its end as soon as the job's messages have arrived,
    and what it posts is delivered before anything else happens. *)

Module Session.

(** What [sendResponse] is called with: a result or a chunked
    descriptor, [undefined], [{ success, received, total }],
    [{ chunk, isLast }], or [{ error }]. *)
Inductive Answer :=
  | Answered (response : Response)
  | AnsweredUndefined
  | Acknowledged (received total : nat)
  | AnsweredChunk (chunk : string) (isLast : bool)
  | AnsweredError (message : string).

(** The background script and the offscreen document. *)
Record World := mkWorld {
  background : Background.State;
  chunkedInput : option Offscreen.ChunkedInput
}.

(** Whatever is in the result store of [σ'] was in that of [σ]. *)
Definition nothing_stored (σ' σ : Background.State) : Prop :=
  forall k v,
    Background.resultStorage σ' !! k = Some v ->
    Background.resultStorage σ !! k = Some v.

(** What the page shows: one blob URL, or [{ name, url }] for each
    video. *)
Inductive Media :=
  | One (url : Content.Blob)
  | Many (videos : list (string * Content.Blob)).

(** The answer of [fetch] as the content script reads it. *)
Record Fetched := mkFetched {
  ok : bool;
  status : nat;
  arrayBuffer : outcome (list byte)
}.

(** [if (response.error) throw new Error(response.error)]; reading
    [error] of [undefined] throws by itself. *)
Definition error_of (response : Answer) : option string :=
  match response with
  | AnsweredError message => if JS.truthy message then Some message else None
  | AnsweredUndefined =>
      Some "Cannot read properties of undefined (reading 'error')"
  | _ => None
  end.

(** [videos.map(v => ({ name: v.name, url: base64ToBlobUrl(v.base64,
    v.mimeType) }))]. *)
Definition toUrls (videos : list Video)
  : outcome (list (string * Content.Blob)) :=
  mapM (fun v =>
          url ← Content.base64ToBlobUrl (base64 v) (mimeType v);
          mret (name v, url))
       videos.

(** What the content script makes of a result that reaches it as it
    is. *)
Definition media (result : Result) : outcome Media :=
  match result with
  | Single base64 mimeType _ => One <$> Content.base64ToBlobUrl base64 mimeType
  | Multiple videos => Many <$> toUrls videos
  end.

Section session.

Variable MAX : nat.
Variable toLowerCase : string -> string.
Variable localeCompare : string -> string -> Z.
Variable JSON_stringify : Result -> string.
Variable JSON_parse : string -> option Result.
Variable JSZip_loadAsync : list byte -> outcome (list Offscreen.ZipEntry).
Variable fetch : nat -> string -> outcome Fetch.Response.
Variable loadFFmpeg : outcome unit.
Variable ffmpeg_run : string -> string -> list byte -> outcome (list byte).

(** The offscreen document: a job and the messages it ends with. *)
Definition outcome_of (job : Offscreen.Job) : outcome Result :=
  match job with
  | Offscreen.transcodeVideo videoUrl _ =>
      Worker.transcodeVideo toLowerCase fetch loadFFmpeg ffmpeg_run videoUrl
  | Offscreen.extractZipVideo zipUrl _ =>
      Worker.extractZipVideo toLowerCase fetch JSZip_loadAsync loadFFmpeg
        ffmpeg_run zipUrl
  | Offscreen.extractZipData zipBase64 _ =>
      Offscreen.extractZipFromData toLowerCase localeCompare JSZip_loadAsync
        (Worker.ffmpeg_transcode loadFFmpeg ffmpeg_run) zipBase64
  end.

Definition runJob (job : Offscreen.Job) : list WorkerMsg :=
  Offscreen.reply MAX JSON_stringify (outcome_of job).

(** What the background has posted since [σ0] goes to the offscreen
    document, and what the jobs started there post comes back. *)
Definition offscreen (σ0 σ : Background.State)
    (chunkedInput : option Offscreen.ChunkedInput) : World :=
  let messages := drop (length (Background.posted σ0)) (Background.posted σ) in
  let '(chunkedInput, jobs) := Offscreen.onMessages messages chunkedInput in
  mkWorld (Delivery.deliver JSON_parse σ (jobs ≫= runJob)) chunkedInput.

(** [await resultPromise]: the value, the rejection, or no resumption
    while the promise is pending. *)
Definition awaited (p : nat) (σ : Background.State)
  : option (outcome (option Result)) :=
  match Background.promises σ !! p with
  | Some (Some (Background.Resolved value)) => Some (Returned value)
  | Some (Some (Background.Rejected message)) => Some (Thrown message)
  | _ => None
  end.

(** The request listener of the background script
    ([chrome.runtime.onMessage]); [now] is [Date.now().toString()] when
    [handleExtractZipData] resumes. No answer is given while the handler
    waits. *)
Definition onMessage (now : string) (tabId : nat) (message : Request)
    (w : World) : option Answer * World :=
  let σ := background w in
  match message with
  | TRANSCODE_VIDEO videoUrl =>
      let '(p, σ1) := Background.handleTranscode videoUrl tabId σ in
      let w := offscreen σ σ1 (chunkedInput w) in
      match awaited p (background w) with
      | Some (Returned (Some result)) => (Some (Answered (Inline result)), w)
      | Some (Returned None) => (Some AnsweredUndefined, w)
      | Some (Thrown message) => (Some (AnsweredError message), w)
      | None => (None, w)
      end
  | EXTRACT_ZIP_URL zipUrl =>
      let '(p, σ1) := Background.handleExtractZip zipUrl tabId σ in
      let w := offscreen σ σ1 (chunkedInput w) in
      match awaited p (background w) with
      | Some (Returned (Some result)) => (Some (Answered (Inline result)), w)
      | Some (Returned None) => (Some AnsweredUndefined, w)
      | Some (Thrown message) => (Some (AnsweredError message), w)
      | None => (None, w)
      end
  | EXTRACT_ZIP_DATA_WHOLE zipBase64 =>
      let '(p, σ1) := Background.handleExtractZipData zipBase64 tabId σ in
      let w := offscreen σ σ1 (chunkedInput w) in
      match awaited p (background w) with
      | Some (Returned (Some result)) =>
          let '(response, σ2) :=
            Background.handleExtractZipData_response MAX now result
              (background w) in
          (Some (Answered response), mkWorld σ2 (chunkedInput w))
      | Some (Returned None) =>
          (Some (AnsweredError
                   "Cannot read properties of undefined (reading 'base64')"),
           w)
      | Some (Thrown message) => (Some (AnsweredError message), w)
      | None => (None, w)
      end
  | EXTRACT_ZIP_CHUNK transferId chunkIndex totalChunks chunk =>
      let '((received, total), σ1) :=
        Background.handleExtractZipChunk transferId chunkIndex totalChunks
          chunk σ in
      (Some (Acknowledged received total), mkWorld σ1 (chunkedInput w))
  | EXTRACT_ZIP_PROCESS transferId =>
      match Background.handleExtractZipProcess_collect transferId σ with
      | (Thrown message, σ1) =>
          (Some (AnsweredError message), mkWorld σ1 (chunkedInput w))
      | (Returned zipBase64, σ1) =>
          let '(p, σ2) :=
            Background.handleExtractZipProcess_dispatch MAX zipBase64 tabId
              σ1 in
          let w := offscreen σ1 σ2 (chunkedInput w) in
          match awaited p (background w) with
          | Some (Returned (Some result)) =>
              let '(response, σ3) :=
                Background.handleExtractZipProcess_response MAX JSON_stringify
                  transferId result (background w) in
              (Some (Answered response), mkWorld σ3 (chunkedInput w))
          | Some (Returned None) =>
              (Some (AnsweredError
                       "Cannot read properties of undefined (reading 'base64')"),
               w)
          | Some (Thrown message) => (Some (AnsweredError message), w)
          | None => (None, w)
          end
      end
  | GET_RESULT_CHUNK resultId chunkIndex =>
      match Background.handleGetResultChunk MAX resultId chunkIndex σ with
      | (Returned (chunk, isLast), σ1) =>
          (Some (AnsweredChunk chunk isLast), mkWorld σ1 (chunkedInput w))
      | (Thrown message, σ1) =>
          (Some (AnsweredError message), mkWorld σ1 (chunkedInput w))
      end
  end.

(** The content script, after the answer to a job request has come:
    the error check, the pull loop over a chunked answer, and the blob
    URLs. An answer with neither [chunked] nor [multiple] nor [base64]
    ends in [atob(undefined)]. *)
Definition decode (response : Answer) (w : World) : outcome Media * World :=
  match error_of response with
  | Some message => (Thrown message, w)
  | None =>
      match response with
      | Answered (Chunked resultId totalChunks _ shape) =>
          match Content.receive MAX resultId totalChunks (background w) with
          | (Thrown message, σ) => (Thrown message, mkWorld σ (chunkedInput w))
          | (Returned combined, σ) =>
              (match shape with
               | MultiShape =>
                   match JSON_parse combined with
                   | None => Thrown "SyntaxError"
                   | Some (Multiple videos) => Many <$> toUrls videos
                   | Some (Single _ _ _) =>
                       Thrown
                         "Cannot read properties of undefined (reading 'map')"
                   end
               | SingleShape mimeType =>
                   One <$> Content.base64ToBlobUrl combined mimeType
               end,
               mkWorld σ (chunkedInput w))
          end
      | Answered (Inline result) => (media result, w)
      | _ => (Thrown "InvalidCharacterError", w)
      end
  end.

(** [extractZipVideo] of the content script: the upload loop. *)
Fixpoint sendChunks (now : string) (tabId : nat)
    (transferId zipBase64 : string) (totalChunks : nat) (indices : list nat)
    (w : World) : option (outcome unit) * World :=
  match indices with
  | [] => (Some (Returned ()), w)
  | i :: rest =>
      let chunk := Chunking.chunkAt MAX zipBase64 i in
      match onMessage now tabId
              (EXTRACT_ZIP_CHUNK transferId i totalChunks chunk) w with
      | (None, w) => (None, w)
      | (Some chunkResponse, w) =>
          match error_of chunkResponse with
          | Some message => (Some (Thrown message), w)
          | None =>
              sendChunks now tabId transferId zipBase64 totalChunks rest w
          end
      end
  end.

(** [extractZipVideo] of the content script. [now] and [random] are the
    two parts of the transfer identifier; [later] is the time the
    background reads. The result is [None] when a request is never
    answered. *)
Definition extractZipVideo (fetchResponse : outcome Fetched)
    (now random later : string) (tabId : nat) (w : World)
  : option (outcome Media) * World :=
  match fetchResponse with
  | Thrown message => (Some (Thrown message), w)
  | Returned fetchResponse =>
      if negb (ok fetchResponse) then
        (Some (Thrown ("Download failed: " +:+ pretty (status fetchResponse))),
         w)
      else
        match arrayBuffer fetchResponse with
        | Thrown message => (Some (Thrown message), w)
        | Returned uint8Array =>
            let zipBase64 := Content.toBase64 uint8Array in
            let transferId := now +:+ random in
            if MAX <? String.length zipBase64 then
              let totalChunks := JS.ceil_div (String.length zipBase64) MAX in
              match sendChunks later tabId transferId zipBase64 totalChunks
                      (seq 0 totalChunks) w with
              | (None, w) => (None, w)
              | (Some (Thrown message), w) => (Some (Thrown message), w)
              | (Some (Returned _), w) =>
                  match onMessage later tabId
                          (EXTRACT_ZIP_PROCESS transferId) w with
                  | (None, w) => (None, w)
                  | (Some response, w) =>
                      let '(result, w) := decode response w in
                      (Some result, w)
                  end
              end
            else
              match onMessage later tabId
                      (EXTRACT_ZIP_DATA_WHOLE zipBase64) w with
              | (None, w) => (None, w)
              | (Some response, w) =>
                  let '(result, w) := decode response w in
                  (Some result, w)
              end
        end
  end.

(** [transcodeVideo] of the content script. An answer without [base64]
    ends in [atob(undefined)]. *)
Definition transcodeVideo (videoUrl : string) (later : string) (tabId : nat)
    (w : World) : option (outcome Content.Blob) * World :=
  match onMessage later tabId (TRANSCODE_VIDEO videoUrl) w with
  | (None, w) => (None, w)
  | (Some response, w) =>
      (Some match error_of response with
            | Some message => Thrown message
            | None =>
                match response with
                | Answered (Inline (Single base64 mimeType _)) =>
                    Content.base64ToBlobUrl base64 mimeType
                | _ => Thrown "InvalidCharacterError"
                end
            end,
       w)
  end.

End session.

End Session.

(** * Properties *)

(** *** Facts about the primitives *)

Section js_facts.

Lemma chars_of_chars l : JS.chars (JS.of_chars l) = l.
Proof. apply list_ascii_of_string_of_list_ascii. Qed.

Lemma of_chars_chars s : JS.of_chars (JS.chars s) = s.
Proof. apply string_of_list_ascii_of_string. Qed.

Lemma chars_inj s t : JS.chars s = JS.chars t -> s = t.
Proof.
  intros H. rewrite <- (of_chars_chars s), <- (of_chars_chars t).
  now rewrite H.
Qed.

Lemma chars_length s : length (JS.chars s) = String.length s.
Proof. induction s; simpl; congruence. Qed.

Lemma chars_append s t : JS.chars (s +:+ t) = JS.chars s ++ JS.chars t.
Proof. induction s; simpl; [reflexivity | now f_equal]. Qed.

Lemma chars_String_substring n m s :
  JS.chars (String.substring n m s) = take m (drop n (JS.chars s)).
Proof.
  revert n m. induction s as [|c s IH]; intros [|n] [|m]; simpl; trivial.
  f_equal. apply (IH 0 m).
Qed.

Lemma chars_substring a b s :
  a <= b ->
  JS.chars (JS.substring a b s) =
    take (b `min` String.length s - a) (drop a (JS.chars s)).
Proof.
  intros Hab. unfold JS.substring. cbv zeta.
  rewrite chars_String_substring.
  destruct (decide (a <= String.length s)) as [Ha|Ha].
  - replace (a `min` String.length s) with a by lia.
    replace (a `min` (b `min` String.length s)) with a by lia.
    replace (a `max` (b `min` String.length s))
      with (b `min` String.length s) by lia.
    reflexivity.
  - rewrite !drop_ge by (rewrite chars_length; lia).
    now rewrite !take_nil.
Qed.

Lemma chars_join l : JS.chars (JS.join l) = concat (JS.chars <$> l).
Proof.
  unfold JS.join. induction l as [|x [|y l] IH].
  - reflexivity.
  - simpl. now rewrite app_nil_r.
  - change (JS.chars (x +:+ ("" +:+ String.concat "" (y :: l))) =
            JS.chars x ++ concat (JS.chars <$> y :: l)).
    rewrite chars_append. f_equal. exact IH.
Qed.

Lemma join_app l k : JS.join (l ++ k) = JS.join l +:+ JS.join k.
Proof.
  apply chars_inj.
  now rewrite chars_append, !chars_join, fmap_app, concat_app.
Qed.

Lemma ceil_div_spec a b :
  1 <= b -> (JS.ceil_div a b - 1) * b < a <= JS.ceil_div a b * b \/
            (a = 0 /\ JS.ceil_div a b = 0).
Proof.
  intros Hb. unfold JS.ceil_div.
  pose proof (Nat.div_mod_eq a b) as E.
  pose proof (Nat.mod_upper_bound a b ltac:(lia)) as U.
  destruct (a mod b =? 0) eqn:Hm.
  - apply Nat.eqb_eq in Hm. rewrite Hm in E.
    destruct (decide (a = 0)) as [->|Ha].
    + right. split; [reflexivity|]. rewrite Nat.Div0.div_0_l. reflexivity.
    + left. assert (1 <= a / b) by (destruct (a / b); lia). nia.
  - apply Nat.eqb_neq in Hm. left. nia.
Qed.


End js_facts.

(** *** Chunking *)

Lemma concat_slices {A} (l : list A) (M k : nat) :
  concat ((fun i => Chunking.slice (i * M) ((i * M + M) `min` length l) l) <$> seq 0 k)
  = take (k * M) l.
Proof.
  induction k as [|k IH]; [reflexivity|].
  rewrite seq_S, fmap_app, concat_app, IH. cbn [fmap list_fmap concat Nat.add].
  rewrite app_nil_r. unfold Chunking.slice.
  destruct (decide (length l <= k * M)) as [Hge|Hlt].
  - rewrite drop_ge, take_nil, app_nil_r by lia.
    rewrite !take_ge by lia. reflexivity.
  - replace ((k * M + M) `min` length l - k * M)
      with (M `min` (length l - k * M)) by lia.
    rewrite <- (length_drop l (k * M)), <- take_take, firstn_all.
    rewrite take_take_drop. f_equal. lia.
Qed.

Lemma chars_chunkAt MAX data i :
  JS.chars (Chunking.chunkAt MAX data i) =
    Chunking.slice (i * MAX) ((i * MAX + MAX) `min` String.length data) (JS.chars data).
Proof.
  unfold Chunking.chunkAt. cbv zeta.
  destruct (decide (i * MAX <= String.length data)) as [Hle|Hgt].
  - rewrite chars_substring by lia. unfold Chunking.slice. f_equal. lia.
  - unfold Chunking.slice. rewrite drop_ge, take_nil by (rewrite chars_length; lia).
    unfold JS.substring. cbv zeta. rewrite chars_String_substring.
    rewrite drop_ge; [apply take_nil | rewrite chars_length; lia].
Qed.

Lemma join_chunks MAX data :
  1 <= MAX ->
  JS.join (Chunking.chunkAt MAX data <$> seq 0 (Chunking.totalChunks MAX data))
  = data.
Proof.
  intros HM. apply chars_inj. rewrite chars_join, <- list_fmap_compose.
  erewrite list_fmap_ext; [|intros ? i _; apply (chars_chunkAt MAX data i)].
  rewrite <- (chars_length data), concat_slices.
  apply take_ge. rewrite chars_length. unfold Chunking.totalChunks.
  destruct (ceil_div_spec (String.length data) MAX HM) as [[_ H]|[-> _]]; lia.
Qed.



Lemma array_set_at_end {A} (a : JS.array A) (v : A) :
  JS.array_set (length a) v a = a ++ [Some v].
Proof.
  unfold JS.array_set. destruct (decide (length a < length a)); [lia|].
  now rewrite Nat.sub_diag.
Qed.

Lemma array_join_filled (l : list string) :
  JS.array_join (Some <$> l) = JS.join l.
Proof.
  unfold JS.array_join. rewrite <- list_fmap_compose.
  f_equal. now apply list_fmap_id.
Qed.

(** Chunk messages that arrive in index order fill the worker's staging
    array from the left. *)
Lemma offscreen_receives_in_order (f : nat -> string) n tot arr r tab :
  Offscreen.onMessages
    (((fun i => EXTRACT_ZIP_DATA_CHUNK i (f i)) <$> seq (length arr) n) ++
     [EXTRACT_ZIP_DATA_END tab])
    (Some (Offscreen.mkInput tot arr r tab))
  = (None,
     [Offscreen.extractZipData
        (JS.array_join (arr ++ (Some <$> (f <$> seq (length arr) n)))) tab]).
Proof.
  revert arr r. induction n as [|n IH]; intros arr r.
  - cbn. now rewrite app_nil_r.
  - cbn [seq fmap list_fmap app Offscreen.onMessages Offscreen.onMessage].
    cbn [Offscreen.totalChunks Offscreen.chunks Offscreen.received
         Offscreen.tabId].
    rewrite array_set_at_end.
    specialize (IH (arr ++ [Some (f (length arr))]) (S r)).
    rewrite length_app, Nat.add_1_r in IH.
    change (list_fmap nat DispatchMsg ?g ?l) with (g <$> l).
    rewrite IH. cbn [app]. now rewrite <- app_assoc.
Qed.

Lemma offscreen_reassembles MAX zipBase64 tab ci :
  1 <= MAX ->
  Offscreen.onMessages (Background.toOffscreen MAX zipBase64 tab) ci
  = (match ci with
     | Some _ => if MAX <? String.length zipBase64 then None else ci
     | None => None
     end,
     [Offscreen.extractZipData zipBase64 tab]).
Proof.
  intros HM. unfold Background.toOffscreen.
  destruct (MAX <? String.length zipBase64) eqn:E.
  - cbn [Offscreen.onMessages Offscreen.onMessage].
    rewrite (offscreen_receives_in_order _ _ _ [] 0 tab).
    cbn [app]. rewrite array_join_filled.
    change (seq (length []) ?n) with (seq 0 n).
    fold (Chunking.totalChunks MAX zipBase64).
    rewrite join_chunks by assumption. now destruct ci.
  - cbn. now destruct ci.
Qed.

(** C2 — Chunking round-trip. For every string and every chunk size of at
    least one, the count [n = ceil(length / max)] is the one with
    [length <= n * max < length + max]. For a string longer than [max],
    what [handleExtractZipProcess] posts is the start message declaring
    [n] and the length, then exactly [n] chunk messages, the [i]-th of
    them carrying the index [i] and the code units from [i * max] up to
    [min ((i + 1) * max, length)], then the end message; a string that is
    not longer is posted whole. In both cases the offscreen document's
    receiver, which joins what arrived in index order, rebuilds the
    string. *)
Theorem chunking_round_trip (max : nat) (data : string) (tabId : nat) :
  1 <= max ->
  let n := JS.ceil_div (String.length data) max in
  let posted := Background.toOffscreen max data tabId in
  (String.length data <= n * max /\ n * max < String.length data + max) /\
  (max < String.length data ->
     length posted = n + 2 /\
     posted !! 0
     = Some (EXTRACT_ZIP_DATA_START n (String.length data) tabId) /\
     (forall i, i < n ->
        exists chunk,
          posted !! S i = Some (EXTRACT_ZIP_DATA_CHUNK i chunk) /\
          JS.chars chunk
          = Chunking.slice (i * max)
              (((i + 1) * max) `min` String.length data) (JS.chars data)) /\
     posted !! S n = Some (EXTRACT_ZIP_DATA_END tabId)) /\
  (String.length data <= max -> posted = [EXTRACT_ZIP_DATA data tabId]) /\
  (forall chunkedInput,
     snd (Offscreen.onMessages posted chunkedInput)
     = [Offscreen.extractZipData data tabId]).
Proof.
  intros HM n posted. split; [|split; [|split]].
  - unfold n.
    destruct (ceil_div_spec (String.length data) max HM) as [H|[H0 Hn]];
      [|rewrite Hn; lia].
    destruct (JS.ceil_div (String.length data) max); [lia|nia].
  - intros Hlen. unfold posted, Background.toOffscreen.
    apply Nat.ltb_lt in Hlen. rewrite Hlen. cbv zeta. fold n.
    split; [|split; [|split]].
    + cbn [length]. rewrite length_app, length_fmap, length_seq. cbn. lia.
    + reflexivity.
    + intros i Hi. exists (Chunking.chunkAt max data i). split.
      * match goal with
        | |- context [(?x :: ?l) !! S ?j] =>
            change ((x :: l) !! S j) with (l !! j)
        end.
        rewrite lookup_app_l by (rewrite length_fmap, length_seq; exact Hi).
        rewrite list_lookup_fmap, lookup_seq_lt by exact Hi. reflexivity.
      * rewrite chars_chunkAt. f_equal. lia.
    + match goal with
      | |- context [(?x :: ?l) !! S ?j] =>
          change ((x :: l) !! S j) with (l !! j)
      end.
      rewrite lookup_app_r by (rewrite length_fmap, length_seq; lia).
      rewrite length_fmap, length_seq, Nat.sub_diag. reflexivity.
  - intros Hlen. unfold posted, Background.toOffscreen.
    apply Nat.ltb_ge in Hlen. now rewrite Hlen.
  - intros chunkedInput. unfold posted.
    now rewrite offscreen_reassembles.
Qed.

Lemma chunking_round_trip_witness :
  (exists chunk,
     Background.toOffscreen 3 "abcdefgh" 7 !! 3
     = Some (EXTRACT_ZIP_DATA_CHUNK 2 chunk) /\
     JS.chars chunk = Chunking.slice 6 8 (JS.chars "abcdefgh")) /\
  length (Background.toOffscreen 3 "abcdefgh" 7) = 3 + 2 /\
  snd (Offscreen.onMessages (Background.toOffscreen 3 "abcdefgh" 7) None)
  = [Offscreen.extractZipData "abcdefgh" 7] /\
  Background.toOffscreen 30 "abcdefgh" 7 = [EXTRACT_ZIP_DATA "abcdefgh" 7] /\
  snd (Offscreen.onMessages (Background.toOffscreen 30 "abcdefgh" 7) None)
  = [Offscreen.extractZipData "abcdefgh" 7].
Proof.
  destruct (chunking_round_trip 3 "abcdefgh" 7 ltac:(lia))
    as (_ & Hchunked & _ & Hjoin).
  destruct (Hchunked ltac:(cbn; lia)) as (Hcount & _ & Hchunk & _).
  destruct (chunking_round_trip 30 "abcdefgh" 7 ltac:(lia))
    as (_ & _ & Hwhole & Hjoin').
  split; [exact (Hchunk 2 ltac:(cbn; lia))|].
  split; [exact Hcount|].
  split; [exact (Hjoin None)|].
  split; [exact (Hwhole ltac:(cbn; lia))|exact (Hjoin' None)].
Defined.

(** *** The base64 codec *)

Lemma list_ind3 {A} (P : list A -> Prop) :
  P [] -> (forall a, P [a]) -> (forall a b, P [a; b]) ->
  (forall a b c l, P l -> P (a :: b :: c :: l)) ->
  forall l, P l.
Proof.
  intros H0 H1 H2 H3.
  assert (forall l, P l /\ (forall a, P (a :: l)) /\ (forall a b, P (a :: b :: l)))
    as H; [|intros l; apply H].
  induction l as [|x l (IH0 & IH1 & IH2)]; repeat split; auto.
Qed.

Lemma enc_table n :
  n < 64 ->
  Base64.dec (Base64.enc n) = Some n /\
  Base64.enc n <> "="%char /\
  Base64.is_whitespace (Base64.enc n) = false.
Proof.
  intros Hn.
  assert (forallb (fun n =>
            bool_decide (Base64.dec (Base64.enc n) = Some n) &&
            negb (Ascii.eqb (Base64.enc n) "=") &&
            negb (Base64.is_whitespace (Base64.enc n))) (seq 0 64) = true)
    as H by (vm_compute; reflexivity).
  rewrite forallb_forall in H. specialize (H n).
  rewrite in_seq in H. specialize (H ltac:(lia)).
  apply andb_prop in H as [H Hw]. apply andb_prop in H as [Hd He].
  apply bool_decide_eq_true in Hd. apply negb_true_iff in He, Hw.
  apply Ascii.eqb_neq in He. auto.
Qed.

Local Ltac divmod := zify; Z.to_euclidean_division_equations; lia.

Lemma sextets_bounded bs :
  Forall (fun b => b < 256) bs -> Forall (fun s => s < 64) (Base64.sextets bs).
Proof.
  induction bs as [| a | a b | a b c l IH] using list_ind3; intros H;
    cbn [Base64.sextets].
  - constructor.
  - apply Forall_cons_1 in H as [Ha _].
    repeat (apply Forall_cons_2; [divmod|]). constructor.
  - apply Forall_cons_1 in H as [Ha H]. apply Forall_cons_1 in H as [Hb _].
    repeat (apply Forall_cons_2; [divmod|]). constructor.
  - apply Forall_cons_1 in H as [Ha H]. apply Forall_cons_1 in H as [Hb H].
    apply Forall_cons_1 in H as [Hc H].
    repeat (apply Forall_cons_2; [divmod|]). now apply IH.
Qed.

Lemma octets_sextets bs :
  Forall (fun b => b < 256) bs -> Base64.octets (Base64.sextets bs) = bs.
Proof.
  induction bs as [| a | a b | a b c l IH] using list_ind3; intros H.
  - reflexivity.
  - apply Forall_cons_1 in H as [Ha _].
    cbn [Base64.sextets Base64.octets]. f_equal. divmod.
  - apply Forall_cons_1 in H as [Ha H]. apply Forall_cons_1 in H as [Hb _].
    cbn [Base64.sextets Base64.octets]. repeat (f_equal; try divmod).
  - apply Forall_cons_1 in H as [Ha H]. apply Forall_cons_1 in H as [Hb H].
    apply Forall_cons_1 in H as [Hc H].
    cbn [Base64.sextets Base64.octets]. rewrite (IH H).
    repeat (f_equal; try divmod).
Qed.

Lemma sextets_length bs :
  (length (Base64.sextets bs) + (3 - length bs mod 3) mod 3) mod 4 = 0 /\
  length (Base64.sextets bs) mod 4 <> 1.
Proof.
  induction bs as [| a | a b | a b c l [IH1 IH2]] using list_ind3;
    [split; [reflexivity|cbn; lia].. |].
  cbn [Base64.sextets length].
  replace (S (S (S (length l)))) with (length l + 1 * 3) by lia.
  rewrite Nat.Div0.mod_add.
  split; [revert IH1 | revert IH2]; generalize (length (Base64.sextets l));
    generalize ((3 - length l mod 3) mod 3); intros; divmod.
Qed.

Lemma chars_btoa binary :
  JS.chars (Base64.btoa binary) =
    (Base64.enc <$> Base64.sextets (nat_of_ascii <$> JS.chars binary)) ++
    Base64.padding (length (JS.chars binary)).
Proof. unfold Base64.btoa. cbv zeta. now rewrite chars_of_chars, length_fmap. Qed.

Lemma code_units_bounded (l : list ascii) :
  Forall (fun b => b < 256) (nat_of_ascii <$> l).
Proof. apply Forall_fmap, Forall_forall. intros c _. apply nat_ascii_bounded. Qed.

Lemma without_last_eq_snoc l :
  Base64.without_last_eq (l ++ ["="%char]) = Some l.
Proof.
  unfold Base64.without_last_eq. rewrite reverse_snoc. cbn.
  now rewrite reverse_involutive.
Qed.

Lemma without_last_eq_enc ss :
  Forall (fun s => s < 64) ss ->
  Base64.without_last_eq (Base64.enc <$> ss) = None.
Proof.
  intros H. unfold Base64.without_last_eq.
  destruct ss as [|s0 ss0] using rev_ind; [reflexivity|].
  rewrite fmap_app, reverse_app. cbn [fmap list_fmap reverse rev_append app].
  apply Forall_app in H as [_ H]. apply Forall_cons_1 in H as [H _].
  destruct (enc_table _ H) as (_ & Hne & _).
  apply Ascii.eqb_neq in Hne. now rewrite Hne.
Qed.

Lemma strip_padding_enc ss k :
  Forall (fun s => s < 64) ss -> k < 3 -> (length ss + k) mod 4 = 0 ->
  Base64.strip_padding ((Base64.enc <$> ss) ++ replicate k "="%char)
  = Base64.enc <$> ss.
Proof.
  intros Hss Hk Hlen. unfold Base64.strip_padding.
  rewrite length_app, length_fmap, length_replicate, Hlen. cbn [Nat.eqb].
  destruct k as [|[|[|k]]]; [| | |lia]; cbn [replicate].
  - now rewrite app_nil_r, without_last_eq_enc.
  - now rewrite without_last_eq_snoc, without_last_eq_enc.
  - change ["="%char; "="%char] with (["="%char] ++ ["="%char]).
    rewrite app_assoc, without_last_eq_snoc, without_last_eq_snoc.
    reflexivity.
Qed.

Lemma filter_all {A} (p : A -> bool) l :
  Forall (fun x => p x = true) l -> List.filter p l = l.
Proof.
  induction 1 as [|x l Hx _ IH]; cbn; [reflexivity|]. now rewrite Hx, IH.
Qed.

(** [atob] undoes [btoa] on every binary string. *)
Lemma atob_btoa binary : Base64.atob (Base64.btoa binary) = Some binary.
Proof.
  unfold Base64.atob. cbv zeta. rewrite chars_btoa.
  set (bs := nat_of_ascii <$> JS.chars binary).
  assert (Forall (fun s => s < 64) (Base64.sextets bs)) as Hss
    by apply sextets_bounded, code_units_bounded.
  destruct (sextets_length bs) as [Hpad Hlen].
  assert (length (JS.chars binary) = length bs) as ->
    by (unfold bs; now rewrite length_fmap).
  rewrite filter_all.
  2:{ apply Forall_app. split.
      - apply Forall_fmap. eapply Forall_impl; [exact Hss|].
        intros s Hs. cbn. destruct (enc_table s Hs) as (_ & _ & ->). reflexivity.
      - unfold Base64.padding. apply Forall_replicate. reflexivity. }
  unfold Base64.padding.
  rewrite strip_padding_enc;
    [|exact Hss|apply Nat.mod_upper_bound; lia|exact Hpad].
  rewrite length_fmap.
  destruct (length (Base64.sextets bs) mod 4 =? 1) eqn:E;
    [apply Nat.eqb_eq in E; contradiction|].
  rewrite mapM_fmap_Forall_Some.
  2:{ eapply Forall_impl; [exact Hss|]. intros s Hs. now apply enc_table. }
  cbn [mbind option_bind]. f_equal.
  rewrite octets_sextets by apply code_units_bounded.
  unfold bs. rewrite <- list_fmap_compose.
  rewrite (list_fmap_ext _ id (JS.chars binary))
    by (intros ? c _; apply ascii_nat_embedding).
  rewrite list_fmap_id. apply of_chars_chars.
Qed.

Lemma foldl_pointwise {A B} (f g : A -> B -> A) (l : list B) (a : A) :
  (forall a x, f a x = g a x) -> foldl f a l = foldl g a l.
Proof.
  intros H. revert a. induction l as [|x l IH]; intros a; cbn; [reflexivity|].
  now rewrite H, IH.
Qed.

Lemma chars_foldl_append {A} (g : A -> string) (l : list A) (a : string) :
  JS.chars (foldl (fun acc x => acc +:+ g x) a l) =
    JS.chars a ++ concat ((fun x => JS.chars (g x)) <$> l).
Proof.
  revert a. induction l as [|x l IH]; intros a; cbn [foldl fmap list_fmap concat].
  - now rewrite app_nil_r.
  - change (list_fmap A (list ascii) ?f ?k) with (f <$> k).
    now rewrite IH, chars_append, app_assoc.
Qed.

Lemma chars_fromCharCode chunk :
  JS.chars (Offscreen.fromCharCode chunk) = ascii_of_byte <$> chunk.
Proof.
  unfold Offscreen.fromCharCode, string_of_list_byte.
  apply list_ascii_of_string_of_list_ascii.
Qed.

(** The binary string that [uint8ToBase64] builds piecewise holds the bytes
    of its argument, in order. *)
Lemma binary_string_of_pieces (chunkSize : nat) (data : list byte) :
  1 <= chunkSize ->
  foldl (fun base64 i =>
           base64 +:+
           Offscreen.fromCharCode
             (JS.subarray i ((i + chunkSize) `min` length data) data))
        "" ((fun k => k * chunkSize) <$>
              seq 0 (JS.ceil_div (length data) chunkSize))
  = string_of_list_byte data.
Proof.
  intros Hc. apply chars_inj.
  rewrite chars_foldl_append, <- list_fmap_compose. cbn [JS.chars app].
  change (list_ascii_of_string (string_of_list_byte data))
    with (JS.chars (Offscreen.fromCharCode data)).
  rewrite chars_fromCharCode.
  set (L := ascii_of_byte <$> data).
  rewrite (list_fmap_ext _
             (fun k => Chunking.slice (k * chunkSize)
                         ((k * chunkSize + chunkSize) `min` length L) L)
             (seq 0 (JS.ceil_div (length data) chunkSize))).
  2:{ intros ? k _. cbn [compose]. rewrite chars_fromCharCode.
      unfold JS.subarray, Chunking.slice, L.
      rewrite fmap_take, fmap_drop, length_fmap. f_equal. lia. }
  rewrite concat_slices. apply take_ge. unfold L. rewrite length_fmap.
  destruct (ceil_div_spec (length data) chunkSize Hc) as [[_ H]|[-> _]]; lia.
Qed.

(** C7 — Binary-to-text encoding round-trip. Whatever the bytes, zero bytes
    and bytes of 0x80 and above included, decoding on the client what
    [uint8ToBase64] produced gives the same bytes back; no chunking is
    involved. *)
Theorem base64_round_trip (data : list byte) (mimeType : string) :
  Base64.atob (Offscreen.uint8ToBase64 data) = Some (string_of_list_byte data) /\
  Content.base64ToBlobUrl (Offscreen.uint8ToBase64 data) mimeType
  = Returned (Content.mkBlob data mimeType).
Proof.
  assert (Offscreen.uint8ToBase64 data
          = Base64.btoa (string_of_list_byte data)) as E.
  { unfold Offscreen.uint8ToBase64. cbv zeta.
    rewrite binary_string_of_pieces by lia. reflexivity. }
  unfold Content.base64ToBlobUrl. rewrite E, atob_btoa. split; [reflexivity|].
  do 2 f_equal.
  change (JS.chars (string_of_list_byte data))
    with (JS.chars (Offscreen.fromCharCode data)).
  rewrite chars_fromCharCode, <- list_fmap_compose.
  rewrite (list_fmap_ext _ id data) by (intros ? b _; apply byte_of_ascii_of_byte).
  apply list_fmap_id.
Qed.

(** The upload direction: what the content script encodes, the offscreen
    document decodes to the fetched bytes. *)
Lemma upload_encoding_round_trip (data : list byte) :
  Base64.atob (Content.toBase64 data) = Some (string_of_list_byte data) /\
  byte_of_ascii <$> JS.chars (string_of_list_byte data) = data.
Proof.
  split.
  - assert (Content.toBase64 data = Base64.btoa (string_of_list_byte data))
      as ->; [|apply atob_btoa].
    unfold Content.toBase64. cbv zeta.
    rewrite <- (binary_string_of_pieces (8 * 1024) data) by lia.
    f_equal. apply foldl_pointwise. intros binary i. do 2 f_equal.
    unfold JS.subarray. f_equal. lia.
  - change (JS.chars (string_of_list_byte data))
      with (JS.chars (Offscreen.fromCharCode data)).
    rewrite chars_fromCharCode, <- list_fmap_compose.
    rewrite (list_fmap_ext _ id data)
      by (intros ? b _; apply byte_of_ascii_of_byte).
    apply list_fmap_id.
Qed.

Example base64_round_trip_binary :
  Content.base64ToBlobUrl (Offscreen.uint8ToBase64 [x00; x7f; x80; xff; x00])
    "video/mp4"
  = Returned (Content.mkBlob [x00; x7f; x80; xff; x00] "video/mp4").
Proof. vm_compute. reflexivity. Qed.

(** *** The completeness gate *)

Lemma array_set_in_range {A} (a : JS.array A) i c :
  i < length a -> JS.array_set i c a = <[i := Some c]> a.
Proof.
  intros Hi. unfold JS.array_set.
  destruct (decide (i < length a)); [reflexivity|lia].
Qed.

Lemma Forall_lt_insert {A} (msgs : list (nat * A)) (a : JS.array A) i x :
  Forall (fun m => m.1 < length a) msgs ->
  Forall (fun m => m.1 < length (<[i := x]> a)) msgs.
Proof.
  intros H. eapply Forall_impl; [exact H|].
  intros m Hm. rewrite length_insert. exact Hm.
Qed.

Lemma fill_length {A} (msgs : list (nat * A)) (a : JS.array A) :
  Forall (fun m => m.1 < length a) msgs ->
  length (Run.fill msgs a) = length a.
Proof.
  revert a. induction msgs as [|[i c] msgs IH]; intros a H; [reflexivity|].
  apply Forall_cons_1 in H as [Hi H]. cbn in Hi.
  change (Run.fill ((i, c) :: msgs) a) with (Run.fill msgs (JS.array_set i c a)).
  rewrite array_set_in_range by exact Hi.
  rewrite IH by now apply Forall_lt_insert.
  apply length_insert.
Qed.

Lemma fill_lookup_other {A} (msgs : list (nat * A)) (a : JS.array A) j :
  Forall (fun m => m.1 < length a) msgs ->
  j ∉ msgs.*1 ->
  Run.fill msgs a !! j = a !! j.
Proof.
  revert a. induction msgs as [|[i c] msgs IH]; intros a H Hj; [reflexivity|].
  apply Forall_cons_1 in H as [Hi H]. cbn in Hi.
  rewrite fmap_cons in Hj. apply not_elem_of_cons in Hj as [Hij Hj]. cbn in Hij.
  change (Run.fill ((i, c) :: msgs) a) with (Run.fill msgs (JS.array_set i c a)).
  rewrite array_set_in_range by exact Hi.
  rewrite IH by (try apply Forall_lt_insert; assumption).
  apply list_lookup_insert_ne. congruence.
Qed.

Lemma fill_lookup {A} (msgs : list (nat * A)) (a : JS.array A) j c :
  Forall (fun m => m.1 < length a) msgs ->
  NoDup msgs.*1 ->
  (j, c) ∈ msgs ->
  Run.fill msgs a !! j = Some (Some c).
Proof.
  revert a. induction msgs as [|[i c0] msgs IH]; intros a H Hnd Hin.
  - now apply elem_of_nil in Hin.
  - apply Forall_cons_1 in H as [Hi H]. cbn in Hi.
    rewrite fmap_cons in Hnd. apply NoDup_cons in Hnd as [Hfresh Hnd].
    cbn in Hfresh.
    change (Run.fill ((i, c0) :: msgs) a)
      with (Run.fill msgs (JS.array_set i c0 a)).
    rewrite array_set_in_range by exact Hi.
    assert (Forall (fun m => m.1 < length (<[i := Some c0]> a)) msgs) as H'
      by now apply Forall_lt_insert.
    apply elem_of_cons in Hin as [Heq|Hin].
    + injection Heq as -> ->.
      rewrite fill_lookup_other by assumption.
      now apply list_lookup_insert_eq.
    + now apply IH.
Qed.

(** Whatever the order of arrival, once every index has its chunk the
    staging array holds the chunks in index order. *)
Lemma fill_complete {A} (msgs : list (nat * A)) (chunks : list A) :
  msgs ≡ₚ zip (seq 0 (length chunks)) chunks ->
  Run.fill msgs (JS.new_Array (length chunks)) = Some <$> chunks.
Proof.
  intros Hp.
  assert (msgs.*1 ≡ₚ seq 0 (length chunks)) as Hidx.
  { rewrite Hp, fst_zip; [reflexivity | now rewrite length_seq]. }
  assert (Forall (fun m => m.1 < length (JS.new_Array (A:=A) (length chunks))) msgs)
    as Hlt.
  { unfold JS.new_Array. rewrite length_replicate. apply Forall_forall.
    intros [i c] Hin. cbn.
    assert (i ∈ msgs.*1) as Hi
      by (apply list_elem_of_fmap; now exists (i, c)).
    rewrite Hidx in Hi. apply elem_of_seq in Hi. lia. }
  assert (NoDup msgs.*1) as Hnd by (rewrite Hidx; apply NoDup_seq).
  apply list_eq. intros j. rewrite list_lookup_fmap.
  destruct (chunks !! j) as [c|] eqn:Hj; cbn.
  - apply fill_lookup; [assumption..|].
    rewrite Hp. apply list_elem_of_lookup. exists j.
    apply lookup_zip_with_Some. exists j, c. split; [reflexivity|]. split; [|exact Hj].
    apply lookup_seq. split; [reflexivity|]. now apply lookup_lt_Some in Hj.
  - apply lookup_ge_None. rewrite fill_length by assumption.
    unfold JS.new_Array. rewrite length_replicate. now apply lookup_ge_None.
Qed.

Lemma state_eta σ :
  Background.set_chunkStorage (Background.chunkStorage σ) σ = σ.
Proof. now destruct σ. Qed.

Lemma upload_chunks_existing tid total msgs σ st :
  Background.chunkStorage σ !! tid = Some st ->
  Run.upload_chunks tid total msgs σ =
    Background.set_chunkStorage
      (<[tid := Background.mkTransfer
                  (Run.fill msgs (Background.chunks st))
                  (Background.totalChunks st)
                  (Background.received st + length msgs)]>
         (Background.chunkStorage σ)) σ.
Proof.
  revert σ st. induction msgs as [|[i c] msgs IH]; intros σ st Hst.
  - cbn [Run.upload_chunks Run.fill foldl length]. rewrite Nat.add_0_r.
    destruct st. cbn. rewrite insert_id by exact Hst. now rewrite state_eta.
  - change (Run.upload_chunks tid total ((i, c) :: msgs) σ)
      with (Run.upload_chunks tid total msgs
              (snd (Background.handleExtractZipChunk tid i total c σ))).
    unfold Background.handleExtractZipChunk. rewrite Hst. cbn [snd fst].
    erewrite IH; [|cbn; apply lookup_insert_eq].
    change (Background.set_chunkStorage ?m (Background.set_chunkStorage ?m' σ))
      with (Background.set_chunkStorage m σ).
    cbn [Background.chunkStorage Background.set_chunkStorage
         Background.chunks Background.totalChunks Background.received length].
    rewrite insert_insert_eq.
    replace (S (Background.received st) + length msgs)
      with (Background.received st + S (length msgs)) by lia.
    reflexivity.
Qed.

Lemma upload_chunks_fresh tid total msgs σ :
  Background.chunkStorage σ !! tid = None ->
  msgs <> [] ->
  Run.upload_chunks tid total msgs σ =
    Background.set_chunkStorage
      (<[tid := Background.mkTransfer
                  (Run.fill msgs (JS.new_Array total)) total (length msgs)]>
         (Background.chunkStorage σ)) σ.
Proof.
  intros Hnone Hne. destruct msgs as [|[i c] msgs]; [contradiction|].
  change (Run.upload_chunks tid total ((i, c) :: msgs) σ)
    with (Run.upload_chunks tid total msgs
            (snd (Background.handleExtractZipChunk tid i total c σ))).
  unfold Background.handleExtractZipChunk. rewrite Hnone. cbn [snd fst].
  erewrite upload_chunks_existing; [|cbn; apply lookup_insert_eq].
  change (Background.set_chunkStorage ?m (Background.set_chunkStorage ?m' σ))
    with (Background.set_chunkStorage m σ).
  cbn [Background.chunkStorage Background.set_chunkStorage
       Background.chunks Background.totalChunks Background.received length].
  now rewrite insert_insert_eq.
Qed.

(** C3 — Completeness gate. A process request for a transfer that has
    received fewer chunks than it declared throws the incomplete-transfer
    error and changes nothing. After one chunk request for each index
    below the declared count, in any order of arrival, the process request
    passes the gate with the chunks joined in index order, and the
    transfer is gone from the staging map. *)
Theorem completeness_gate (σ : Background.State) (transferId : string) :
  (forall storage,
     Background.chunkStorage σ !! transferId = Some storage ->
     Background.received storage < Background.totalChunks storage ->
     Background.handleExtractZipProcess_collect transferId σ
     = (Thrown ("Incomplete transfer: received "
                +:+ pretty (Background.received storage) +:+ "/"
                +:+ pretty (Background.totalChunks storage) +:+ " chunks"),
        σ)) /\
  (forall (chunks : list string) (msgs : list (nat * string)),
     Background.chunkStorage σ !! transferId = None ->
     chunks <> [] ->
     msgs ≡ₚ zip (seq 0 (length chunks)) chunks ->
     Background.handleExtractZipProcess_collect transferId
       (Run.upload_chunks transferId (length chunks) msgs σ)
     = (Returned (JS.join chunks), σ)).
Proof.
  split.
  - intros storage Hst Hlt. unfold Background.handleExtractZipProcess_collect.
    rewrite Hst.
    destruct (Background.received storage =? Background.totalChunks storage)
      eqn:E; [apply Nat.eqb_eq in E; lia|reflexivity].
  - intros chunks msgs Hnone Hne Hp.
    assert (length msgs = length chunks) as Hlen.
    { rewrite Hp, length_zip_with, length_seq. lia. }
    rewrite upload_chunks_fresh;
      [|exact Hnone|intros ->; destruct chunks; [contradiction|discriminate]].
    unfold Background.handleExtractZipProcess_collect.
    cbn [Background.chunkStorage Background.set_chunkStorage].
    rewrite lookup_insert_eq.
    cbn [Background.received Background.totalChunks Background.chunks].
    rewrite Hlen, Nat.eqb_refl. cbn [negb].
    rewrite fill_complete by exact Hp. rewrite array_join_filled.
    f_equal. rewrite delete_insert_id by exact Hnone.
    now destruct σ.
Qed.

Lemma completeness_gate_witness :
  Background.handleExtractZipProcess_collect "t1"
    (Run.upload_chunks "t1" 3 [(0, "ab")] Background.initial)
  = (Thrown "Incomplete transfer: received 1/3 chunks",
     Run.upload_chunks "t1" 3 [(0, "ab")] Background.initial) /\
  Background.handleExtractZipProcess_collect "t1"
    (Run.upload_chunks "t1" 3 [(2, "e"); (0, "ab"); (1, "cd")]
       Background.initial)
  = (Returned "abcde", Background.initial).
Proof.
  split.
  - apply (proj1 (completeness_gate
                    (Run.upload_chunks "t1" 3 [(0, "ab")] Background.initial)
                    "t1")
             (Background.mkTransfer [Some "ab"; None; None] 3 1)).
    + vm_compute. reflexivity.
    + cbn. lia.
  - apply (proj2 (completeness_gate Background.initial "t1")
             ["ab"; "cd"; "e"] [(2, "e"); (0, "ab"); (1, "cd")]).
    + reflexivity.
    + discriminate.
    + apply (Permutation_cons_append [(0, "ab"); (1, "cd")] (2, "e")).
Defined.

(** *** Stored results *)

Section stored_results.

Variable MAX : nat.

Local Abbreviation deleted rid σ :=
  (Background.set_resultStorage (delete rid (Background.resultStorage σ)) σ).

Lemma get_chunk_inner σ rid stored data i :
  Background.resultStorage σ !! rid = Some stored ->
  Background.storedData stored = Returned data ->
  (i + 1) * MAX < String.length data ->
  Background.handleGetResultChunk MAX rid i σ
  = (Returned (Chunking.chunkAt MAX data i, false), σ).
Proof.
  intros Hs Hd Hlt. unfold Background.handleGetResultChunk.
  rewrite Hs, Hd. cbv zeta.
  destruct (String.length data <=? (i * MAX + MAX) `min` String.length data)
    eqn:E; [apply Nat.leb_le in E; lia|reflexivity].
Qed.

Lemma get_chunk_last σ rid stored data i :
  Background.resultStorage σ !! rid = Some stored ->
  Background.storedData stored = Returned data ->
  String.length data <= (i + 1) * MAX ->
  Background.handleGetResultChunk MAX rid i σ
  = (Returned (Chunking.chunkAt MAX data i, true), deleted rid σ).
Proof.
  intros Hs Hd Hge. unfold Background.handleGetResultChunk.
  rewrite Hs, Hd. cbv zeta.
  destruct (String.length data <=? (i * MAX + MAX) `min` String.length data)
    eqn:E; [reflexivity|apply Nat.leb_gt in E; lia].
Qed.

Lemma get_chunk_gone σ rid i :
  Background.resultStorage σ !! rid = None ->
  Background.handleGetResultChunk MAX rid i σ
  = (Thrown ("Result not found: " +:+ rid), σ).
Proof.
  intros Hs. unfold Background.handleGetResultChunk. now rewrite Hs.
Qed.

Lemma deleted_lookup σ rid :
  Background.resultStorage (deleted rid σ) !! rid = None.
Proof. cbn. apply lookup_delete_eq. Qed.

Lemma chunkAt_past_end data i :
  String.length data <= i * MAX -> Chunking.chunkAt MAX data i = "".
Proof.
  intros H. apply chars_inj. rewrite chars_chunkAt. unfold Chunking.slice.
  rewrite drop_ge by (rewrite chars_length; lia). apply take_nil.
Qed.

(** Pulling the indices [a, a + 1, ...] that stop before the last chunk
    leaves the entry in place. *)
Lemma pull_inner σ rid stored data a k :
  Background.resultStorage σ !! rid = Some stored ->
  Background.storedData stored = Returned data ->
  (a + k) * MAX < String.length data ->
  Content.pull MAX rid (seq a k) σ
  = (Returned (Chunking.chunkAt MAX data <$> seq a k), σ).
Proof.
  intros Hs Hd. revert a. induction k as [|k IH]; intros a Hlt; [reflexivity|].
  cbn [seq Content.pull].
  erewrite get_chunk_inner by (eassumption || nia).
  rewrite IH by nia. reflexivity.
Qed.

(** Pulling up to and including the last chunk removes it. *)
Lemma pull_through σ rid stored data a k :
  Background.resultStorage σ !! rid = Some stored ->
  Background.storedData stored = Returned data ->
  (a + k) * MAX < String.length data ->
  String.length data <= (a + k + 1) * MAX ->
  Content.pull MAX rid (seq a (S k)) σ
  = (Returned (Chunking.chunkAt MAX data <$> seq a (S k)), deleted rid σ).
Proof.
  intros Hs Hd. revert a. induction k as [|k IH]; intros a Hlt Hge.
  - cbn [seq Content.pull].
    erewrite get_chunk_last by (eassumption || (rewrite Nat.add_0_r in Hge; lia)).
    reflexivity.
  - change (seq a (S (S k))) with (a :: seq (S a) (S k)).
    cbn [Content.pull].
    erewrite get_chunk_inner by (eassumption || nia).
    rewrite IH by (replace (S a + k) with (a + S k) by lia; assumption).
    reflexivity.
Qed.

End stored_results.

(** C6 — Stored-result single drain. A stored result whose data is not
    empty is drained by pulling the indices below [ceil(length / ceiling)]
    once each, in order: the chunks joined are the data, the entry stays
    while only earlier chunks have been pulled and is deleted by the pull
    of the final chunk, and every later pull under that identifier throws
    the not-found error. *)
Theorem stored_result_single_drain (MAX : nat) (σ : Background.State)
    (resultId : string) (stored : Background.Stored) (data : string) :
  1 <= MAX ->
  Background.resultStorage σ !! resultId = Some stored ->
  Background.storedData stored = Returned data ->
  0 < String.length data ->
  let totalChunks := JS.ceil_div (String.length data) MAX in
  let drained :=
    Background.set_resultStorage
      (delete resultId (Background.resultStorage σ)) σ in
  Content.receive MAX resultId totalChunks σ = (Returned data, drained) /\
  (forall k, k < totalChunks ->
     Content.pull MAX resultId (seq 0 k) σ
     = (Returned (take k (Chunking.chunksOf MAX data)), σ)) /\
  (forall i,
     Background.handleGetResultChunk MAX resultId i drained
     = (Thrown ("Result not found: " +:+ resultId), drained)).
Proof.
  intros HM Hs Hd Hpos totalChunks drained.
  destruct (ceil_div_spec (String.length data) MAX HM) as [[Hlo Hhi]|[E _]];
    [|lia].
  fold totalChunks in Hlo, Hhi.
  assert (JS.join (Chunking.chunkAt MAX data <$> seq 0 totalChunks) = data)
    as Hjoin by now apply join_chunks.
  assert (Chunking.chunksOf MAX data
          = Chunking.chunkAt MAX data <$> seq 0 totalChunks) as Hchunks
    by reflexivity.
  clearbody totalChunks.
  assert (1 <= totalChunks) as Hn by (destruct totalChunks; [lia|lia]).
  repeat split.
  - unfold Content.receive.
    replace totalChunks with (S (totalChunks - 1)) at 1 by lia.
    erewrite pull_through; try eassumption.
    + replace (S (totalChunks - 1)) with totalChunks by lia.
      now rewrite Hjoin.
    + replace (0 + (totalChunks - 1) + 1) with totalChunks by lia. exact Hhi.
  - intros k Hk. erewrite pull_inner; try eassumption.
    + rewrite Hchunks, <- fmap_take, take_seq.
      now replace (k `min` totalChunks) with k by lia.
    + rewrite Nat.add_0_l. nia.
  - intros i. apply get_chunk_gone. apply lookup_delete_eq.
Qed.

Lemma stored_result_single_drain_witness :
  let σ :=
    Background.set_resultStorage
      {["t1_result" := Background.StoredResult (Single "QUJDREVGRw==" "video/mp4" None)]}
      Background.initial in
  Content.receive 5 "t1_result" 3 σ = (Returned "QUJDREVGRw==", Background.initial) /\
  Background.handleGetResultChunk 5 "t1_result" 0 Background.initial
  = (Thrown "Result not found: t1_result", Background.initial).
Proof.
  intros σ.
  pose proof (stored_result_single_drain 5 σ "t1_result"
                (Background.StoredResult (Single "QUJDREVGRw==" "video/mp4" None))
                "QUJDREVGRw==" ltac:(lia) eq_refl eq_refl ltac:(cbn; lia))
    as (H1 & _ & H3).
  split; [exact H1 | exact (H3 0)].
Defined.

(** C9 — An out-of-range pull is destructive. A pull whose index starts at
    or past the end of the stored data does not throw: it returns the
    empty chunk with [isLast = true] and deletes the entry; more
    generally every pull whose chunk reaches the end of the data deletes
    the entry, and every later pull throws the not-found error. *)
Theorem out_of_range_pull_is_destructive (MAX : nat) (σ : Background.State)
    (resultId : string) (stored : Background.Stored) (data : string)
    (chunkIndex : nat) :
  Background.resultStorage σ !! resultId = Some stored ->
  Background.storedData stored = Returned data ->
  let destroyed :=
    Background.set_resultStorage
      (delete resultId (Background.resultStorage σ)) σ in
  (String.length data <= chunkIndex * MAX ->
   Background.handleGetResultChunk MAX resultId chunkIndex σ
   = (Returned ("", true), destroyed)) /\
  (String.length data <= (chunkIndex + 1) * MAX ->
   exists chunk,
     Background.handleGetResultChunk MAX resultId chunkIndex σ
     = (Returned (chunk, true), destroyed)) /\
  (forall i,
     Background.handleGetResultChunk MAX resultId i destroyed
     = (Thrown ("Result not found: " +:+ resultId), destroyed)).
Proof.
  intros Hs Hd destroyed. repeat split.
  - intros Hge. erewrite get_chunk_last by (eassumption || lia).
    now rewrite chunkAt_past_end.
  - intros Hge. eexists. now erewrite get_chunk_last by eassumption.
  - intros i. apply get_chunk_gone. apply lookup_delete_eq.
Qed.

Lemma out_of_range_pull_is_destructive_witness :
  let σ :=
    Background.set_resultStorage
      {["t1_result" := Background.StoredJson "0123456789ab"]}
      Background.initial in
  Background.handleGetResultChunk 5 "t1_result" 7 σ
  = (Returned ("", true), Background.initial) /\
  Background.handleGetResultChunk 5 "t1_result" 0 Background.initial
  = (Thrown "Result not found: t1_result", Background.initial).
Proof.
  intros σ.
  pose proof (out_of_range_pull_is_destructive 5 σ "t1_result"
                (Background.StoredJson "0123456789ab") "0123456789ab" 7
                eq_refl eq_refl) as (H1 & _ & H3).
  split; [exact (H1 ltac:(cbn; lia)) | exact (H3 0)].
Defined.

(** *** The threshold *)

Lemma truthy_length s : (if JS.truthy s then String.length s else 0) = String.length s.
Proof. now destruct s. Qed.


(** The other answer of the dispatcher that can be chunked,
    [handleExtractZipData]'s, applies the rule to single-video results
    only: a multi-video result is answered whole whatever its size. *)
Lemma extractZipData_response_rule MAX now result σ :
  Background.handleExtractZipData_response MAX now result σ
  = match result with
    | Single base64 mimeType _ =>
        if MAX <? String.length base64 then
          (Chunked (now +:+ "_result")
                   (JS.ceil_div (String.length base64) MAX)
                   (String.length base64) (SingleShape mimeType),
           Background.set_resultStorage
             (<[now +:+ "_result" := Background.StoredResult result]>
                (Background.resultStorage σ)) σ)
        else (Inline result, σ)
    | Multiple _ => (Inline result, σ)
    end.
Proof.
  destruct result as [base64 mimeType nt|videos]; [|reflexivity].
  unfold Background.handleExtractZipData_response.
  destruct base64 as [|c base64]; [|reflexivity].
  cbn [JS.truthy andb String.length].
  destruct (MAX <? 0) eqn:E; [apply Nat.ltb_lt in E; lia|reflexivity].
Qed.

(** What [handleExtractZipProcess] stores for a chunked answer is the text
    its answer declares, ready to be pulled. *)
Lemma response_stores_payload MAX JSON_stringify transferId result σ :
  MAX < Background.totalSize result ->
  let σ' :=
    snd (Background.handleExtractZipProcess_response MAX JSON_stringify
           transferId result σ) in
  exists stored,
    Background.resultStorage σ' !! (transferId +:+ "_result") = Some stored /\
    Background.storedData stored
    = Returned (Run.payload JSON_stringify result).
Proof.
  intros H σ'. unfold σ', Background.handleExtractZipProcess_response.
  apply Nat.ltb_lt in H. rewrite H.
  destruct result; cbn [snd Background.resultStorage Background.set_resultStorage];
    eexists; (split; [apply lookup_insert_eq|reflexivity]).
Qed.

Lemma deployed_ceiling_positive : 1 <= deployed_ceiling.
Proof. unfold deployed_ceiling. lia. Qed.




(** *** The pending-job slot *)

Section dispatcher.

Variable MAX : nat.
Variable JSON_parse : string -> option Result.

Local Abbreviation onPortMessage := (Background.onPortMessage JSON_parse).
Local Abbreviation submit := (Background.submit MAX).
Local Abbreviation step := (Background.step MAX JSON_parse).
Local Abbreviation run := (Background.run MAX JSON_parse).

Lemma settle_promises_other p q s σ :
  p <> q ->
  Background.promises (Background.settle p s σ) !! q
  = Background.promises σ !! q.
Proof.
  intros Hpq. unfold Background.settle.
  destruct (Background.promises σ !! p) as [[?|]|]; try reflexivity.
  cbn. now apply list_lookup_insert_ne.
Qed.

Lemma settle_promises_pending p s σ :
  Background.promises σ !! p = Some None ->
  Background.promises (Background.settle p s σ) !! p = Some (Some s).
Proof.
  intros Hp. unfold Background.settle. rewrite Hp. cbn.
  apply list_lookup_insert_eq. now apply lookup_lt_Some in Hp.
Qed.

Lemma settle_pendingTranscode p s σ :
  Background.pendingTranscode (Background.settle p s σ)
  = Background.pendingTranscode σ.
Proof.
  unfold Background.settle.
  now destruct (Background.promises σ !! p) as [[?|]|].
Qed.

Lemma settle_chunkedResult p s σ :
  Background.chunkedResult (Background.settle p s σ)
  = Background.chunkedResult σ.
Proof.
  unfold Background.settle.
  now destruct (Background.promises σ !! p) as [[?|]|].
Qed.

Lemma submit_spec job σ :
  fst (submit job σ) = length (Background.promises σ) /\
  Background.promises (snd (submit job σ)) = Background.promises σ ++ [None] /\
  Background.pendingTranscode (snd (submit job σ))
  = Some (length (Background.promises σ)) /\
  Background.timers (snd (submit job σ))
  = Background.timers σ ++
    [Background.mkTimer (Run.deadline job) (Run.timeoutText job)].
Proof. destruct job; repeat split. Qed.

Local Ltac project :=
  cbn [Background.promises Background.pendingTranscode
       Background.set_pendingTranscode Background.set_chunkedResult
       Background.set_offscreenReady Background.tabs_sendMessage].

Lemma orphaned_step p σ e : Run.orphaned p σ -> Run.orphaned p (step σ e).
Proof.
  unfold Run.orphaned. intros [Hp Hslot].
  destruct e as [job|message|message]; cbn [Background.step].
  - destruct (submit_spec job σ) as (_ & -> & -> & _).
    apply lookup_lt_Some in Hp as Hlt. split.
    + rewrite lookup_app_l by exact Hlt. exact Hp.
    + intros [= E]. lia.
  - destruct message; cbn [Background.onPortMessage];
      repeat match goal with
        | |- context [match ?x with _ => _ end] => destruct x eqn:?
        end;
      (split; project;
       [rewrite ?settle_promises_other by congruence; project; exact Hp
       |congruence]).
  - unfold Background.onTimeout.
    destruct (Background.pendingTranscode σ) as [q|] eqn:Eq;
      (split; project;
       [rewrite ?settle_promises_other by congruence; exact Hp|congruence]).
Qed.




Lemma orphaned_run p σ es : Run.orphaned p σ -> Run.orphaned p (run σ es).
Proof.
  revert σ. induction es as [|e es IH]; intros σ H; [exact H|].
  apply IH, orphaned_step, H.
Qed.

End dispatcher.

Section slot_properties.

Variable MAX : nat.
Variable JSON_parse : string -> option Result.

Local Abbreviation onPortMessage := (Background.onPortMessage JSON_parse).
Local Abbreviation submit := (Background.submit MAX).
Local Abbreviation run := (Background.run MAX JSON_parse).





(** C1, as the code has it — Single-slot handoff. When job B is dispatched
    while job A is pending, B's pair replaces A's in the slot. From then
    on the slot's occupant is settled by whatever arrives first: a result
    message resolves B's caller with the result it carries, whichever job
    produced it, and a timer that fires rejects B's caller with that
    timer's message, whichever job armed it. A's caller is never settled
    by anything that happens afterwards. *)
Theorem single_slot_handoff_last_writer_wins (σ0 : Background.State)
    (jobA jobB : Background.Job) :
  let pA := fst (submit jobA σ0) in
  let σ1 := snd (submit jobA σ0) in
  let pB := fst (submit jobB σ1) in
  let σ2 := snd (submit jobB σ1) in
  pA <> pB /\
  Background.pendingTranscode σ2 = Some pB /\
  (forall result,
     let σ3 := onPortMessage (RESULT result) σ2 in
     Background.promises σ3 !! pB
     = Some (Some (Background.Resolved (Some result))) /\
     Background.pendingTranscode σ3 = None) /\
  (forall message,
     let σ3 := Background.onTimeout message σ2 in
     Background.promises σ3 !! pB = Some (Some (Background.Rejected message)) /\
     Background.pendingTranscode σ3 = None) /\
  (forall es, Background.promises (run σ2 es) !! pA = Some None).
Proof.
  intros pA σ1 pB σ2.
  destruct (submit_spec MAX jobA σ0) as (EpA & Ep1 & Es1 & _).
  destruct (submit_spec MAX jobB σ1) as (EpB & Ep2 & Es2 & _).
  fold pA σ1 in EpA, Ep1, Es1. fold pB σ2 in EpB, Ep2, Es2.
  assert (pB = S pA) as EB.
  { rewrite EpB, Ep1, length_app. cbn. lia. }
  assert (Background.promises σ2 !! pA = Some None) as HA.
  { rewrite Ep2, Ep1, EpA, <- app_assoc. apply list_lookup_middle. reflexivity. }
  assert (Background.promises σ2 !! pB = Some None) as HB.
  { rewrite Ep2, EpB. apply list_lookup_middle. reflexivity. }
  assert (Background.pendingTranscode σ2 = Some pB) as Hslot
    by (rewrite Es2; congruence).
  split; [lia|]. split; [exact Hslot|]. split; [|split].
  - intros result σ3. unfold σ3. cbn [Background.onPortMessage].
    rewrite Hslot. split; [|reflexivity].
    cbn [Background.promises Background.set_pendingTranscode].
    now apply settle_promises_pending.
  - intros message σ3. unfold σ3, Background.onTimeout.
    rewrite Hslot. split; [|reflexivity].
    cbn [Background.promises Background.set_pendingTranscode].
    now apply settle_promises_pending.
  - intros es. apply (orphaned_run MAX JSON_parse pA σ2 es).
    split; [exact HA|]. rewrite Hslot. intros [= E]. lia.
Qed.


End slot_properties.

(** Two transcode jobs, B dispatched while A is pending. The worker's
    answer to A arrives first and resolves B's promise; B's own answer then
    finds the slot empty and is dropped; A's promise is still pending, also
    after A's own timer has fired. *)
Lemma single_slot_handoff_counterexample :
  let jobA := Background.Transcode "a.avi" 1 in
  let jobB := Background.Transcode "b.avi" 1 in
  let resultA := Single "QQ==" "video/mp4" None in
  let resultB := Single "Qg==" "video/mp4" None in
  let parse := fun _ : string => @None Result in
  let deliver :=
    foldl (fun σ m => Background.onPortMessage parse m σ) in
  let pA := fst (Background.submit 4 jobA Background.initial) in
  let σ1 := snd (Background.submit 4 jobA Background.initial) in
  let pB := fst (Background.submit 4 jobB σ1) in
  let σ2 := snd (Background.submit 4 jobB σ1) in
  let σ3 := deliver σ2 (Offscreen.reply 4 (fun _ => "{}") (Returned resultA)) in
  let σ4 := deliver σ3 (Offscreen.reply 4 (fun _ => "{}") (Returned resultB)) in
  let σ5 := Background.onTimeout "Transcoding timed out" σ4 in
  Background.posted σ2 = [TRANSCODE "a.avi" 1; TRANSCODE "b.avi" 1] /\
  Background.promises σ3 !! pB
  = Some (Some (Background.Resolved (Some resultA))) /\
  Background.promises σ4 !! pB
  = Some (Some (Background.Resolved (Some resultA))) /\
  Background.promises σ5 !! pA = Some None.
Proof. vm_compute. repeat split. Qed.



(** *** The download direction *)

Section download.

Variable MAX : nat.
Variable JSON_stringify : Result -> string.
Variable JSON_parse : string -> option Result.

Local Abbreviation onPortMessage := (Background.onPortMessage JSON_parse).
Local Abbreviation deliver :=
  (foldl (fun σ m => Background.onPortMessage JSON_parse m σ)).

(** Result chunks that arrive in index order fill the dispatcher's staging
    array from the left. *)
Lemma background_receives_in_order (f : nat -> string) n σ cr :
  Background.chunkedResult σ = Some cr ->
  deliver σ ((fun i => RESULT_CHUNK i (f i))
               <$> seq (length (Background.cr_chunks cr)) n)
  = Background.set_chunkedResult
      (Some (Background.mkChunked (Background.shape cr)
               (Background.cr_totalChunks cr)
               (Background.cr_chunks cr
                ++ (Some <$> (f <$> seq (length (Background.cr_chunks cr)) n)))
               (Background.cr_received cr + n))) σ.
Proof.
  revert σ cr. induction n as [|n IH]; intros σ cr Hcr.
  - cbn [seq fmap list_fmap foldl]. rewrite app_nil_r, Nat.add_0_r.
    destruct cr, σ. cbn in *. now rewrite Hcr.
  - cbn [seq fmap list_fmap foldl Background.onPortMessage]. rewrite Hcr.
    rewrite array_set_at_end.
    set (cr' := Background.mkChunked _ _ _ _).
    change (list_fmap nat WorkerMsg ?g ?l) with (g <$> l).
    assert (S (length (Background.cr_chunks cr))
            = length (Background.cr_chunks cr')) as ->
      by (unfold cr'; cbn; rewrite length_app; cbn; lia).
    rewrite (IH _ cr') by reflexivity.
    unfold cr'. cbn [Background.shape Background.cr_totalChunks
                     Background.cr_chunks Background.cr_received].
    change (Background.set_chunkedResult ?c (Background.set_chunkedResult ?c' σ))
      with (Background.set_chunkedResult c σ).
    rewrite length_app, Nat.add_1_r, <- app_assoc.
    replace (S (Background.cr_received cr) + n)
      with (Background.cr_received cr + S n) by lia.
    reflexivity.
Qed.

(** A chunked result sent by [sendResult] reaches the waiting caller whole:
    a single video as [{ base64, mimeType }], a multi-video result as the
    object parsed from the serialized text. *)
Lemma chunked_result_resolves σ p result :
  1 <= MAX ->
  Background.pendingTranscode σ = Some p ->
  Background.promises σ !! p = Some None ->
  MAX < Offscreen.totalSize result ->
  (forall videos,
     result = Multiple videos ->
     JSON_parse (JSON_stringify result) = Some result) ->
  let σ' := deliver σ (Offscreen.sendResult MAX JSON_stringify result) in
  Background.promises σ' !! p
  = Some (Some (Background.Resolved
                  (Some match result with
                        | Single base64 mimeType _ => Single base64 mimeType None
                        | Multiple _ => result
                        end))) /\
  Background.pendingTranscode σ' = None /\
  Background.chunkedResult σ' = None.
Proof.
  intros HM Hslot Hpending Hsize Hparse σ'. unfold σ'.
  unfold Offscreen.sendResult.
  destruct (Offscreen.totalSize result <=? MAX) eqn:E;
    [apply Nat.leb_le in E; lia|].
  set (data := Run.payload JSON_stringify result).
  assert (match result with
          | Single base64 mimeType _ =>
              Offscreen.chunkedMessages MAX (SingleShape mimeType) base64
          | Multiple _ =>
              Offscreen.chunkedMessages MAX MultiShape (JSON_stringify result)
          end = Offscreen.chunkedMessages MAX (Run.shapeOf result) data) as ->
    by now destruct result.
  unfold Offscreen.chunkedMessages. cbv zeta.
  cbn [foldl Background.onPortMessage]. rewrite foldl_app.
  set (σ1 := Background.set_chunkedResult _ σ).
  rewrite (background_receives_in_order _ _ σ1
             (Background.mkChunked (Run.shapeOf result)
                (JS.ceil_div (String.length data) MAX) [] 0)) by reflexivity.
  cbn [foldl Background.onPortMessage Background.chunkedResult
       Background.set_chunkedResult Background.pendingTranscode
       Background.cr_chunks Background.shape app length].
  unfold σ1. cbn [Background.pendingTranscode Background.set_chunkedResult].
  rewrite Hslot, array_join_filled.
  fold (Chunking.totalChunks MAX data). rewrite join_chunks by exact HM.
  destruct result as [base64 mimeType nt|videos]; cbn [Run.shapeOf].
  - split; [|split].
    + cbn [Background.promises Background.set_pendingTranscode].
      apply settle_promises_pending. exact Hpending.
    + reflexivity.
    + cbn [Background.chunkedResult Background.set_pendingTranscode].
      now rewrite settle_chunkedResult.
  - unfold data. cbn [Run.payload]. rewrite (Hparse videos eq_refl).
    split; [|split].
    + cbn [Background.promises Background.set_pendingTranscode].
      apply settle_promises_pending. exact Hpending.
    + reflexivity.
    + cbn [Background.chunkedResult Background.set_pendingTranscode].
      now rewrite settle_chunkedResult.
Qed.

End download.

(** *** Sorting with a comparator *)

Section sort_by_facts.

Context {A : Type} (cmp : A -> A -> Z).

Local Abbreviation before := (fun a b : A => (cmp a b <= 0)%Z).

(** The comparator is consistent: any two elements are comparable, and
    the order it induces is transitive. *)
Hypothesis cmp_total : forall a b, (cmp a b <= 0)%Z \/ (cmp b a <= 0)%Z.
Hypothesis cmp_trans :
  forall a b c, (cmp a b <= 0)%Z -> (cmp b c <= 0)%Z -> (cmp a c <= 0)%Z.

Lemma insert_by_Permutation x l : Offscreen.insert_by cmp x l ≡ₚ x :: l.
Proof.
  induction l as [|y l IH]; cbn; [reflexivity|].
  destruct (cmp x y <=? 0)%Z; [reflexivity|].
  rewrite IH. apply Permutation_swap.
Qed.

Lemma sort_by_Permutation l : Offscreen.sort_by cmp l ≡ₚ l.
Proof.
  induction l as [|x l IH]; cbn; [reflexivity|].
  now rewrite insert_by_Permutation, IH.
Qed.

Lemma insert_by_HdRel a x l :
  before a x -> HdRel before a l -> HdRel before a (Offscreen.insert_by cmp x l).
Proof.
  intros Hax Hal. destruct l as [|y l]; cbn; [now constructor|].
  destruct (cmp x y <=? 0)%Z; constructor; [exact Hax|].
  now inversion Hal.
Qed.

Lemma insert_by_Sorted x l :
  Sorted before l -> Sorted before (Offscreen.insert_by cmp x l).
Proof.
  induction 1 as [|y l Hl IH Hy]; cbn.
  - repeat constructor.
  - destruct (cmp x y <=? 0)%Z eqn:E.
    + apply Z.leb_le in E. repeat constructor; assumption.
    + apply Z.leb_gt in E. constructor; [exact IH|].
      apply insert_by_HdRel; [|exact Hy].
      destruct (cmp_total y x); [assumption|lia].
Qed.

Lemma sort_by_Sorted l : Sorted before (Offscreen.sort_by cmp l).
Proof.
  induction l as [|x l IH]; cbn; [constructor|]. now apply insert_by_Sorted.
Qed.

Lemma sort_by_StronglySorted l :
  StronglySorted before (Offscreen.sort_by cmp l).
Proof.
  apply Sorted.Sorted_StronglySorted; [|apply sort_by_Sorted].
  intros a b c. apply cmp_trans.
Qed.

(** When no two distinct elements of the list compare as equal, the
    sorted arrangement does not depend on the order of the input. *)
Lemma sort_by_order_independent l1 l2 :
  l1 ≡ₚ l2 ->
  (forall a b, a ∈ l1 -> b ∈ l1 -> before a b -> before b a -> a = b) ->
  Offscreen.sort_by cmp l1 = Offscreen.sort_by cmp l2.
Proof.
  intros Hp Hanti.
  apply (StronglySorted_unique_strong before);
    [|apply sort_by_StronglySorted..|].
  - intros a b Ha Hb. apply Hanti.
    + now rewrite sort_by_Permutation in Ha.
    + now rewrite sort_by_Permutation, <- Hp in Hb.
  - now rewrite !sort_by_Permutation.
Qed.

End sort_by_facts.

(** *** Archive extraction *)

Lemma filter_Permutation {A} (p : A -> bool) (l1 l2 : list A) :
  l1 ≡ₚ l2 -> List.filter p l1 ≡ₚ List.filter p l2.
Proof.
  induction 1 as [|x l1 l2 _ IH|x y l|l1 l2 l3 _ IH1 _ IH2]; cbn.
  - reflexivity.
  - destruct (p x); [now rewrite IH|exact IH].
  - destruct (p x), (p y); try reflexivity. apply Permutation_swap.
  - now rewrite IH1.
Qed.

Lemma NoDup_fmap_inj_on {A B} (f : A -> B) (l : list A) x y :
  NoDup (f <$> l) -> x ∈ l -> y ∈ l -> f x = f y -> x = y.
Proof.
  induction l as [|z l IH]; intros Hnd Hx Hy Hf; [now apply elem_of_nil in Hx|].
  rewrite fmap_cons in Hnd. apply NoDup_cons in Hnd as [Hz Hnd].
  apply elem_of_cons in Hx as [->|Hx], Hy as [->|Hy].
  - reflexivity.
  - exfalso. apply Hz. rewrite Hf. now apply list_elem_of_fmap_2.
  - exfalso. apply Hz. rewrite <- Hf. now apply list_elem_of_fmap_2.
  - now apply IH.
Qed.

Lemma filter_subseteq {A} (p : A -> bool) (l : list A) x :
  x ∈ List.filter p l -> x ∈ l.
Proof.
  rewrite !list_elem_of_In, filter_In. tauto.
Qed.

Section extraction.

Variable toLowerCase : string -> string.
Variable localeCompare : string -> string -> Z.
Variable JSZip_loadAsync : list byte -> outcome (list Offscreen.ZipEntry).
Variable ffmpeg_transcode :
  string -> string -> list byte -> outcome (list byte).

Local Abbreviation isVideoFile := (Offscreen.isVideoFile toLowerCase).
Local Abbreviation extractOne :=
  (Offscreen.extractOne toLowerCase ffmpeg_transcode).
Local Abbreviation extractFrom :=
  (Offscreen.extractFrom toLowerCase ffmpeg_transcode).
Local Abbreviation extractZipFromData :=
  (Offscreen.extractZipFromData toLowerCase localeCompare JSZip_loadAsync
     ffmpeg_transcode).
Local Abbreviation by_name :=
  (fun a b : Offscreen.ZipEntry =>
     localeCompare (Offscreen.entry_name a) (Offscreen.entry_name b)).

(** [localeCompare] is a consistent comparator. *)
Hypothesis localeCompare_total :
  forall a b, (localeCompare a b <= 0)%Z \/ (localeCompare b a <= 0)%Z.
Hypothesis localeCompare_trans :
  forall a b c,
    (localeCompare a b <= 0)%Z -> (localeCompare b c <= 0)%Z ->
    (localeCompare a c <= 0)%Z.

Lemma extractOne_name i e v :
  extractOne i e = Returned v -> name v = Offscreen.entry_name e.
Proof.
  unfold Offscreen.extractOne.
  destruct (Offscreen.async_uint8array e) as [videoData|]; [|discriminate].
  cbn [mbind outcome_bind mret outcome_ret].
  destruct (bool_decide _); [now intros [= <-]|].
  destruct (ffmpeg_transcode _ _ _); [now intros [= <-]|discriminate].
Qed.

(** When every entry can be read and converted, the loop returns one video
    per entry, in the order of the entries and under their names. *)
Lemma extractFrom_succeeds i l :
  Forall (fun e => forall i, exists v, extractOne i e = Returned v) l ->
  exists videos,
    extractFrom i l = Returned videos /\
    name <$> videos = Offscreen.entry_name <$> l.
Proof.
  intros H. revert i. induction H as [|e l He _ IH]; intros i.
  - now exists [].
  - destruct (He i) as [v Hv]. destruct (IH (S i)) as (vs & Hvs & Hnames).
    exists (v :: vs). cbn [Offscreen.extractFrom]. rewrite Hv, Hvs. split.
    + reflexivity.
    + cbn. now rewrite (extractOne_name i e v Hv), Hnames.
Qed.

Lemma extractFrom_length i l videos :
  extractFrom i l = Returned videos -> length videos = length l.
Proof.
  revert i videos. induction l as [|e l IH]; intros i videos.
  - now intros [= <-].
  - cbn [Offscreen.extractFrom].
    destruct (extractOne i e) as [v|]; [|discriminate].
    cbn [mbind outcome_bind].
    destruct (extractFrom (S i) l) as [vs|] eqn:E; [|discriminate].
    intros [= <-]. cbn. f_equal. now apply (IH (S i)).
Qed.

(** What [extractZipFromData] does once the archive has been read. *)
Lemma extractZipFromData_unfold zipBase64 binaryString files :
  Base64.atob zipBase64 = Some binaryString ->
  JSZip_loadAsync (byte_of_ascii <$> JS.chars binaryString) = Returned files ->
  extractZipFromData zipBase64 =
    let videoFiles := List.filter isVideoFile files in
    if length videoFiles =? 0 then Thrown "No video file found in ZIP"
    else
      match extractFrom 0 (Offscreen.sort_by by_name videoFiles) with
      | Returned [r] => Returned (Single (base64 r) (mimeType r) (Some false))
      | Returned results => Returned (Multiple results)
      | Thrown e => Thrown e
      end.
Proof.
  intros Hatob Hzip. unfold Offscreen.extractZipFromData.
  rewrite Hatob. cbv zeta. rewrite Hzip. cbn [mbind outcome_bind].
  destruct (length _ =? 0); [reflexivity|].
  destruct (Offscreen.extractFrom _ _ 0 _) as [[|r [|r' rs]]|]; reflexivity.
Qed.

Lemma sorted_names (l : list Offscreen.ZipEntry) :
  StronglySorted (fun a b => (localeCompare a b <= 0)%Z)
    (Offscreen.entry_name <$> Offscreen.sort_by by_name l).
Proof.
  assert (StronglySorted (fun a b => (by_name a b <= 0)%Z)
            (Offscreen.sort_by by_name l)) as H.
  { apply sort_by_StronglySorted.
    - intros a b. apply localeCompare_total.
    - intros a b c. apply localeCompare_trans. }
  induction H as [|e es _ IH He]; cbn; constructor; [exact IH|].
  apply Forall_fmap. exact He.
Qed.

(** With two or more recognized entries that can all be read and
    converted, the result is the multi-video object, its items following
    the sorted entries. *)
Lemma multi_video_result zipBase64 binaryString files :
  Base64.atob zipBase64 = Some binaryString ->
  JSZip_loadAsync (byte_of_ascii <$> JS.chars binaryString) = Returned files ->
  2 <= length (List.filter isVideoFile files) ->
  Forall (fun e => forall i, exists v, extractOne i e = Returned v)
    (List.filter isVideoFile files) ->
  exists videos,
    extractZipFromData zipBase64 = Returned (Multiple videos) /\
    length videos = length (List.filter isVideoFile files) /\
    name <$> videos
    = Offscreen.entry_name
        <$> Offscreen.sort_by by_name (List.filter isVideoFile files).
Proof.
  intros Hatob Hzip Hlen Hok. set (videoFiles := List.filter _ files) in *.
  destruct (extractFrom_succeeds 0 (Offscreen.sort_by by_name videoFiles))
    as (videos & Hvideos & Hnames).
  { rewrite sort_by_Permutation. exact Hok. }
  exists videos.
  assert (length videos = length videoFiles) as Hl.
  { rewrite (extractFrom_length _ _ _ Hvideos).
    now rewrite sort_by_Permutation. }
  split; [|split; [exact Hl|exact Hnames]].
  rewrite (extractZipFromData_unfold _ _ _ Hatob Hzip). cbv zeta.
  fold videoFiles. rewrite Hvideos.
  destruct (length videoFiles =? 0) eqn:E; [apply Nat.eqb_eq in E; lia|].
  destruct videos as [|r [|r' rs]]; [cbn in Hl; lia..|reflexivity].
Qed.

(** C8 — Name-sorted multi-video order. For an archive with two or more
    recognized video entries, each of which can be read and converted,
    extraction returns the multi-video result with one item per recognized
    entry, the items carrying the entry names in [localeCompare] order.
    When the entry names are distinct and no two of them collate as equal,
    an archive holding the same entries in another internal order yields
    the same result. *)
Theorem name_sorted_multi_media (zipBase64 binaryString : string)
    (files : list Offscreen.ZipEntry) :
  Base64.atob zipBase64 = Some binaryString ->
  JSZip_loadAsync (byte_of_ascii <$> JS.chars binaryString) = Returned files ->
  let videoFiles := List.filter isVideoFile files in
  2 <= length videoFiles ->
  Forall (fun e => forall i, exists v, extractOne i e = Returned v) videoFiles ->
  (exists videos,
     extractZipFromData zipBase64 = Returned (Multiple videos) /\
     length videos = length videoFiles /\
     name <$> videos ≡ₚ Offscreen.entry_name <$> videoFiles /\
     StronglySorted (fun a b => (localeCompare a b <= 0)%Z) (name <$> videos)) /\
  (forall zipBase64' binaryString' files',
     Base64.atob zipBase64' = Some binaryString' ->
     JSZip_loadAsync (byte_of_ascii <$> JS.chars binaryString') = Returned files' ->
     files' ≡ₚ files ->
     NoDup (Offscreen.entry_name <$> files) ->
     (forall a b,
        a ∈ videoFiles -> b ∈ videoFiles ->
        (by_name a b <= 0)%Z -> (by_name b a <= 0)%Z ->
        Offscreen.entry_name a = Offscreen.entry_name b) ->
     extractZipFromData zipBase64' = extractZipFromData zipBase64).
Proof.
  intros Hatob Hzip videoFiles Hlen Hok. split.
  - destruct (multi_video_result _ _ _ Hatob Hzip Hlen Hok)
      as (videos & Hres & Hl & Hnames).
    exists videos. split; [exact Hres|]. split; [exact Hl|]. split.
    + rewrite Hnames. now rewrite sort_by_Permutation.
    + rewrite Hnames. apply sorted_names.
  - intros zipBase64' binaryString' files' Hatob' Hzip' Hp Hnd Hanti.
    rewrite (extractZipFromData_unfold _ _ _ Hatob Hzip).
    rewrite (extractZipFromData_unfold _ _ _ Hatob' Hzip'). cbv zeta.
    fold videoFiles.
    assert (List.filter isVideoFile files' ≡ₚ videoFiles) as Hp'
      by now apply filter_Permutation.
    rewrite (Permutation_length Hp').
    rewrite (sort_by_order_independent by_name
               (fun a b => localeCompare_total _ _)
               (fun a b c => localeCompare_trans _ _ _)
               videoFiles (List.filter isVideoFile files')).
    + reflexivity.
    + now symmetry.
    + intros a b Ha Hb Hab Hba.
      apply (NoDup_fmap_inj_on Offscreen.entry_name files);
        [exact Hnd|eapply filter_subseteq, Ha|eapply filter_subseteq, Hb|].
      now apply Hanti.
Qed.

(** C10 — A single recognized entry gives the single-video shape. With no
    recognized entry extraction throws; with exactly one that can be read
    and converted it returns [{ base64, mimeType, needsTranscode: false }]
    built from that entry, without its name; and the multi-video shape is
    returned only when at least two entries are recognized, which, when
    they can all be read and converted, it always is. *)
Theorem single_entry_collapses (zipBase64 binaryString : string)
    (files : list Offscreen.ZipEntry) :
  Base64.atob zipBase64 = Some binaryString ->
  JSZip_loadAsync (byte_of_ascii <$> JS.chars binaryString) = Returned files ->
  let videoFiles := List.filter isVideoFile files in
  (videoFiles = [] ->
   extractZipFromData zipBase64 = Thrown "No video file found in ZIP") /\
  (forall e v,
     videoFiles = [e] -> extractOne 0 e = Returned v ->
     extractZipFromData zipBase64
     = Returned (Single (base64 v) (mimeType v) (Some false))) /\
  (forall videos,
     extractZipFromData zipBase64 = Returned (Multiple videos) ->
     2 <= length videoFiles /\ length videos = length videoFiles) /\
  (2 <= length videoFiles ->
   Forall (fun e => forall i, exists v, extractOne i e = Returned v) videoFiles ->
   exists videos,
     extractZipFromData zipBase64 = Returned (Multiple videos) /\
     length videos = length videoFiles).
Proof.
  intros Hatob Hzip videoFiles.
  pose proof (extractZipFromData_unfold _ _ _ Hatob Hzip) as E.
  cbv zeta in E. fold videoFiles in E.
  split; [|split; [|split]].
  - intros Hnil. rewrite E, Hnil. reflexivity.
  - intros e v He Hv. rewrite E, He. cbn [length Nat.eqb Offscreen.sort_by
      Offscreen.insert_by Offscreen.extractFrom].
    rewrite Hv. reflexivity.
  - intros videos Hres. rewrite E in Hres.
    destruct (length videoFiles =? 0) eqn:E0; [discriminate|].
    apply Nat.eqb_neq in E0.
    destruct (extractFrom 0 _) as [results|] eqn:Er; [|discriminate].
    apply extractFrom_length in Er. rewrite sort_by_Permutation in Er.
    destruct results as [|r [|r' rs]]; [cbn in Er; lia|discriminate|].
    injection Hres as <-. cbn in Er |- *. lia.
  - intros Hlen Hok.
    destruct (multi_video_result _ _ _ Hatob Hzip Hlen Hok)
      as (videos & H1 & H2 & _).
    now exists videos.
Qed.

End extraction.

(** *** A concrete archive *)

Lemma code_unit_order_le a b :
  (Run.code_unit_order a b <= 0)%Z <-> String.le a b.
Proof.
  unfold Run.code_unit_order, String.le, String.leb.
  destruct (String.compare a b); cbn; split; intros H; try lia; try exact I;
    contradiction.
Qed.

Lemma code_unit_order_total a b :
  (Run.code_unit_order a b <= 0)%Z \/ (Run.code_unit_order b a <= 0)%Z.
Proof. rewrite !code_unit_order_le. apply String.le_total. Qed.

Lemma code_unit_order_trans a b c :
  (Run.code_unit_order a b <= 0)%Z -> (Run.code_unit_order b c <= 0)%Z ->
  (Run.code_unit_order a c <= 0)%Z.
Proof. rewrite !code_unit_order_le. apply transitivity. Qed.

Example sample_extraction :
  Offscreen.extractZipFromData Run.lower Run.code_unit_order Run.sample_loader
    Run.identity_engine "UEsh"
  = Returned (Multiple [mkVideo "clips/a.AVI" "AgM=" "video/mp4";
                        mkVideo "clips/b.mp4" "AAH/" "video/mp4";
                        mkVideo "clips/c.webm" "gA==" "video/webm"]).
Proof. vm_compute. reflexivity. Qed.

Lemma name_sorted_multi_media_witness :
  exists videos,
    Offscreen.extractZipFromData Run.lower Run.code_unit_order Run.sample_loader
      Run.identity_engine "UEsh"
    = Returned (Multiple videos) /\
    length videos = 3 /\
    StronglySorted (fun a b => (Run.code_unit_order a b <= 0)%Z)
      (name <$> videos).
Proof.
  assert (List.filter (Offscreen.isVideoFile Run.lower) Run.sample_files
          = [Offscreen.mkEntry "clips/b.mp4" false (Returned [x00; x01; xff]);
             Offscreen.mkEntry "clips/c.webm" false (Returned [x80]);
             Offscreen.mkEntry "clips/a.AVI" false (Returned [x02; x03])])
    as Hfilter by (vm_compute; reflexivity).
  destruct (name_sorted_multi_media Run.lower Run.code_unit_order
              Run.sample_loader Run.identity_engine
              code_unit_order_total code_unit_order_trans
              "UEsh" "PK!" Run.sample_files)
    as [(videos & H1 & H2 & _ & H4) _].
  - vm_compute. reflexivity.
  - reflexivity.
  - rewrite Hfilter. cbn. lia.
  - rewrite Hfilter.
    repeat (apply Forall_cons_2; [intros i; eexists; reflexivity|]).
    apply Forall_nil_2.
  - exists videos. rewrite Hfilter in H2. auto.
Defined.

Lemma single_entry_collapses_witness :
  Offscreen.extractZipFromData Run.lower Run.code_unit_order Run.single_loader
    Run.identity_engine "UEsh"
  = Returned (Single "AAH/" "video/mp4" (Some false)) /\
  forall videos,
    Offscreen.extractZipFromData Run.lower Run.code_unit_order
      Run.sample_loader Run.identity_engine "UEsh"
    = Returned (Multiple videos) ->
    length videos = 3.
Proof.
  split.
  - assert (Base64.atob "UEsh" = Some "PK!") as Hatob
      by (vm_compute; reflexivity).
    destruct (single_entry_collapses Run.lower Run.code_unit_order
                Run.single_loader Run.identity_engine "UEsh" "PK!" _
                Hatob eq_refl) as (_ & H & _).
    apply (H (Offscreen.mkEntry "movie.M4V" false (Returned [x00; x01; xff]))
             (mkVideo "movie.M4V" "AAH/" "video/mp4"));
      vm_compute; reflexivity.
  - intros videos Hres.
    assert (Base64.atob "UEsh" = Some "PK!") as Hatob
      by (vm_compute; reflexivity).
    destruct (single_entry_collapses Run.lower Run.code_unit_order
                Run.sample_loader Run.identity_engine "UEsh" "PK!" _
                Hatob eq_refl) as (_ & _ & H & _).
    destruct (H videos Hres) as [_ ->]. vm_compute. reflexivity.
Defined.

(** * Further properties *)

(** *** Sizes of what is posted *)

Lemma chunkAt_length MAX data i :
  String.length (Chunking.chunkAt MAX data i)
  = MAX `min` (String.length data - i * MAX).
Proof.
  rewrite <- chars_length, chars_chunkAt. unfold Chunking.slice.
  rewrite length_take, length_drop, chars_length. lia.
Qed.

(** X1 — What the code cuts or tests fits the ceiling. Every chunk cut
    by [sendResult], by [handleExtractZipProcess], by the content
    script's upload loop or by [handleGetResultChunk] has at most [MAX]
    code units; so has every single-video result that [sendResult] sends
    whole, every archive that [handleExtractZipProcess] posts whole, and
    every archive that the content script uploads whole.
    [handleExtractZipData] makes no test of its own: it posts the text of
    the request as it is, whatever its length, so what it posts for an
    upload of the content script fits because the content script tested
    it. *)
Theorem posted_text_fits (MAX : nat) (JSON_stringify : Result -> string) :
  (forall result i c,
     RESULT_CHUNK i c ∈ Offscreen.sendResult MAX JSON_stringify result ->
     String.length c <= MAX) /\
  (forall result base64 mimeType needsTranscode,
     RESULT (Single base64 mimeType needsTranscode)
       ∈ Offscreen.sendResult MAX JSON_stringify result ->
     String.length base64 <= MAX) /\
  (forall zipBase64 tabId i c,
     EXTRACT_ZIP_DATA_CHUNK i c ∈ Background.toOffscreen MAX zipBase64 tabId ->
     String.length c <= MAX) /\
  (forall zipBase64 tabId whole tabId',
     EXTRACT_ZIP_DATA whole tabId' ∈ Background.toOffscreen MAX zipBase64 tabId ->
     String.length whole <= MAX) /\
  (forall transferId zipBase64 tid i n c,
     EXTRACT_ZIP_CHUNK tid i n c ∈ Content.upload MAX transferId zipBase64 ->
     String.length c <= MAX) /\
  (forall transferId zipBase64 whole,
     EXTRACT_ZIP_DATA_WHOLE whole ∈ Content.upload MAX transferId zipBase64 ->
     String.length whole <= MAX) /\
  (forall σ resultId i c isLast σ',
     Background.handleGetResultChunk MAX resultId i σ
     = (Returned (c, isLast), σ') ->
     String.length c <= MAX) /\
  (forall zipBase64 tabId σ,
     Background.posted (snd (Background.handleExtractZipData zipBase64 tabId σ))
     = Background.posted σ ++ [EXTRACT_ZIP_DATA zipBase64 tabId]) /\
  (forall transferId zipBase64 whole tabId σ posted tabId',
     EXTRACT_ZIP_DATA_WHOLE whole ∈ Content.upload MAX transferId zipBase64 ->
     EXTRACT_ZIP_DATA posted tabId'
       ∈ drop (length (Background.posted σ))
           (Background.posted
              (snd (Background.handleExtractZipData whole tabId σ))) ->
     String.length posted <= MAX).
Proof.
  assert (forall data i, String.length (Chunking.chunkAt MAX data i) <= MAX)
    as Hfit by (intros; rewrite chunkAt_length; lia).
  assert (forall transferId zipBase64 whole,
            EXTRACT_ZIP_DATA_WHOLE whole
              ∈ Content.upload MAX transferId zipBase64 ->
            String.length whole <= MAX) as Hwhole.
  { intros transferId zipBase64 whole. unfold Content.upload.
    destruct (MAX <? String.length zipBase64) eqn:E.
    + rewrite elem_of_app, list_elem_of_fmap, list_elem_of_singleton.
      intros [(k & H & _)|H]; discriminate.
    + intros H. apply list_elem_of_singleton in H. injection H as ->.
      now apply Nat.ltb_ge in E. }
  split; [|split; [|split; [|split; [|split; [|split; [|split; [|split]]]]]]].
  - intros result i c. unfold Offscreen.sendResult.
    destruct (_ <=? MAX).
    + intros H. apply list_elem_of_singleton in H. discriminate.
    + assert (forall shape data,
                RESULT_CHUNK i c ∈ Offscreen.chunkedMessages MAX shape data ->
                String.length c <= MAX) as Hc.
      { intros shape data. unfold Offscreen.chunkedMessages. cbv zeta.
        rewrite elem_of_cons, elem_of_app, list_elem_of_fmap,
          list_elem_of_singleton.
        intros [H|[(k & H & _)|H]]; try discriminate.
        injection H as -> ->. apply Hfit. }
      destruct result; apply Hc.
  - intros result base64 mimeType nt. unfold Offscreen.sendResult.
    destruct (Offscreen.totalSize result <=? MAX) eqn:E.
    + intros H. apply list_elem_of_singleton in H. injection H as <-.
      apply Nat.leb_le in E. cbn [Offscreen.totalSize] in E.
      now rewrite truthy_length in E.
    + assert (forall shape data,
                RESULT (Single base64 mimeType nt)
                  ∈ Offscreen.chunkedMessages MAX shape data -> False) as Hc.
      { intros shape data. unfold Offscreen.chunkedMessages. cbv zeta.
        rewrite elem_of_cons, elem_of_app, list_elem_of_fmap,
          list_elem_of_singleton.
        intros [H|[(k & H & _)|H]]; discriminate. }
      destruct result; intros H; now apply Hc in H.
  - intros zipBase64 tabId i c. unfold Background.toOffscreen.
    destruct (MAX <? _).
    + rewrite elem_of_cons, elem_of_app, list_elem_of_fmap,
        list_elem_of_singleton.
      intros [H|[(k & H & _)|H]]; try discriminate.
      injection H as -> ->. apply Hfit.
    + intros H. apply list_elem_of_singleton in H. discriminate.
  - intros zipBase64 tabId whole tabId'. unfold Background.toOffscreen.
    destruct (MAX <? String.length zipBase64) eqn:E.
    + rewrite elem_of_cons, elem_of_app, list_elem_of_fmap,
        list_elem_of_singleton.
      intros [H|[(k & H & _)|H]]; discriminate.
    + intros H. apply list_elem_of_singleton in H. injection H as -> _.
      now apply Nat.ltb_ge in E.
  - intros transferId zipBase64 tid i n c. unfold Content.upload.
    destruct (MAX <? _).
    + rewrite elem_of_app, list_elem_of_fmap, list_elem_of_singleton.
      intros [(k & H & _)|H]; try discriminate.
      injection H as -> -> -> ->. apply Hfit.
    + intros H. apply list_elem_of_singleton in H. discriminate.
  - exact Hwhole.
  - intros σ resultId i c isLast σ'. unfold Background.handleGetResultChunk.
    destruct (_ !! resultId) as [stored|]; [|discriminate].
    destruct (Background.storedData stored) as [data|]; [|discriminate].
    cbv zeta. intros [= <- _ _]. apply (Hfit data i).
  - intros zipBase64 tabId σ. reflexivity.
  - intros transferId zipBase64 whole tabId σ posted tabId' Hup.
    change (Background.posted
              (snd (Background.handleExtractZipData whole tabId σ)))
      with (Background.posted σ ++ [EXTRACT_ZIP_DATA whole tabId]).
    rewrite drop_app_length. intros H.
    apply list_elem_of_singleton in H. injection H as -> _.
    exact (Hwhole _ _ _ Hup).
Qed.

(** *** What reaches a waiting caller *)

(** X2 — A result reaches the waiting caller whatever its size. With a
    job pending, the messages [sendResult] posts for a result, delivered
    in order, resolve the caller's promise and clear the slot. A result
    sent whole arrives as it is; a chunked single video arrives as
    [{ base64, mimeType }], its [needsTranscode] field gone; a chunked
    multi-video result arrives as the object parsed from the text. *)
Theorem result_reaches_caller (MAX : nat) (JSON_stringify : Result -> string)
    (JSON_parse : string -> option Result) (σ : Background.State) (p : nat)
    (result : Result) :
  1 <= MAX ->
  Background.pendingTranscode σ = Some p ->
  Background.promises σ !! p = Some None ->
  (forall videos,
     result = Multiple videos ->
     JSON_parse (JSON_stringify result) = Some result) ->
  let σ' :=
    Delivery.deliver JSON_parse σ
      (Offscreen.sendResult MAX JSON_stringify result) in
  Background.promises σ' !! p
  = Some (Some (Background.Resolved (Some (Delivery.arrived MAX result)))) /\
  Background.pendingTranscode σ' = None.
Proof.
  intros HM Hslot Hpending Hparse σ'. unfold Delivery.arrived.
  destruct (Offscreen.totalSize result <=? MAX) eqn:E.
  - unfold σ', Offscreen.sendResult. rewrite E.
    cbn [Delivery.deliver foldl Background.onPortMessage]. rewrite Hslot.
    split; [|reflexivity].
    cbn [Background.promises Background.set_pendingTranscode].
    now apply settle_promises_pending.
  - apply Nat.leb_gt in E.
    destruct (chunked_result_resolves MAX JSON_stringify JSON_parse σ p result
                HM Hslot Hpending E Hparse) as (H1 & H2 & _).
    split; [exact H1|exact H2].
Qed.

Lemma result_reaches_caller_witness :
  let parse := fun _ : string => @None Result in
  let stringify := fun _ : Result => "{}" in
  let σ := snd (Background.submit 4 (Background.ExtractZip "a.zip" 1)
                  Background.initial) in
  let σ' :=
    Delivery.deliver parse σ
      (Offscreen.sendResult 4 stringify (Single "QUJDREU=" "video/mp4" (Some false))) in
  Background.promises σ' !! 0
  = Some (Some (Background.Resolved (Some (Single "QUJDREU=" "video/mp4" None)))) /\
  Background.pendingTranscode σ' = None.
Proof.
  intros parse stringify σ σ'.
  apply (result_reaches_caller 4 stringify parse σ 0
           (Single "QUJDREU=" "video/mp4" (Some false)));
    [lia|reflexivity|reflexivity|discriminate].
Defined.

(** X3 — A failure of the worker reaches the waiting caller. With a job
    pending, the [RESULT] message the worker posts when a job throws an
    error with a message rejects the caller's promise with that message
    and clears the slot. *)
Theorem worker_error_reaches_caller (MAX : nat)
    (JSON_stringify : Result -> string) (JSON_parse : string -> option Result)
    (σ : Background.State) (p : nat) (message : string) :
  message <> "" ->
  Background.pendingTranscode σ = Some p ->
  Background.promises σ !! p = Some None ->
  let σ' :=
    Delivery.deliver JSON_parse σ
      (Offscreen.reply MAX JSON_stringify (Thrown message)) in
  Background.promises σ' !! p = Some (Some (Background.Rejected message)) /\
  Background.pendingTranscode σ' = None.
Proof.
  intros Hmessage Hslot Hpending σ'. unfold σ'.
  cbn [Offscreen.reply Delivery.deliver foldl Background.onPortMessage].
  rewrite Hslot. split; [|reflexivity].
  cbn [Background.promises Background.set_pendingTranscode].
  replace (JS.truthy message) with true
    by (destruct message; [contradiction|reflexivity]).
  now apply settle_promises_pending.
Qed.

Lemma worker_error_reaches_caller_witness :
  let parse := fun _ : string => @None Result in
  let stringify := fun _ : Result => "{}" in
  let σ := snd (Background.submit 4 (Background.ExtractZipData "UEsh" 1)
                  Background.initial) in
  let σ' :=
    Delivery.deliver parse σ
      (Offscreen.reply 4 stringify (Thrown "No video file found in ZIP")) in
  Background.promises σ' !! 0
  = Some (Some (Background.Rejected "No video file found in ZIP")) /\
  Background.pendingTranscode σ' = None.
Proof.
  intros parse stringify σ σ'.
  apply (worker_error_reaches_caller 4 stringify parse σ 0
           "No video file found in ZIP"); [discriminate|reflexivity..].
Defined.

(** *** The slot *)

Lemma slot_pending_step MAX JSON_parse σ e :
  Delivery.slot_pending σ ->
  Delivery.slot_pending (Background.step MAX JSON_parse σ e).
Proof.
  unfold Delivery.slot_pending. intros H.
  destruct e as [job|message|message]; cbn [Background.step].
  - destruct (submit_spec MAX job σ) as (_ & -> & -> & _).
    apply list_lookup_middle. reflexivity.
  - destruct message; cbn [Background.onPortMessage]; try exact H.
    + now destruct (_ =? _).
    + destruct (Background.pendingTranscode σ) eqn:E; [exact I|now rewrite E].
    + destruct (Background.pendingTranscode σ) eqn:E; [exact I|now rewrite E].
    + now destruct (Background.chunkedResult σ).
    + destruct (Background.chunkedResult σ) as [cr|]; [|exact H].
      destruct (Background.pendingTranscode σ) as [p|] eqn:E;
        [|now rewrite E].
      destruct (Background.shape cr); [exact I|].
      destruct (JSON_parse _); [exact I|now rewrite E].
  - unfold Background.onTimeout.
    destruct (Background.pendingTranscode σ) eqn:E; [exact I|now rewrite E].
Qed.

(** X4 — The slot only ever holds a pending promise. In every state the
    dispatcher can reach from its start, by any sequence of job requests,
    port messages and timer firings, the pair in [pendingTranscode]
    belongs to a promise that is not yet settled: whenever the code
    settles the slot's promise it empties the slot in the same step. *)
Theorem slot_holds_pending_promise (MAX : nat)
    (JSON_parse : string -> option Result) (es : list Background.event) :
  Delivery.slot_pending (Background.run MAX JSON_parse Background.initial es).
Proof.
  assert (forall σ, Delivery.slot_pending σ ->
            Delivery.slot_pending (Background.run MAX JSON_parse σ es)) as H.
  { induction es as [|e es IH]; intros σ Hσ; [exact Hσ|].
    apply IH, slot_pending_step, Hσ. }
  apply H. exact I.
Qed.

Lemma settle_timers p s σ :
  Background.timers (Background.settle p s σ) = Background.timers σ.
Proof.
  unfold Background.settle.
  destruct (Background.promises σ !! p) as [[?|]|]; reflexivity.
Qed.

(** X5 — A timer outlives its job. No handler clears the timer it armed,
    so after job A has completed and job B has been dispatched, the firing
    of A's timer rejects B's caller with A's timeout message and clears
    the slot, whatever time B's own timer still has to run. *)
Theorem stale_timer_rejects_next_job (MAX : nat)
    (JSON_parse : string -> option Result) (σ0 : Background.State)
    (jobA jobB : Background.Job) (resultA : Result) :
  let pA := fst (Background.submit MAX jobA σ0) in
  let σ1 := snd (Background.submit MAX jobA σ0) in
  let σ2 := Background.onPortMessage JSON_parse (RESULT resultA) σ1 in
  let pB := fst (Background.submit MAX jobB σ2) in
  let σ3 := snd (Background.submit MAX jobB σ2) in
  let σ4 := Background.onTimeout (Run.timeoutText jobA) σ3 in
  Background.promises σ2 !! pA
  = Some (Some (Background.Resolved (Some resultA))) /\
  Background.mkTimer (Run.deadline jobA) (Run.timeoutText jobA)
    ∈ Background.timers σ3 /\
  Background.promises σ4 !! pB
  = Some (Some (Background.Rejected (Run.timeoutText jobA))) /\
  Background.pendingTranscode σ4 = None.
Proof.
  intros pA σ1 σ2 pB σ3 σ4.
  destruct (submit_spec MAX jobA σ0) as (EpA & Ep1 & Es1 & Et1).
  fold pA σ1 in EpA, Ep1, Es1, Et1.
  assert (Background.promises σ1 !! pA = Some None) as HA.
  { rewrite Ep1, EpA. apply list_lookup_middle. reflexivity. }
  assert (Background.timers σ2 = Background.timers σ1) as Et2.
  { unfold σ2. cbn [Background.onPortMessage]. rewrite Es1.
    cbn [Background.timers Background.set_pendingTranscode].
    apply settle_timers. }
  destruct (submit_spec MAX jobB σ2) as (EpB & Ep3 & Es3 & Et3).
  fold pB σ3 in EpB, Ep3, Es3, Et3.
  assert (Background.promises σ3 !! pB = Some None) as HB.
  { rewrite Ep3, EpB. apply list_lookup_middle. reflexivity. }
  split; [|split; [|split]].
  - unfold σ2. cbn [Background.onPortMessage]. rewrite Es1.
    cbn [Background.promises Background.set_pendingTranscode].
    rewrite <- EpA. now apply settle_promises_pending.
  - rewrite Et3, Et2, Et1. apply elem_of_app. left. apply elem_of_app. right.
    apply list_elem_of_singleton. reflexivity.
  - unfold σ4, Background.onTimeout. rewrite Es3, <- EpB.
    cbn [Background.promises Background.set_pendingTranscode].
    now apply settle_promises_pending.
  - unfold σ4, Background.onTimeout. now rewrite Es3.
Qed.

(** *** The staging map under interleaved transfers *)

Lemma handle_chunkStorage r σ :
  Requests.handle r σ
  = Background.set_chunkStorage
      (<[Requests.transferId r :=
           Requests.advance
             (Background.chunkStorage σ !! Requests.transferId r) r]>
         (Background.chunkStorage σ)) σ.
Proof.
  unfold Requests.handle, Background.handleExtractZipChunk, Requests.advance.
  reflexivity.
Qed.

Lemma handle_lookup r σ tid :
  Background.chunkStorage (Requests.handle r σ) !! tid
  = if bool_decide (Requests.transferId r = tid)
    then Some (Requests.advance (Background.chunkStorage σ !! tid) r)
    else Background.chunkStorage σ !! tid.
Proof.
  rewrite handle_chunkStorage.
  cbn [Background.chunkStorage Background.set_chunkStorage].
  case_bool_decide as E.
  - subst tid. apply lookup_insert_eq.
  - now apply lookup_insert_ne.
Qed.

Lemma handle_all_lookup rs σ tid :
  Background.chunkStorage (Requests.handle_all rs σ) !! tid
  = Requests.advance_all (Background.chunkStorage σ !! tid)
      (Requests.of_transfer tid rs).
Proof.
  revert σ. induction rs as [|r rs IH]; intros σ; [reflexivity|].
  change (Requests.handle_all (r :: rs) σ)
    with (Requests.handle_all rs (Requests.handle r σ)).
  rewrite IH, handle_lookup. unfold Requests.of_transfer.
  cbn [List.filter]. now case_bool_decide.
Qed.

Lemma handle_all_frame rs σ :
  Requests.handle_all rs σ
  = Background.set_chunkStorage
      (Background.chunkStorage (Requests.handle_all rs σ)) σ.
Proof.
  revert σ. induction rs as [|r rs IH]; intros σ.
  - symmetry. apply state_eta.
  - change (Requests.handle_all (r :: rs) σ)
      with (Requests.handle_all rs (Requests.handle r σ)).
    rewrite IH at 1. now rewrite handle_chunkStorage.
Qed.

(** X6 — Transfers do not interfere. After any interleaving of chunk
    requests of any number of transfers, the entry of a transfer in the
    staging map is what the requests of that transfer alone make of the
    entry it had before, and nothing of the dispatcher's state but the
    staging map has changed. *)
Theorem transfers_do_not_interfere (rs : list Requests.ChunkRequest)
    (σ : Background.State) (tid : string) :
  Background.chunkStorage (Requests.handle_all rs σ) !! tid
  = Requests.advance_all (Background.chunkStorage σ !! tid)
      (Requests.of_transfer tid rs) /\
  Requests.handle_all rs σ
  = Background.set_chunkStorage
      (Background.chunkStorage (Requests.handle_all rs σ)) σ.
Proof. split; [apply handle_all_lookup|apply handle_all_frame]. Qed.

Lemma advance_all_existing st rs :
  Requests.advance_all (Some st) rs
  = Some (Background.mkTransfer
            (Run.fill ((fun r => (Requests.chunkIndex r, Requests.chunk r)) <$> rs)
                      (Background.chunks st))
            (Background.totalChunks st)
            (Background.received st + length rs)).
Proof.
  revert st. induction rs as [|r rs IH]; intros st.
  - cbn. rewrite Nat.add_0_r. now destruct st.
  - change (Requests.advance_all (Some st) (r :: rs))
      with (Requests.advance_all (Some (Requests.advance (Some st) r)) rs).
    rewrite IH. cbn [Requests.advance Background.chunks Background.totalChunks
                     Background.received fmap list_fmap length].
    f_equal. f_equal. lia.
Qed.

Lemma advance_all_fresh r rs :
  Requests.advance_all None (r :: rs)
  = Some (Background.mkTransfer
            (Run.fill ((fun r => (Requests.chunkIndex r, Requests.chunk r))
                         <$> r :: rs)
                      (JS.new_Array (Requests.totalChunks r)))
            (Requests.totalChunks r) (S (length rs))).
Proof.
  change (Requests.advance_all None (r :: rs))
    with (Requests.advance_all (Some (Requests.advance None r)) rs).
  now rewrite advance_all_existing.
Qed.

(** X7 — The gate counts requests, and the first request fixes the
    count. For a transfer that starts fresh, after any interleaving of
    chunk requests the process request compares the number of requests the
    transfer has had with the total its first request declared, whatever
    the later ones declared and whatever their indices: when the two are
    equal it returns the array joined, an index written twice or not at
    all notwithstanding; otherwise it throws the incomplete-transfer
    error with both numbers. *)
Theorem gate_counts_requests (rs : list Requests.ChunkRequest)
    (σ : Background.State) (tid : string) (r : Requests.ChunkRequest)
    (rest : list Requests.ChunkRequest) :
  Background.chunkStorage σ !! tid = None ->
  Requests.of_transfer tid rs = r :: rest ->
  fst (Background.handleExtractZipProcess_collect tid
         (Requests.handle_all rs σ))
  = if S (length rest) =? Requests.totalChunks r
    then Returned
           (JS.array_join
              (Run.fill
                 ((fun r => (Requests.chunkIndex r, Requests.chunk r))
                    <$> r :: rest)
                 (JS.new_Array (Requests.totalChunks r))))
    else Thrown ("Incomplete transfer: received " +:+ pretty (S (length rest))
                 +:+ "/" +:+ pretty (Requests.totalChunks r) +:+ " chunks").
Proof.
  intros Hnone Hrs. unfold Background.handleExtractZipProcess_collect.
  rewrite handle_all_lookup, Hnone, Hrs, advance_all_fresh.
  cbn [Background.received Background.totalChunks Background.chunks].
  now destruct (S (length rest) =? Requests.totalChunks r).
Qed.

Lemma gate_counts_requests_witness :
  fst (Background.handleExtractZipProcess_collect "t1"
         (Requests.handle_all
            [Requests.mkChunkRequest "t1" 0 2 "ab";
             Requests.mkChunkRequest "t2" 0 1 "xy";
             Requests.mkChunkRequest "t1" 0 5 "cd"]
            Background.initial))
  = Returned "cd".
Proof.
  apply (gate_counts_requests
           [Requests.mkChunkRequest "t1" 0 2 "ab";
            Requests.mkChunkRequest "t2" 0 1 "xy";
            Requests.mkChunkRequest "t1" 0 5 "cd"]
           Background.initial "t1"
           (Requests.mkChunkRequest "t1" 0 2 "ab")
           [Requests.mkChunkRequest "t1" 0 5 "cd"]); reflexivity.
Defined.

(** X8 — A transfer that has had too many requests never passes the
    gate. Once a fresh transfer has had more chunk requests than its
    first request declared, the process request throws and leaves the
    state as it is, and so it does after any further chunk requests. *)
Theorem over_delivery_never_recovers (rs more : list Requests.ChunkRequest)
    (σ : Background.State) (tid : string) (r : Requests.ChunkRequest)
    (rest : list Requests.ChunkRequest) :
  Background.chunkStorage σ !! tid = None ->
  Requests.of_transfer tid rs = r :: rest ->
  Requests.totalChunks r < S (length rest) ->
  exists message,
    Background.handleExtractZipProcess_collect tid
      (Requests.handle_all (rs ++ more) σ)
    = (Thrown message, Requests.handle_all (rs ++ more) σ).
Proof.
  intros Hnone Hrs Hover. unfold Background.handleExtractZipProcess_collect.
  rewrite handle_all_lookup, Hnone. unfold Requests.of_transfer.
  rewrite List.filter_app. fold (Requests.of_transfer tid rs).
  fold (Requests.of_transfer tid more). rewrite Hrs.
  rewrite <- app_comm_cons, advance_all_fresh.
  cbn [Background.received Background.totalChunks Background.chunks].
  destruct (S (length (rest ++ Requests.of_transfer tid more))
            =? Requests.totalChunks r) eqn:E.
  - apply Nat.eqb_eq in E. rewrite length_app in E. lia.
  - eexists. reflexivity.
Qed.

Lemma over_delivery_never_recovers_witness :
  exists message,
    Background.handleExtractZipProcess_collect "t1"
      (Requests.handle_all
         ([Requests.mkChunkRequest "t1" 0 1 "ab";
           Requests.mkChunkRequest "t1" 0 1 "ab"] ++
          [Requests.mkChunkRequest "t1" 1 1 "cd"])
         Background.initial)
    = (Thrown message,
       Requests.handle_all
         ([Requests.mkChunkRequest "t1" 0 1 "ab";
           Requests.mkChunkRequest "t1" 0 1 "ab"] ++
          [Requests.mkChunkRequest "t1" 1 1 "cd"])
         Background.initial).
Proof.
  apply (over_delivery_never_recovers
           [Requests.mkChunkRequest "t1" 0 1 "ab";
            Requests.mkChunkRequest "t1" 0 1 "ab"]
           [Requests.mkChunkRequest "t1" 1 1 "cd"]
           Background.initial "t1"
           (Requests.mkChunkRequest "t1" 0 1 "ab")
           [Requests.mkChunkRequest "t1" 0 1 "ab"]);
    [reflexivity|reflexivity|cbn; lia].
Defined.

(** *** Downloads *)

Lemma loaded_sum (chunks : list (list byte)) (n : nat) :
  foldl (fun loaded value => loaded + length value) n chunks
  = n + length (concat chunks).
Proof.
  revert n. induction chunks as [|c chunks IH]; intros n; cbn [foldl concat].
  - cbn. lia.
  - rewrite IH, length_app. lia.
Qed.

Lemma typed_set_next (done chunk : list byte) (n : nat) :
  Fetch.typed_set chunk (length done)
    (done ++ replicate (length chunk + n) x00)
  = Returned ((done ++ chunk) ++ replicate n x00).
Proof.
  unfold Fetch.typed_set.
  rewrite length_app, length_replicate.
  destruct (_ <=? _) eqn:E; [|apply Nat.leb_gt in E; lia].
  rewrite take_app_length, drop_app_add, drop_replicate.
  replace (length chunk + n - length chunk) with n by lia.
  now rewrite <- app_assoc.
Qed.

Lemma copy_loop (chunks : list (list byte)) (done : list byte) :
  foldl (fun acc chunk =>
           '(u, position) ← acc;
           u' ← Fetch.typed_set chunk position u;
           mret (u', position + length chunk))
        (mret (done ++ replicate (length (concat chunks)) x00, length done))
        chunks
  = Returned (done ++ concat chunks, length done + length (concat chunks)).
Proof.
  revert done. induction chunks as [|c chunks IH]; intros done.
  - cbn. rewrite Nat.add_0_r. reflexivity.
  - cbn [foldl concat]. rewrite length_app.
    change (mret (?u, ?p) ≫= ?f) with (f (u, p)). cbv beta iota.
    rewrite typed_set_next.
    change (Returned ?u ≫= ?f) with (f u). cbv beta.
    replace (length done + length c) with (length (done ++ c))
      by apply length_app.
    change (mret ?x) with (@Returned (list byte * nat) x) at 1.
    change (@Returned (list byte * nat) ?x) with (@mret outcome _ _ x) at 1.
    rewrite IH, <- app_assoc, length_app. f_equal. f_equal. lia.
Qed.

Lemma assemble_concat (chunks : list (list byte)) :
  Fetch.assemble chunks = Returned (concat chunks).
Proof.
  unfold Fetch.assemble. cbv zeta. rewrite loaded_sum.
  change (0 + length (concat chunks)) with (length (concat chunks)).
  pose proof (copy_loop chunks []) as H. cbn [app length Nat.add] in H.
  rewrite H. reflexivity.
Qed.

(** X10 — A download is the concatenation of what was read. Whatever
    chunks the reader of the body yields, the copy loop never writes
    outside the array it allocated, and the bytes handed on are the
    chunks one after the other; an answer that is not [ok] throws the
    fetch error with its status, and a failure of [fetch] or of a read is
    passed on. *)
Theorem download_is_concatenation (fetched : outcome Fetch.Response) :
  Fetch.download fetched
  = match fetched with
    | Thrown message => Thrown message
    | Returned response =>
        if Fetch.ok response then
          match Fetch.body response with
          | Returned chunks => Returned (concat chunks)
          | Thrown message => Thrown message
          end
        else Thrown ("Fetch failed: " +:+ pretty (Fetch.status response))
    end.
Proof.
  destruct fetched as [[[] status [chunks|message]]|message];
    try reflexivity.
  unfold Fetch.download. cbn. apply assemble_concat.
Qed.

(** *** The extension given to the engine *)

Lemma extension_regexp_known s ext :
  Worker.extension_regexp s = Some ext -> ext ∈ Worker.alternatives.
Proof.
  induction s as [|c s IH]; [discriminate|]. cbn [Worker.extension_regexp].
  destruct (if Ascii.eqb c "." then _ else None) as [e|] eqn:E.
  - intros [= ->]. destruct (Ascii.eqb c "."); [|discriminate].
    apply find_some in E as [E _]. now apply list_elem_of_In.
  - exact IH.
Qed.

(** X11 — The engine's input name has one of seven endings. Whatever
    the URL of a transcode job, the extension [getExtension] takes from
    it is one of the alternatives of the pattern, [avi] when the pattern
    does not match; so the name of the file written for the engine is
    one of seven fixed names. *)
Theorem extension_is_known (toLowerCase : string -> string) (url : string) :
  Worker.getExtension toLowerCase url ∈ Worker.alternatives.
Proof.
  unfold Worker.getExtension.
  destruct (Worker.extension_regexp (toLowerCase url)) as [ext|] eqn:E.
  - now apply extension_regexp_known in E.
  - apply list_elem_of_In. now left.
Qed.

Lemma startsWith_dot ext c rest :
  JS.startsWith ("." +:+ ext) (String c rest)
  = Ascii.eqb c "." && JS.startsWith ext rest.
Proof.
  unfold JS.startsWith. change ("." +:+ ext) with (String "." ext).
  cbn [String.prefix].
  destruct (ascii_dec "." c) as [<-|Hne].
  - reflexivity.
  - destruct (Ascii.eqb c ".") eqn:E; [|reflexivity].
    apply Ascii.eqb_eq in E. congruence.
Qed.

Lemma extension_regexp_none s ext :
  Worker.extension_regexp s = None ->
  ext ∈ Worker.alternatives ->
  Links.includes ("." +:+ ext) s = false.
Proof.
  intros Hnone Hext. induction s as [|c s IH]; [reflexivity|].
  cbn [Worker.extension_regexp] in Hnone.
  destruct (if Ascii.eqb c "." then _ else None) as [e|] eqn:E;
    [discriminate|].
  cbn [Links.includes]. rewrite (IH Hnone), orb_false_r, startsWith_dot.
  destruct (Ascii.eqb c "."); [|reflexivity].
  cbn [andb]. apply list_elem_of_In in Hext.
  exact (find_none _ _ E _ Hext).
Qed.

(** X12 — A link sent for transcoding has an extension the worker
    finds. When [needsTranscoding] accepts a link, [isVideoLink] accepts
    it too, and the pattern of [getExtension] matches its lower-cased
    text, so the default is not what names the engine's input. *)
Theorem transcode_link_extension_is_found (toLowerCase : string -> string)
    (href : string) :
  Links.needsTranscoding toLowerCase (Some href) = true ->
  Links.isVideoLink toLowerCase (Some href) = true /\
  Worker.extension_regexp (toLowerCase href)
  = Some (Worker.getExtension toLowerCase href).
Proof.
  unfold Links.needsTranscoding, Links.isVideoLink, Worker.getExtension.
  destruct (negb (JS.truthy href)); [discriminate|]. cbv zeta.
  intros H. split.
  - rewrite existsb_app, H. apply orb_true_r.
  - destruct (Worker.extension_regexp (toLowerCase href)) eqn:E;
      [reflexivity|].
    apply existsb_exists in H as (ext & Hin & Hinc).
    assert (exists e, ext = "." +:+ e /\ e ∈ Worker.alternatives)
      as (e & -> & He).
    { cbn in Hin.
      repeat (destruct Hin as [<-|Hin];
              [eexists; split; [reflexivity|];
               apply list_elem_of_In; cbn; tauto|]).
      contradiction. }
    rewrite (extension_regexp_none _ _ E He) in Hinc. discriminate.
Qed.

Lemma transcode_link_extension_is_found_witness :
  Links.isVideoLink Run.lower (Some "https://x.org/S1.AVI?download=1") = true /\
  Worker.extension_regexp (Run.lower "https://x.org/S1.AVI?download=1")
  = Some (Worker.getExtension Run.lower "https://x.org/S1.AVI?download=1").
Proof.
  apply (transcode_link_extension_is_found Run.lower
           "https://x.org/S1.AVI?download=1").
  reflexivity.
Defined.

(** *** The wait for the port *)

Lemma poll_spec connected a fuel :
  a <= 50 -> 50 - a < fuel ->
  exists n,
    Port.poll connected a fuel = Some n /\
    a <= n <= 50 /\
    (forall k, a <= k < n -> connected k = false) /\
    (connected n = false -> n = 50).
Proof.
  revert a. induction fuel as [|fuel IH]; intros a Ha Hfuel; [lia|].
  cbn [Port.poll].
  destruct (connected a) eqn:Ec; cbn [negb andb].
  - exists a. repeat split; try lia. congruence.
  - destruct (a <? 50) eqn:E.
    + apply Nat.ltb_lt in E.
      destruct (IH (S a)) as (n & Hn & Hr & Hbefore & Hlast); [lia..|].
      exists n. split; [exact Hn|]. split; [lia|]. split; [|exact Hlast].
      intros k Hk. destruct (decide (k = a)) as [->|]; [exact Ec|].
      apply Hbefore. lia.
    + apply Nat.ltb_ge in E. exists a. repeat split; try lia.
Qed.

(** X13 — The wait for the port is bounded and misses nothing. The
    polling loop of [ensureOffscreenDocument] ends within 51 looks at
    [offscreenPort], one before each of at most 50 sleeps of 100 ms and
    one after the last. It throws the did-not-connect error exactly when
    the port was unset at every look, and otherwise goes on after the
    first look that found the port set. *)
Theorem port_wait_is_bounded (connected : nat -> bool) :
  (forall fuel, 51 <= fuel ->
     Port.awaitPort connected fuel = Port.awaitPort connected 51) /\
  (Port.awaitPort connected 51
   = Some (Thrown "Offscreen document did not connect") <->
   forall k, k <= 50 -> connected k = false) /\
  (forall n,
     Port.awaitPort connected 51 = Some (Returned n) <->
     n <= 50 /\ connected n = true /\ forall k, k < n -> connected k = false).
Proof.
  destruct (poll_spec connected 0 51) as (n & Hn & Hr & Hbefore & Hlast);
    [lia..|].
  assert (Port.awaitPort connected 51
          = Some (if negb (connected n)
                  then Thrown "Offscreen document did not connect"
                  else Returned n)) as E.
  { unfold Port.awaitPort. rewrite Hn. cbn. now destruct (connected n). }
  split; [|split].
  - intros fuel Hfuel.
    destruct (poll_spec connected 0 fuel) as (m & Hm & Hr' & Hb' & Hl');
      [lia..|].
    assert (m = n) as ->.
    { destruct (Nat.lt_trichotomy m n) as [Hlt|[Heq|Hgt]]; [|exact Heq|].
      - specialize (Hbefore m ltac:(lia)). specialize (Hl' Hbefore). lia.
      - specialize (Hb' n ltac:(lia)). specialize (Hlast Hb'). lia. }
    rewrite E. unfold Port.awaitPort. rewrite Hm. cbn.
    now destruct (connected n).
  - rewrite E. destruct (connected n) eqn:Ec; cbn [negb]; split.
    + discriminate.
    + intros H. rewrite (H n) in Ec by lia. discriminate.
    + intros _ k Hk. specialize (Hlast eq_refl). subst n.
      destruct (decide (k = 50)) as [->|]; [exact Ec|].
      apply Hbefore. lia.
    + reflexivity.
  - intros m. rewrite E. destruct (connected n) eqn:Ec; cbn [negb]; split.
    + intros [= <-]. repeat split; [lia|exact Ec|].
      intros k Hk. apply Hbefore. lia.
    + intros (Hm & Hc & Hb). do 2 f_equal.
      destruct (Nat.lt_trichotomy m n) as [Hlt|[Heq|Hgt]]; [|now symmetry|].
      * rewrite Hbefore in Hc by lia. discriminate.
      * rewrite Hb in Ec by lia. discriminate.
    + discriminate.
    + intros (Hm & Hc & Hb). specialize (Hlast eq_refl). subst n.
      destruct (decide (m = 50)) as [->|]; [congruence|].
      rewrite Hbefore in Hc by lia. discriminate.
Qed.

(** *** The two ways to an archive *)

Lemma find_filter_head {A} (f : A -> bool) (l : list A) :
  List.find f l = head (List.filter f l).
Proof.
  induction l as [|x l IH]; [reflexivity|]. cbn [List.find List.filter].
  now destruct (f x).
Qed.

(** X14 — On an archive with one video the two extraction jobs agree.
    When both requests of [extractZipVideo] are answered [ok], the
    archive read from the second holds exactly one entry that counts as
    a video, and the engine's output does not depend on the index in the
    names of its files, the job on the URL returns what
    [extractZipFromData] returns for the same bytes as encoded by the
    content script. *)
Theorem url_and_data_jobs_agree
    (toLowerCase : string -> string) (localeCompare : string -> string -> Z)
    (fetch : nat -> string -> outcome Fetch.Response)
    (JSZip_loadAsync : list byte -> outcome (list Offscreen.ZipEntry))
    (loadFFmpeg : outcome unit)
    (ffmpeg_run : string -> string -> list byte -> outcome (list byte))
    (zipUrl : string) (first : Fetch.Response) (status : nat)
    (chunks : list (list byte)) (files : list Offscreen.ZipEntry)
    (videoFile : Offscreen.ZipEntry) :
  fetch 0 zipUrl = Returned first ->
  Fetch.ok first = true ->
  fetch 1 zipUrl = Returned (Fetch.mkResponse true status (Returned chunks)) ->
  JSZip_loadAsync (concat chunks) = Returned files ->
  List.filter (Offscreen.isVideoFile toLowerCase) files = [videoFile] ->
  (forall ext data,
     ffmpeg_run ("input." +:+ ext) "output.mp4" data
     = ffmpeg_run ("input_0." +:+ ext) "output_0.mp4" data) ->
  Worker.extractZipVideo toLowerCase fetch JSZip_loadAsync loadFFmpeg
    ffmpeg_run zipUrl
  = Offscreen.extractZipFromData toLowerCase localeCompare JSZip_loadAsync
      (Worker.ffmpeg_transcode loadFFmpeg ffmpeg_run)
      (Content.toBase64 (concat chunks)).
Proof.
  intros Hfirst Hok Hsecond Hzip Hone Hengine.
  destruct (upload_encoding_round_trip (concat chunks)) as [Hatob Hbytes].
  rewrite (extractZipFromData_unfold _ _ _ _ _ _ files Hatob)
    by (rewrite Hbytes; exact Hzip).
  cbv zeta. rewrite Hone. cbn [length Nat.eqb Offscreen.sort_by
                               Offscreen.insert_by Offscreen.extractFrom].
  unfold Worker.extractZipVideo. rewrite Hfirst.
  change (Returned first ≫= ?f) with (f first). cbv beta. rewrite Hok.
  cbn [negb]. rewrite Hsecond. unfold Fetch.download.
  change (Returned ?r ≫= ?f) with (f r). cbv beta.
  cbn [Fetch.ok Fetch.body negb].
  change (Returned chunks ≫= ?f) with (f chunks). cbv beta.
  rewrite assemble_concat.
  change (Returned (concat chunks) ≫= ?f) with (f (concat chunks)). cbv beta.
  rewrite Hzip.
  change (Returned files ≫= ?f) with (f files). cbv beta.
  rewrite find_filter_head, Hone. cbn [head].
  unfold Offscreen.extractOne. cbv zeta.
  destruct (Offscreen.async_uint8array videoFile) as [videoData|message];
    [|reflexivity].
  change (Returned videoData ≫= ?f) with (f videoData). cbv beta.
  destruct (bool_decide (_ ∈ Offscreen.NATIVE_FORMATS)); [reflexivity|].
  unfold Worker.ffmpeg_transcode.
  destruct loadFFmpeg as [[]|message]; [|reflexivity].
  change (Returned tt ≫= ?f) with (f tt). cbv beta.
  rewrite Hengine.
  change ("input_" +:+ pretty 0 +:+ "." +:+ ?ext) with ("input_0." +:+ ext).
  change ("output_" +:+ pretty 0 +:+ ".mp4") with "output_0.mp4".
  now destruct (ffmpeg_run _ _ videoData).
Qed.

Lemma url_and_data_jobs_agree_witness :
  let fetch := fun (_ : nat) (_ : string) =>
    Returned (Fetch.mkResponse true 200 (Returned [[x50; x4b]; [x21]])) in
  Worker.extractZipVideo Run.lower fetch Run.single_loader (Returned ())
    Run.identity_engine "https://x.org/movie_S1.zip"
  = Offscreen.extractZipFromData Run.lower Run.code_unit_order
      Run.single_loader
      (Worker.ffmpeg_transcode (Returned ()) Run.identity_engine)
      (Content.toBase64 (concat [[x50; x4b]; [x21]])).
Proof.
  intros fetch.
  apply (url_and_data_jobs_agree Run.lower Run.code_unit_order fetch
           Run.single_loader (Returned ()) Run.identity_engine
           "https://x.org/movie_S1.zip"
           (Fetch.mkResponse true 200 (Returned [[x50; x4b]; [x21]])) 200
           [[x50; x4b]; [x21]]
           [Offscreen.mkEntry "readme.md" false (Returned [x41]);
            Offscreen.mkEntry "movie.M4V" false (Returned [x00; x01; xff])]
           (Offscreen.mkEntry "movie.M4V" false (Returned [x00; x01; xff])));
    reflexivity.
Defined.

(** *** Whole runs *)

Lemma settle_frame p s σ :
  Background.chunkStorage (Background.settle p s σ) = Background.chunkStorage σ /\
  Background.resultStorage (Background.settle p s σ)
  = Background.resultStorage σ.
Proof.
  unfold Background.settle.
  destruct (Background.promises σ !! p) as [[?|]|]; split; reflexivity.
Qed.

Lemma onPortMessage_frame JSON_parse m σ :
  Background.chunkStorage (Background.onPortMessage JSON_parse m σ)
  = Background.chunkStorage σ /\
  Background.resultStorage (Background.onPortMessage JSON_parse m σ)
  = Background.resultStorage σ.
Proof.
  destruct m; cbn [Background.onPortMessage];
    repeat match goal with
      | |- context [match ?x with _ => _ end] => destruct x
      end;
    cbn [Background.chunkStorage Background.resultStorage
         Background.set_pendingTranscode Background.set_chunkedResult
         Background.set_offscreenReady Background.tabs_sendMessage];
    try (split; reflexivity);
    match goal with
    | |- context [Background.settle ?p ?s ?σ'] =>
        destruct (settle_frame p s σ') as [-> ->]
    end;
    split; reflexivity.
Qed.

Lemma deliver_frame JSON_parse ms σ :
  Background.chunkStorage (Delivery.deliver JSON_parse σ ms)
  = Background.chunkStorage σ /\
  Background.resultStorage (Delivery.deliver JSON_parse σ ms)
  = Background.resultStorage σ.
Proof.
  revert σ. induction ms as [|m ms IH]; intros σ; [split; reflexivity|].
  change (Delivery.deliver JSON_parse σ (m :: ms))
    with (Delivery.deliver JSON_parse
            (Background.onPortMessage JSON_parse m σ) ms).
  destruct (IH (Background.onPortMessage JSON_parse m σ)) as [-> ->].
  apply onPortMessage_frame.
Qed.

Lemma arrived_size MAX result :
  Background.totalSize (Delivery.arrived MAX result)
  = Offscreen.totalSize result.
Proof.
  unfold Delivery.arrived.
  destruct (Offscreen.totalSize result <=? MAX); now destruct result.
Qed.

Lemma media_arrived MAX result :
  Session.media (Delivery.arrived MAX result) = Session.media result.
Proof.
  unfold Delivery.arrived.
  destruct (Offscreen.totalSize result <=? MAX); now destruct result.
Qed.

(** What a reply of the offscreen document does to a waiting handler. *)
Lemma reply_settles MAX JSON_stringify JSON_parse σ p (r : outcome Result) :
  1 <= MAX ->
  Background.pendingTranscode σ = Some p ->
  Background.promises σ !! p = Some None ->
  r <> Thrown "" ->
  (forall videos,
     r = Returned (Multiple videos) ->
     JSON_parse (JSON_stringify (Multiple videos)) = Some (Multiple videos)) ->
  let σ' :=
    Delivery.deliver JSON_parse σ (Offscreen.reply MAX JSON_stringify r) in
  Session.awaited p σ'
  = Some match r with
         | Returned result => Returned (Some (Delivery.arrived MAX result))
         | Thrown message => Thrown message
         end /\
  Background.pendingTranscode σ' = None.
Proof.
  intros HM Hslot Hpending Hr Hparse σ'. unfold Session.awaited.
  destruct r as [result|message].
  - cbn [Offscreen.reply] in σ'. unfold Delivery.arrived.
    destruct (Offscreen.totalSize result <=? MAX) eqn:E.
    + unfold σ', Offscreen.sendResult. rewrite E.
      cbn [Delivery.deliver foldl Background.onPortMessage]. rewrite Hslot.
      cbn [Background.promises Background.set_pendingTranscode
           Background.pendingTranscode].
      now rewrite (settle_promises_pending _ _ _ Hpending).
    + apply Nat.leb_gt in E.
      destruct (chunked_result_resolves MAX JSON_stringify JSON_parse σ p
                  result HM Hslot Hpending E) as (H1 & H2 & _).
      { intros videos ->. now apply Hparse. }
      unfold σ', Delivery.deliver. rewrite H1. split; [reflexivity|exact H2].
  - unfold σ'.
    cbn [Offscreen.reply Delivery.deliver foldl Background.onPortMessage].
    rewrite Hslot.
    cbn [Background.promises Background.set_pendingTranscode
         Background.pendingTranscode].
    rewrite (settle_promises_pending _ _ _ Hpending).
    destruct message; [contradiction|]. split; reflexivity.
Qed.

Lemma receive_all MAX σ rid stored data :
  1 <= MAX ->
  Background.resultStorage σ !! rid = Some stored ->
  Background.storedData stored = Returned data ->
  0 < String.length data ->
  Content.receive MAX rid (JS.ceil_div (String.length data) MAX) σ
  = (Returned data,
     Background.set_resultStorage (delete rid (Background.resultStorage σ)) σ).
Proof.
  intros HM Hs Hd Hpos.
  destruct (ceil_div_spec (String.length data) MAX HM) as [[Hlo Hhi]|[E _]];
    [|lia].
  pose proof (join_chunks MAX data HM) as Hjoin.
  unfold Chunking.totalChunks in Hjoin.
  set (n := JS.ceil_div (String.length data) MAX) in *. clearbody n.
  assert (1 <= n) as Hn by (destruct n; lia).
  unfold Content.receive.
  replace n with (S (n - 1)) at 1 by lia.
  erewrite pull_through; try eassumption.
  - replace (S (n - 1)) with n by lia. now rewrite Hjoin.
  - replace (0 + (n - 1) + 1) with n by lia. exact Hhi.
Qed.

Section session_lemmas.

Variable MAX : nat.
Variable toLowerCase : string -> string.
Variable localeCompare : string -> string -> Z.
Variable JSON_stringify : Result -> string.
Variable JSON_parse : string -> option Result.
Variable JSZip_loadAsync : list byte -> outcome (list Offscreen.ZipEntry).
Variable fetch : nat -> string -> outcome Fetch.Response.
Variable loadFFmpeg : outcome unit.
Variable ffmpeg_run : string -> string -> list byte -> outcome (list byte).

Local Abbreviation outcome_of :=
  (Session.outcome_of toLowerCase localeCompare JSZip_loadAsync fetch
     loadFFmpeg ffmpeg_run).
Local Abbreviation offscreen :=
  (Session.offscreen MAX toLowerCase localeCompare JSON_stringify JSON_parse
     JSZip_loadAsync fetch loadFFmpeg ffmpeg_run).
Local Abbreviation onMessage :=
  (Session.onMessage MAX toLowerCase localeCompare JSON_stringify JSON_parse
     JSZip_loadAsync fetch loadFFmpeg ffmpeg_run).
Local Abbreviation decode := (Session.decode MAX JSON_parse).
Local Abbreviation sendChunks :=
  (Session.sendChunks MAX toLowerCase localeCompare JSON_stringify JSON_parse
     JSZip_loadAsync fetch loadFFmpeg ffmpeg_run).

Hypothesis ceiling : 1 <= MAX.

(** One job, from the messages of its handler to the settled promise. *)
Lemma job_cycle σ σ1 p ms ci ci' job :
  Background.promises σ1 = Background.promises σ ++ [None] ->
  p = length (Background.promises σ) ->
  Background.pendingTranscode σ1 = Some p ->
  Background.posted σ1 = Background.posted σ ++ ms ->
  Offscreen.onMessages ms ci = (ci', [job]) ->
  outcome_of job <> Thrown "" ->
  (forall videos,
     outcome_of job = Returned (Multiple videos) ->
     JSON_parse (JSON_stringify (Multiple videos)) = Some (Multiple videos)) ->
  let w1 := offscreen σ σ1 ci in
  Session.awaited p (Session.background w1)
  = Some match outcome_of job with
         | Returned result => Returned (Some (Delivery.arrived MAX result))
         | Thrown message => Thrown message
         end /\
  Background.pendingTranscode (Session.background w1) = None /\
  Background.chunkStorage (Session.background w1) = Background.chunkStorage σ1 /\
  Background.resultStorage (Session.background w1)
  = Background.resultStorage σ1 /\
  Session.chunkedInput w1 = ci'.
Proof.
  intros Hps -> Hslot Hposted Hms Hr Hparse w1.
  assert (w1 = Session.mkWorld
                 (Delivery.deliver JSON_parse σ1
                    (Offscreen.reply MAX JSON_stringify (outcome_of job)))
                 ci') as ->.
  { unfold w1, Session.offscreen. cbv zeta.
    rewrite Hposted, drop_app_length, Hms.
    cbn [mbind list_bind]. unfold Session.runJob. now rewrite app_nil_r. }
  cbn [Session.background Session.chunkedInput].
  assert (Background.promises σ1 !! length (Background.promises σ) = Some None)
    as Hpending by (rewrite Hps; now apply list_lookup_middle).
  destruct (reply_settles MAX JSON_stringify JSON_parse σ1 _ (outcome_of job)
              ceiling Hslot Hpending Hr Hparse) as [H1 H2].
  destruct (deliver_frame JSON_parse
              (Offscreen.reply MAX JSON_stringify (outcome_of job)) σ1)
    as [H3 H4].
  repeat split; assumption.
Qed.

Lemma whole_path σ ci zipBase64 later tabId :
  let r := outcome_of (Offscreen.extractZipData zipBase64 tabId) in
  r <> Thrown "" ->
  (forall videos,
     r = Returned (Multiple videos) ->
     JSON_parse (JSON_stringify (Multiple videos)) = Some (Multiple videos)) ->
  exists answer w1 w2,
    onMessage later tabId (EXTRACT_ZIP_DATA_WHOLE zipBase64)
      (Session.mkWorld σ ci) = (Some answer, w1) /\
    decode answer w1 = (r ≫= Session.media, w2) /\
    Background.chunkStorage (Session.background w2)
    = Background.chunkStorage σ /\
    Session.nothing_stored (Session.background w2) σ /\
    Background.pendingTranscode (Session.background w2) = None /\
    Session.chunkedInput w2 = ci.
Proof.
  intros r Hr Hparse.
  unfold Session.onMessage. cbn [Session.background Session.chunkedInput].
  destruct (Background.handleExtractZipData zipBase64 tabId σ) as [p σ1] eqn:Eh.
  unfold Background.handleExtractZipData, Background.newResultPromise in Eh.
  injection Eh as <- <-.
  match goal with
  | |- context [offscreen σ ?s ci] => set (σ1 := s)
  end.
  destruct (job_cycle σ σ1 (length (Background.promises σ))
              [EXTRACT_ZIP_DATA zipBase64 tabId] ci ci
              (Offscreen.extractZipData zipBase64 tabId))
    as (Hawait & Hslot & Hcs & Hrs & Hci); try reflexivity; try assumption.
  set (w1 := offscreen σ σ1 ci) in *.
  rewrite Hawait. fold r.
  destruct r as [result|message] eqn:Er.
  - rewrite extractZipData_response_rule.
    change (Returned result ≫= Session.media) with (Session.media result).
    rewrite <- (media_arrived MAX result).
    destruct (Delivery.arrived MAX result) as [b m nt|videos].
    + destruct (MAX <? String.length b) eqn:E.
      * apply Nat.ltb_lt in E. do 3 eexists. split; [reflexivity|].
        unfold Session.decode.
        cbn [Session.error_of Session.background Session.chunkedInput].
        erewrite receive_all;
          [|exact ceiling|cbn; apply lookup_insert_eq|reflexivity|lia].
        split; [reflexivity|].
        cbn [Session.background Session.chunkedInput
             Background.chunkStorage Background.resultStorage
             Background.pendingTranscode Background.set_resultStorage].
        repeat split; try assumption.
        intros k v Hk.
        cbn [Background.resultStorage Background.set_resultStorage] in Hk.
        apply lookup_delete_Some in Hk as [Hne Hk].
        rewrite lookup_insert_ne in Hk by congruence.
        rewrite Hrs in Hk. exact Hk.
      * do 3 eexists. split; [reflexivity|]. split; [reflexivity|].
        unfold Session.nothing_stored. cbn [Session.background Session.chunkedInput].
        rewrite Hrs. repeat split; try assumption. trivial.
    + do 3 eexists. split; [reflexivity|]. split; [reflexivity|].
      unfold Session.nothing_stored. cbn [Session.background Session.chunkedInput].
      rewrite Hrs. repeat split; try assumption. trivial.
  - destruct message as [|c message]; [contradiction|].
    do 3 eexists. split; [reflexivity|]. split; [reflexivity|].
    unfold Session.nothing_stored. rewrite Hrs. repeat split; try assumption. trivial.
Qed.

Lemma sendChunks_run later tabId transferId zipBase64 n indices σ ci :
  sendChunks later tabId transferId zipBase64 n indices (Session.mkWorld σ ci)
  = (Some (Returned ()),
     Session.mkWorld
       (Run.upload_chunks transferId n
          ((fun i => (i, Chunking.chunkAt MAX zipBase64 i)) <$> indices) σ)
       ci).
Proof.
  revert σ. induction indices as [|i indices IH]; intros σ; [reflexivity|].
  cbn [Session.sendChunks Session.onMessage Session.background
       Session.chunkedInput].
  destruct (Background.handleExtractZipChunk transferId i n
              (Chunking.chunkAt MAX zipBase64 i) σ) as [[received total] σ1]
    eqn:E.
  cbn [Session.error_of]. rewrite IH. do 2 f_equal.
  rewrite fmap_cons. unfold Run.upload_chunks at 2. cbn [foldl fst snd].
  now rewrite E.
Qed.

Lemma indexed_zip {A} (f : nat -> A) (a n : nat) :
  (fun i => (i, f i)) <$> seq a n = zip (seq a n) (f <$> seq a n).
Proof.
  revert a. induction n as [|n IH]; intros a; [reflexivity|].
  cbn [seq fmap list_fmap zip zip_with]. f_equal. apply IH.
Qed.

Lemma collect_after_upload σ transferId zipBase64 :
  Background.chunkStorage σ !! transferId = None ->
  MAX < String.length zipBase64 ->
  let n := JS.ceil_div (String.length zipBase64) MAX in
  Background.handleExtractZipProcess_collect transferId
    (Run.upload_chunks transferId n
       ((fun i => (i, Chunking.chunkAt MAX zipBase64 i)) <$> seq 0 n) σ)
  = (Returned zipBase64, σ).
Proof.
  intros Hnone Hlen n.
  pose proof (join_chunks MAX zipBase64 ceiling) as Hjoin.
  unfold Chunking.totalChunks in Hjoin. fold n in Hjoin.
  assert (1 <= n) as Hn.
  { destruct (ceil_div_spec (String.length zipBase64) MAX ceiling)
      as [[_ H]|[H _]]; [|lia].
    fold n in H. destruct n; lia. }
  clearbody n.
  set (chunks := Chunking.chunkAt MAX zipBase64 <$> seq 0 n) in *.
  assert (length chunks = n) as Hchunks
    by (unfold chunks; now rewrite length_fmap, length_seq).
  set (msgs := (fun i => (i, Chunking.chunkAt MAX zipBase64 i)) <$> seq 0 n).
  assert (msgs = zip (seq 0 (length chunks)) chunks) as Hmsgs
    by (rewrite Hchunks; apply indexed_zip).
  assert (length msgs = n) as Hm
    by (unfold msgs; now rewrite length_fmap, length_seq).
  rewrite upload_chunks_fresh;
    [|exact Hnone|intros E; rewrite E in Hm; cbn in Hm; lia].
  unfold Background.handleExtractZipProcess_collect.
  cbn [Background.chunkStorage Background.set_chunkStorage].
  rewrite lookup_insert_eq.
  cbn [Background.received Background.totalChunks Background.chunks].
  rewrite Hm, Nat.eqb_refl. cbn [negb].
  rewrite <- Hchunks at 1. rewrite fill_complete by now rewrite Hmsgs.
  rewrite array_join_filled, Hjoin. f_equal.
  rewrite delete_insert_id by exact Hnone. now destruct σ.
Qed.

Lemma process_path σ ci zipBase64 transferId later tabId :
  Background.chunkStorage σ !! transferId = None ->
  MAX < String.length zipBase64 ->
  let r := outcome_of (Offscreen.extractZipData zipBase64 tabId) in
  r <> Thrown "" ->
  (forall videos,
     r = Returned (Multiple videos) ->
     JSON_parse (JSON_stringify (Multiple videos)) = Some (Multiple videos)) ->
  let n := JS.ceil_div (String.length zipBase64) MAX in
  exists answer w1 w2,
    onMessage later tabId (EXTRACT_ZIP_PROCESS transferId)
      (Session.mkWorld
         (Run.upload_chunks transferId n
            ((fun i => (i, Chunking.chunkAt MAX zipBase64 i)) <$> seq 0 n) σ)
         ci)
    = (Some answer, w1) /\
    decode answer w1 = (r ≫= Session.media, w2) /\
    Background.chunkStorage (Session.background w2)
    = Background.chunkStorage σ /\
    ((forall result, JSON_stringify result <> "") ->
     Session.nothing_stored (Session.background w2) σ) /\
    Background.pendingTranscode (Session.background w2) = None /\
    Session.chunkedInput w2 = None.
Proof.
  intros Hnone Hlen r Hr Hparse n. subst n.
  unfold Session.onMessage. cbn [Session.background Session.chunkedInput].
  rewrite (collect_after_upload σ transferId zipBase64 Hnone Hlen).
  destruct (Background.handleExtractZipProcess_dispatch MAX zipBase64 tabId σ)
    as [p σ1] eqn:Eh.
  unfold Background.handleExtractZipProcess_dispatch,
    Background.newResultPromise in Eh.
  injection Eh as <- <-.
  match goal with
  | |- context [offscreen σ ?s ci] => set (σ1 := s)
  end.
  destruct (job_cycle σ σ1 (length (Background.promises σ))
              (Background.toOffscreen MAX zipBase64 tabId) ci None
              (Offscreen.extractZipData zipBase64 tabId))
    as (Hawait & Hslot & Hcs & Hrs & Hci); try reflexivity; try assumption.
  { rewrite offscreen_reassembles by exact ceiling.
    apply Nat.ltb_lt in Hlen. rewrite Hlen. now destruct ci. }
  set (w1 := offscreen σ σ1 ci) in *.
  rewrite Hawait. fold r.
  destruct r as [result|message] eqn:Er.
  - change (Returned result ≫= Session.media) with (Session.media result).
    unfold Background.handleExtractZipProcess_response.
    rewrite arrived_size. unfold Delivery.arrived.
    destruct (MAX <? Offscreen.totalSize result) eqn:E.
    + apply Nat.ltb_lt in E.
      destruct (Offscreen.totalSize result <=? MAX) eqn:E';
        [apply Nat.leb_le in E'; lia|].
      destruct result as [b m nt|videos].
      * assert (0 < String.length b) as Hb.
        { cbn [Offscreen.totalSize] in E. destruct (JS.truthy b); lia. }
        do 3 eexists. split; [reflexivity|].
        unfold Session.decode.
        cbn [Session.error_of Session.background Session.chunkedInput].
        erewrite receive_all;
          [|exact ceiling|cbn; apply lookup_insert_eq|reflexivity|exact Hb].
        split; [reflexivity|].
        cbn [Session.background Session.chunkedInput
             Background.chunkStorage Background.resultStorage
             Background.pendingTranscode Background.set_resultStorage].
        repeat split; try assumption.
        intros _ k v Hk.
        cbn [Background.resultStorage Background.set_resultStorage] in Hk.
        apply lookup_delete_Some in Hk as [Hne Hk].
        rewrite lookup_insert_ne in Hk by congruence.
        rewrite Hrs in Hk. exact Hk.
      * specialize (Hparse videos eq_refl).
        set (json := JSON_stringify (Multiple videos)) in *.
        destruct (decide (String.length json = 0)) as [Hz|Hnz].
        -- assert (json = "") as Ej by (now destruct json).
           assert (JSON_parse "" = Some (Multiple videos)) as Hp0
             by (rewrite <- Ej; exact Hparse).
           do 3 eexists. split; [reflexivity|].
           unfold Session.decode.
           cbn [Session.error_of Session.background Session.chunkedInput].
           rewrite Hz.
           change (JS.ceil_div 0 MAX) with
             (0 / MAX + (if 0 mod MAX =? 0 then 0 else 1)).
           rewrite Nat.Div0.div_0_l, Nat.Div0.mod_0_l.
           cbn [Nat.eqb Nat.add Content.receive seq Content.pull JS.join
                String.concat].
           rewrite Hp0. split; [reflexivity|].
           cbn [Session.background Session.chunkedInput
                Background.chunkStorage Background.resultStorage
                Background.pendingTranscode Background.set_resultStorage].
           repeat split; try assumption.
           intros Hne. now destruct (Hne (Multiple videos)).
        -- do 3 eexists. split; [reflexivity|].
           unfold Session.decode.
           cbn [Session.error_of Session.background Session.chunkedInput].
           erewrite receive_all;
             [|exact ceiling|cbn; apply lookup_insert_eq|reflexivity|lia].
           rewrite Hparse. split; [reflexivity|].
           cbn [Session.background Session.chunkedInput
                Background.chunkStorage Background.resultStorage
                Background.pendingTranscode Background.set_resultStorage].
           repeat split; try assumption.
           intros _ k v Hk.
           cbn [Background.resultStorage Background.set_resultStorage] in Hk.
           apply lookup_delete_Some in Hk as [Hne Hk].
           rewrite lookup_insert_ne in Hk by congruence.
           rewrite Hrs in Hk. exact Hk.
    + apply Nat.ltb_ge in E. apply Nat.leb_le in E. rewrite E.
      do 3 eexists. split; [reflexivity|]. split; [reflexivity|].
      unfold Session.nothing_stored. cbn [Session.background Session.chunkedInput].
      rewrite Hrs. repeat split; try assumption. trivial.
  - destruct message as [|c message]; [contradiction|].
    do 3 eexists. split; [reflexivity|]. split; [reflexivity|].
    unfold Session.nothing_stored. rewrite Hrs. repeat split; try assumption. trivial.
Qed.

End session_lemmas.


(** A whole extraction, from the fetched bytes to what the page shows
    and what is left in the background. *)
Lemma zip_session (MAX : nat) (toLowerCase : string -> string)
    (localeCompare : string -> string -> Z)
    (JSON_stringify : Result -> string) (JSON_parse : string -> option Result)
    (JSZip_loadAsync : list byte -> outcome (list Offscreen.ZipEntry))
    (fetch : nat -> string -> outcome Fetch.Response)
    (loadFFmpeg : outcome unit)
    (ffmpeg_run : string -> string -> list byte -> outcome (list byte))
    (status : nat) (uint8Array : list byte) (now random later : string)
    (tabId : nat) (w : Session.World) :
  1 <= MAX ->
  Background.chunkStorage (Session.background w) !! (now +:+ random) = None ->
  let r :=
    Offscreen.extractZipFromData toLowerCase localeCompare JSZip_loadAsync
      (Worker.ffmpeg_transcode loadFFmpeg ffmpeg_run)
      (Content.toBase64 uint8Array) in
  r <> Thrown "" ->
  (forall videos,
     r = Returned (Multiple videos) ->
     JSON_parse (JSON_stringify (Multiple videos)) = Some (Multiple videos)) ->
  exists w',
    Session.extractZipVideo MAX toLowerCase localeCompare JSON_stringify
      JSON_parse JSZip_loadAsync fetch loadFFmpeg ffmpeg_run
      (Returned (Session.mkFetched true status (Returned uint8Array)))
      now random later tabId w
    = (Some (r ≫= Session.media), w') /\
    Background.chunkStorage (Session.background w')
    = Background.chunkStorage (Session.background w) /\
    ((forall result, JSON_stringify result <> "") ->
     Session.nothing_stored (Session.background w') (Session.background w)) /\
    Background.pendingTranscode (Session.background w') = None.
Proof.
  intros HM Hfresh r Hr Hparse. destruct w as [σ ci].
  cbn [Session.background] in *.
  unfold Session.extractZipVideo.
  cbn [Session.ok Session.arrayBuffer negb]. cbv zeta.
  set (zipBase64 := Content.toBase64 uint8Array) in *.
  destruct (MAX <? String.length zipBase64) eqn:E.
  - apply Nat.ltb_lt in E. rewrite sendChunks_run.
    destruct (process_path MAX toLowerCase localeCompare JSON_stringify
                JSON_parse JSZip_loadAsync fetch loadFFmpeg ffmpeg_run HM
                σ ci zipBase64 (now +:+ random) later tabId Hfresh E Hr Hparse)
      as (answer & w1 & w2 & H1 & H2 & H3 & H4 & H5 & _).
    rewrite H1, H2. exists w2. repeat split; assumption.
  - destruct (whole_path MAX toLowerCase localeCompare JSON_stringify
                JSON_parse JSZip_loadAsync fetch loadFFmpeg ffmpeg_run HM
                σ ci zipBase64 later tabId Hr Hparse)
      as (answer & w1 & w2 & H1 & H2 & H3 & H4 & H5 & _).
    rewrite H1, H2. exists w2. repeat split; try assumption.
    intros _. exact H4.
Qed.


(** X16 — An extraction leaves nothing behind. Under the same
    conditions, and with a serializer that never writes the empty text,
    when the content script is done the staging map is as it was before,
    the result store holds nothing it did not hold before, and the slot
    is empty. *)
Theorem extraction_leaves_nothing (MAX : nat) (toLowerCase : string -> string)
    (localeCompare : string -> string -> Z)
    (JSON_stringify : Result -> string) (JSON_parse : string -> option Result)
    (JSZip_loadAsync : list byte -> outcome (list Offscreen.ZipEntry))
    (fetch : nat -> string -> outcome Fetch.Response)
    (loadFFmpeg : outcome unit)
    (ffmpeg_run : string -> string -> list byte -> outcome (list byte))
    (status : nat) (uint8Array : list byte) (now random later : string)
    (tabId : nat) (w : Session.World) :
  1 <= MAX ->
  Background.chunkStorage (Session.background w) !! (now +:+ random) = None ->
  let r :=
    Offscreen.extractZipFromData toLowerCase localeCompare JSZip_loadAsync
      (Worker.ffmpeg_transcode loadFFmpeg ffmpeg_run)
      (Content.toBase64 uint8Array) in
  r <> Thrown "" ->
  (forall videos,
     r = Returned (Multiple videos) ->
     JSON_parse (JSON_stringify (Multiple videos)) = Some (Multiple videos)) ->
  (forall result, JSON_stringify result <> "") ->
  let w' :=
    snd (Session.extractZipVideo MAX toLowerCase localeCompare JSON_stringify
           JSON_parse JSZip_loadAsync fetch loadFFmpeg ffmpeg_run
           (Returned (Session.mkFetched true status (Returned uint8Array)))
           now random later tabId w) in
  Background.chunkStorage (Session.background w')
  = Background.chunkStorage (Session.background w) /\
  Session.nothing_stored (Session.background w') (Session.background w) /\
  Background.pendingTranscode (Session.background w') = None.
Proof.
  intros HM Hfresh r Hr Hparse Hne w'.
  destruct (zip_session MAX toLowerCase localeCompare JSON_stringify JSON_parse
              JSZip_loadAsync fetch loadFFmpeg ffmpeg_run status uint8Array
              now random later tabId w HM Hfresh Hr Hparse)
    as (w2 & E & H1 & H2 & H3).
  unfold w'. rewrite E. cbn [snd]. split; [exact H1|].
  split; [exact (H2 Hne)|exact H3].
Qed.


Lemma extraction_leaves_nothing_witness :
  let stringify := fun _ : Result => "{}" in
  let parse := fun _ : string => @None Result in
  let fetch := fun (_ : nat) (_ : string) =>
    @Thrown Fetch.Response "Failed to fetch" in
  let w := Session.mkWorld Background.initial None in
  let w' :=
    snd (Session.extractZipVideo 3 Run.lower Run.code_unit_order stringify
           parse Run.single_loader fetch (Returned ()) Run.identity_engine
           (Returned (Session.mkFetched true 200 (Returned [x50; x4b; x21])))
           "1700000000000" "k3j9x2a1q" "1700000000042" 7 w) in
  Background.chunkStorage (Session.background w')
  = Background.chunkStorage (Session.background w) /\
  Session.nothing_stored (Session.background w') (Session.background w) /\
  Background.pendingTranscode (Session.background w') = None.
Proof.
  intros stringify parse fetch w.
  apply (extraction_leaves_nothing 3 Run.lower Run.code_unit_order stringify
           parse Run.single_loader fetch (Returned ()) Run.identity_engine
           200 [x50; x4b; x21] "1700000000000" "k3j9x2a1q" "1700000000042"
           7 w).
  - lia.
  - reflexivity.
  - vm_compute. discriminate.
  - intros vs H. vm_compute in H. discriminate.
  - discriminate.
Defined.



(** *** Processing a transfer *)

Lemma collect_returned transferId σ zipBase64 σ' :
  Background.handleExtractZipProcess_collect transferId σ
  = (Returned zipBase64, σ') ->
  σ' = Background.set_chunkStorage
         (delete transferId (Background.chunkStorage σ)) σ.
Proof.
  unfold Background.handleExtractZipProcess_collect.
  destruct (Background.chunkStorage σ !! transferId); [|discriminate].
  destruct (negb _); [discriminate|]. now intros [= _ <-].
Qed.

Lemma offscreen_chunkStorage MAX toLowerCase localeCompare JSON_stringify
    JSON_parse JSZip_loadAsync fetch loadFFmpeg ffmpeg_run σ0 σ ci :
  Background.chunkStorage
    (Session.background
       (Session.offscreen MAX toLowerCase localeCompare JSON_stringify
          JSON_parse JSZip_loadAsync fetch loadFFmpeg ffmpeg_run σ0 σ ci))
  = Background.chunkStorage σ.
Proof.
  unfold Session.offscreen. cbv zeta.
  destruct (Offscreen.onMessages _ ci) as [ci' jobs].
  cbn [Session.background]. apply deliver_frame.
Qed.

Lemma process_response_chunkStorage MAX JSON_stringify transferId result σ :
  Background.chunkStorage
    (snd (Background.handleExtractZipProcess_response MAX JSON_stringify
            transferId result σ))
  = Background.chunkStorage σ.
Proof.
  unfold Background.handleExtractZipProcess_response.
  destruct (MAX <? _); [|reflexivity]. now destruct result.
Qed.

(** X9 — A transfer is processed at most once. A process request that
    the gate refuses, the transfer being unknown or incomplete, is
    answered with the error and leaves everything as it is. One that
    passes the gate removes the transfer and touches no other, so that a
    second process request for it throws the not-found error; and when
    the request is over the transfer is still gone, whatever became of
    the job: a result, an error of the worker, or no answer at all. *)
Theorem transfer_is_processed_once (MAX : nat)
    (toLowerCase : string -> string) (localeCompare : string -> string -> Z)
    (JSON_stringify : Result -> string) (JSON_parse : string -> option Result)
    (JSZip_loadAsync : list byte -> outcome (list Offscreen.ZipEntry))
    (fetch : nat -> string -> outcome Fetch.Response)
    (loadFFmpeg : outcome unit)
    (ffmpeg_run : string -> string -> list byte -> outcome (list byte))
    (later : string) (tabId : nat) (w : Session.World) (tid : string) :
  let σ := Session.background w in
  let request :=
    Session.onMessage MAX toLowerCase localeCompare JSON_stringify JSON_parse
      JSZip_loadAsync fetch loadFFmpeg ffmpeg_run later tabId
      (EXTRACT_ZIP_PROCESS tid) w in
  (forall message σ',
     Background.handleExtractZipProcess_collect tid σ = (Thrown message, σ') ->
     σ' = σ /\ request = (Some (Session.AnsweredError message), w)) /\
  (forall zipBase64 σ',
     Background.handleExtractZipProcess_collect tid σ
     = (Returned zipBase64, σ') ->
     Background.handleExtractZipProcess_collect tid σ'
     = (Thrown ("Transfer not found: " +:+ tid), σ') /\
     (forall other, other <> tid ->
        Background.chunkStorage σ' !! other
        = Background.chunkStorage σ !! other) /\
     Background.chunkStorage (Session.background (snd request)) !! tid = None /\
     Background.handleExtractZipProcess_collect tid
       (Session.background (snd request))
     = (Thrown ("Transfer not found: " +:+ tid),
        Session.background (snd request))).
Proof.
  intros σ request. split.
  - intros message σ' E.
    assert (σ' = σ) as ->.
    { unfold Background.handleExtractZipProcess_collect in E.
      destruct (Background.chunkStorage σ !! tid);
        [destruct (negb _)|]; now injection E. }
    split; [reflexivity|].
    unfold request, Session.onMessage. fold σ. rewrite E. now destruct w.
  - intros zipBase64 σ' E.
    pose proof (collect_returned _ _ _ _ E) as ->.
    assert (forall σ0,
              Background.chunkStorage σ0 !! tid = None ->
              Background.handleExtractZipProcess_collect tid σ0
              = (Thrown ("Transfer not found: " +:+ tid), σ0)) as Hgone.
    { intros σ0 H. unfold Background.handleExtractZipProcess_collect.
      now rewrite H. }
    assert (Background.chunkStorage (Session.background (snd request)) !! tid
            = None) as Hafter.
    { unfold request, Session.onMessage. fold σ. rewrite E.
      destruct (Background.handleExtractZipProcess_dispatch MAX zipBase64
                  tabId _) as [p σ2] eqn:Ed.
      assert (Background.chunkStorage σ2 !! tid = None) as H2.
      { unfold Background.handleExtractZipProcess_dispatch,
          Background.newResultPromise in Ed.
        injection Ed as _ <-.
        cbn [Background.chunkStorage Background.postMessage
             Background.set_timers Background.set_pendingTranscode
             Background.set_promises Background.set_chunkStorage].
        apply lookup_delete_eq. }
      match goal with
      | |- context [Session.offscreen _ _ _ _ _ _ _ _ _ ?s0 σ2 ?ci] =>
          pose proof (offscreen_chunkStorage MAX toLowerCase localeCompare
                        JSON_stringify JSON_parse JSZip_loadAsync fetch
                        loadFFmpeg ffmpeg_run s0 σ2 ci) as Hw;
          set (w1 := Session.offscreen MAX toLowerCase localeCompare
                       JSON_stringify JSON_parse JSZip_loadAsync fetch
                       loadFFmpeg ffmpeg_run s0 σ2 ci) in *
      end.
      destruct (Session.awaited p (Session.background w1))
        as [[[result|]|message]|]; cbn [snd Session.background];
        try (rewrite Hw; exact H2).
      destruct (Background.handleExtractZipProcess_response MAX JSON_stringify
                  tid result (Session.background w1)) as [response σ3] eqn:Er.
      cbn [snd Session.background].
      pose proof (process_response_chunkStorage MAX JSON_stringify tid result
                    (Session.background w1)) as H3.
      rewrite Er in H3. cbn [snd] in H3. rewrite H3, Hw. exact H2. }
    split; [|split; [|split]].
    + apply Hgone. cbn [Background.chunkStorage Background.set_chunkStorage].
      apply lookup_delete_eq.
    + intros other Hother.
      cbn [Background.chunkStorage Background.set_chunkStorage].
      now apply lookup_delete_ne.
    + exact Hafter.
    + apply Hgone, Hafter.
Qed.

(** *** Staging on the port *)

Lemma worker_fill msgs totalChunks arr received tabId tabId' :
  Offscreen.onMessages
    (((fun m => EXTRACT_ZIP_DATA_CHUNK m.1 m.2) <$> msgs) ++
     [EXTRACT_ZIP_DATA_END tabId'])
    (Some (Offscreen.mkInput totalChunks arr received tabId))
  = (None, [Offscreen.extractZipData (JS.array_join (Run.fill msgs arr)) tabId]).
Proof.
  revert arr received. induction msgs as [|[i c] msgs IH]; intros arr received.
  - reflexivity.
  - cbn [fmap list_fmap app Offscreen.onMessages Offscreen.onMessage fst snd
         Offscreen.totalChunks Offscreen.chunks Offscreen.received
         Offscreen.tabId].
    rewrite IH. reflexivity.
Qed.

(** X18 — The offscreen document has no completeness gate. Whatever
    count and length the start message declares and whichever chunk
    messages arrive before the end message, the end message starts the
    extraction on the chunks that did arrive, joined in index order with
    every missing one as the empty text, for the tab of the start
    message. *)
Theorem worker_joins_what_arrived (totalChunks totalLength tabId tabId' : nat)
    (msgs : list (nat * string))
    (chunkedInput : option Offscreen.ChunkedInput) :
  Offscreen.onMessages
    (EXTRACT_ZIP_DATA_START totalChunks totalLength tabId ::
     ((fun m => EXTRACT_ZIP_DATA_CHUNK m.1 m.2) <$> msgs) ++
     [EXTRACT_ZIP_DATA_END tabId'])
    chunkedInput
  = (None, [Offscreen.extractZipData (JS.array_join (Run.fill msgs [])) tabId]).
Proof.
  cbn [Offscreen.onMessages Offscreen.onMessage]. now rewrite worker_fill.
Qed.

Lemma background_fill JSON_parse msgs σ cr :
  Background.chunkedResult σ = Some cr ->
  Delivery.deliver JSON_parse σ ((fun m => RESULT_CHUNK m.1 m.2) <$> msgs)
  = Background.set_chunkedResult
      (Some (Background.mkChunked (Background.shape cr)
               (Background.cr_totalChunks cr)
               (Run.fill msgs (Background.cr_chunks cr))
               (Background.cr_received cr + length msgs))) σ.
Proof.
  revert σ cr. induction msgs as [|[i c] msgs IH]; intros σ cr Hcr.
  - cbn [fmap list_fmap Delivery.deliver foldl Run.fill length].
    rewrite Nat.add_0_r. destruct cr, σ. cbn in *. now rewrite Hcr.
  - cbn [fmap list_fmap Delivery.deliver foldl Background.onPortMessage
         fst snd].
    rewrite Hcr.
    set (cr' := Background.mkChunked _ _ _ _).
    specialize (IH (Background.set_chunkedResult (Some cr') σ) cr' eq_refl).
    unfold Delivery.deliver in IH. rewrite IH. unfold cr'.
    cbn [Background.shape Background.cr_totalChunks Background.cr_chunks
         Background.cr_received length].
    replace (S (Background.cr_received cr) + length msgs)
      with (Background.cr_received cr + S (length msgs)) by lia.
    now destruct σ.
Qed.

(** X19 — The background does not check a chunked result. With a job
    pending, whatever count and length the start message declares and
    whichever chunk messages arrive before the end message, the end
    message takes the chunks that did arrive, joined in index order with
    every missing one as the empty text. For a single video the caller
    is resolved with that text as its [base64], and the slot is
    cleared. For a multi-video result the text is parsed: the caller is
    resolved with what the parser returns, whatever that is; and when
    the parser throws, the caller stays pending, the slot stays full and
    the staged chunks stay where they are. *)
Theorem chunked_result_is_not_checked (JSON_parse : string -> option Result)
    (σ : Background.State) (p : nat) (shape : Shape)
    (totalChunks totalLength : nat) (msgs : list (nat * string)) :
  Background.pendingTranscode σ = Some p ->
  Background.promises σ !! p = Some None ->
  let combined := JS.array_join (Run.fill msgs []) in
  let σ' :=
    Delivery.deliver JSON_parse σ
      (RESULT_CHUNKED_START shape totalChunks totalLength ::
       ((fun m => RESULT_CHUNK m.1 m.2) <$> msgs) ++ [RESULT_CHUNKED_END]) in
  match shape with
  | SingleShape mimeType =>
      Background.promises σ' !! p
      = Some (Some (Background.Resolved
                      (Some (Single combined mimeType None)))) /\
      Background.pendingTranscode σ' = None
  | MultiShape =>
      match JSON_parse combined with
      | Some result =>
          Background.promises σ' !! p
          = Some (Some (Background.Resolved (Some result))) /\
          Background.pendingTranscode σ' = None
      | None =>
          Background.promises σ' !! p = Some None /\
          Background.pendingTranscode σ' = Some p /\
          Background.chunkedResult σ'
          = Some (Background.mkChunked MultiShape totalChunks
                    (Run.fill msgs []) (length msgs))
      end
  end.
Proof.
  intros Hslot Hpending combined σ'. unfold σ', Delivery.deliver.
  cbn [foldl Background.onPortMessage]. rewrite foldl_app.
  pose proof (background_fill JSON_parse msgs
                (Background.set_chunkedResult
                   (Some (Background.mkChunked shape totalChunks [] 0)) σ)
                _ eq_refl) as H.
  unfold Delivery.deliver in H. rewrite H.
  cbn [foldl Background.onPortMessage Background.chunkedResult
       Background.set_chunkedResult Background.pendingTranscode
       Background.shape Background.cr_chunks Background.cr_totalChunks
       Background.cr_received Nat.add].
  rewrite Hslot. fold combined.
  destruct shape as [mimeType|].
  - split; [|reflexivity].
    cbn [Background.promises Background.set_pendingTranscode].
    apply settle_promises_pending. exact Hpending.
  - destruct (JSON_parse combined) as [result|].
    + split; [|reflexivity].
      cbn [Background.promises Background.set_pendingTranscode].
      apply settle_promises_pending. exact Hpending.
    + cbn [Background.promises Background.pendingTranscode
           Background.chunkedResult Background.set_chunkedResult].
      split; [exact Hpending|]. split; [exact Hslot|reflexivity].
Qed.

Lemma chunked_result_is_not_checked_witness :
  let good := Multiple [mkVideo "a.mp4" "QQ==" "video/mp4"] in
  let parse := fun s : string =>
    if String.eqb s "{ok}" then Some good else None in
  let σ := snd (Background.submit 4 (Background.ExtractZipData "UEsh" 1)
                  Background.initial) in
  let single :=
    Delivery.deliver parse σ
      [RESULT_CHUNKED_START (SingleShape "video/mp4") 3 12;
       RESULT_CHUNK 2 "RUZH"; RESULT_CHUNK 0 "QUJD"; RESULT_CHUNKED_END] in
  let holed :=
    Delivery.deliver parse σ
      [RESULT_CHUNKED_START MultiShape 2 8;
       RESULT_CHUNK 1 "ok}"; RESULT_CHUNKED_END] in
  (Background.promises single !! 0
   = Some (Some (Background.Resolved
                   (Some (Single "QUJDRUZH" "video/mp4" None)))) /\
   Background.pendingTranscode single = None) /\
  (Background.promises holed !! 0 = Some None /\
   Background.pendingTranscode holed = Some 0 /\
   Background.chunkedResult holed
   = Some (Background.mkChunked MultiShape 2 [None; Some "ok}"] 1)).
Proof.
  intros good parse σ single holed. split.
  - apply (chunked_result_is_not_checked parse σ 0 (SingleShape "video/mp4")
             3 12 [(2, "RUZH"); (0, "QUJD")]); reflexivity.
  - apply (chunked_result_is_not_checked parse σ 0 MultiShape 2 8
             [(1, "ok}")]); reflexivity.
Defined.

(** *** The two encoders *)

Lemma ceil_div_3_step n : JS.ceil_div (n + 3) 3 = S (JS.ceil_div n 3).
Proof.
  unfold JS.ceil_div.
  replace (n + 3) with (n + 1 * 3) by lia.
  rewrite Nat.div_add, Nat.Div0.mod_add by lia.
  destruct (n mod 3 =? 0); lia.
Qed.

Lemma btoa_length_of bs :
  length (Base64.sextets bs) + (3 - length bs mod 3) mod 3
  = 4 * JS.ceil_div (length bs) 3.
Proof.
  induction bs as [| a | a b | a b c l IH] using list_ind3;
    [reflexivity..|].
  cbn [Base64.sextets length].
  replace (S (S (S (length l)))) with (length l + 3) by lia.
  rewrite ceil_div_3_step.
  replace (length l + 3) with (length l + 1 * 3) by lia.
  rewrite Nat.Div0.mod_add. lia.
Qed.

Lemma btoa_length binary :
  String.length (Base64.btoa binary)
  = 4 * JS.ceil_div (String.length binary) 3.
Proof.
  rewrite <- chars_length, chars_btoa, length_app, length_fmap.
  unfold Base64.padding. rewrite length_replicate.
  rewrite <- (chars_length binary).
  rewrite <- !(length_fmap nat_of_ascii (JS.chars binary)).
  apply btoa_length_of.
Qed.

(** X20 — The two encoders write the same text. What the content
    script makes of an archive, 8192 bytes at a time, is what
    [uint8ToBase64] makes of the same bytes, 32768 at a time; and the
    text has four code units for every three bytes, the last group
    filled up. *)
Theorem encoders_agree (data : list byte) :
  Content.toBase64 data = Offscreen.uint8ToBase64 data /\
  String.length (Content.toBase64 data) = 4 * JS.ceil_div (length data) 3.
Proof.
  assert (Offscreen.uint8ToBase64 data
          = Base64.btoa (string_of_list_byte data)) as E1.
  { unfold Offscreen.uint8ToBase64. cbv zeta.
    rewrite binary_string_of_pieces by lia. reflexivity. }
  assert (Content.toBase64 data = Base64.btoa (string_of_list_byte data))
    as E2.
  { unfold Content.toBase64. cbv zeta.
    rewrite <- (binary_string_of_pieces (8 * 1024) data) by lia.
    f_equal. apply foldl_pointwise. intros binary i. do 2 f_equal.
    unfold JS.subarray. f_equal. lia. }
  split; [congruence|].
  rewrite E2, btoa_length. do 2 f_equal.
  rewrite <- chars_length.
  change (JS.chars (string_of_list_byte data))
    with (JS.chars (Offscreen.fromCharCode data)).
  now rewrite chars_fromCharCode, length_fmap.
Qed.

(** *** The job on a URL *)



